(** * Agro: the image-analysis worker of [backend/routes/images.js]

    A shallow embedding of the analysis worker ([analyzeImage]), of the
    listing and deletion routes of [backend/routes/images.js] and of the
    [images] table of the database module, together with the part of the
    JavaScript platform they rely on: JSON texts, the [Number] coercion,
    [Math.max], [Math.min], [Math.round], string lower-casing and search.

    The design document names the fields of an analysis
    [weedCoveragePercent], [healthyCropCoveragePercent],
    [totalAreaPercent], [detectedItems] and [boundingBox]; the code, and
    this development, name them [weedCoverage], [healthyCropCoverage],
    [totalArea], [items] and [box_2d].  The [analysis] of a record is the
    column [segmentation_data], its raw model output the column
    [analysis_result].

    Conventions of the model.
    - A string is its sequence of UTF-16 code units.
    - A number held in a JSON value is written as a decimal [m / 10^k]
      in lowest decimal form, or is one of the three special values.  The
      decimal stands for the binary64 nearest to it: a literal that
      overflows is read as an infinity, one that underflows as zero, and
      every coercion to a number ([Number], truthiness) goes through the
      binary64.  The arithmetic of the worker is binary64 arithmetic:
      each operation returns the exact result rounded to the nearest
      binary64, ties to even ([F64]).  The sign of zero is not
      represented.  The arithmetic of the page that draws the boxes is
      kept on exact rationals ([Num]).
    - An object is the association list of its own properties in
      insertion order (the move of integer-like keys to the front that
      JavaScript performs is not represented).
    - [undefined] is the absent value [None] of an [option json].
    - An exception is a result [Throw], a rejected promise too; a call
      of the database that throws leaves the table as it was.  A call
      that is awaited is taken to settle: a call that never does leaves
      the worker where it is, and no transition of the server stands for
      it.
    - Limits of the engine (depth of nesting, length of strings) are not
      represented. *)

From Stdlib Require Import String Ascii.
From Stdlib Require Import ZArith NArith List Bool Lia.
From Stdlib Require Import QArith Qround Qabs Lqa Qpower.
Import ListNotations.
Close Scope Q_scope.
Open Scope string_scope.
Open Scope list_scope.

Set Implicit Arguments.

(* ================================================================== *)
(** * Strings as sequences of code units *)

Module Str.

Definition jstring := list N.

(** A string literal of the source, as code units. *)
Definition lit (s : string) : jstring :=
  map N_of_ascii (list_ascii_of_string s).

(** A text of the source written with ['] where it has the double quote,
    so that JSON texts can be written down as literals. *)
Definition text (s : string) : jstring :=
  map (fun c => if N.eqb c 39 then 34%N else c) (lit s).

Fixpoint eqb (a b : jstring) : bool :=
  match a, b with
  | [], [] => true
  | x :: a', y :: b' => N.eqb x y && eqb a' b'
  | _, _ => false
  end.

(** [s.startsWith(p)], returning what follows the prefix. *)
Fixpoint strip_prefix (p s : jstring) : option jstring :=
  match p, s with
  | [], _ => Some s
  | x :: p', y :: s' => if N.eqb x y then strip_prefix p' s' else None
  | _ :: _, [] => None
  end.

(** [s.includes(p)]: [p] occurs in [s] as a contiguous block. *)
Fixpoint includes (s p : jstring) : bool :=
  match strip_prefix p s with
  | Some _ => true
  | None => match s with
            | [] => false
            | _ :: s' => includes s' p
            end
  end.

(** [toLowerCase] on one code unit: [A]..[Z] go to [a]..[z].  The
    lower-casing of code units outside ASCII is left out: no such unit is
    sent to a letter of ["weed"] or ["crop"], the only words searched for
    afterwards. *)
Definition lower (c : N) : N :=
  if (65 <=? c)%N && (c <=? 90)%N then (c + 32)%N else c.

Definition toLowerCase (s : jstring) : jstring := map lower s.

End Str.

Import Str.

(* ================================================================== *)
(** * Numbers *)

(** A number as a JSON value holds it. [Dec m k] is [m / 10^k]. *)
Inductive num : Type :=
| Dec (m : Z) (k : nat)
| PInf
| NInf
| NaN.

(** A number under arithmetic. *)
Inductive qnum : Type :=
| QFin (q : Q)
| QPInf
| QNInf
| QNaN.

Module Num.

Definition pow10 (k : nat) : Z := 10 ^ Z.of_nat k.

(** Lowest decimal form: no trailing zero after the decimal point. *)
Fixpoint norm (m : Z) (k : nat) : Z * nat :=
  match k with
  | O => (m, O)
  | S k' => if (m mod 10 =? 0)%Z then norm (m / 10) k' else (m, k)
  end.

Definition canonical (m : Z) (k : nat) : bool :=
  match k with
  | O => true
  | S _ => negb (m mod 10 =? 0)%Z
  end.

Definition value (m : Z) (k : nat) : Q := Qmake m (Z.to_pos (pow10 k)).

(** The least magnitude that binary64 rounds to an infinity:
    [2^1024 - 2^970]. *)
Definition overflow_bound : Z := 2 ^ 1024 - 2 ^ 970.

(** The decimals at most [2^-1075] in magnitude are those that binary64
    rounds to zero: [underflows m k] tells whether [m / 10^k] is one. *)
Definition underflows (m : Z) (k : nat) : bool :=
  (Z.abs m * 2 ^ 1075 <=? pow10 k)%Z.

(** The number denoted by the decimal [m * 10^e], as the reader of a
    numeric literal returns it. *)
Definition of_decimal (m e : Z) : num :=
  let '(m', k') :=
    if (0 <=? e)%Z then (m * 10 ^ e, O)%Z else norm m (Z.to_nat (- e)) in
  if (overflow_bound * pow10 k' <=? Z.abs m')%Z
  then (if (0 <? m')%Z then PInf else NInf)
  else if underflows m' k' then Dec 0 0
  else Dec m' k'.

Definition is_zero (q : Q) : bool := Qeq_bool q 0.
Definition is_neg (q : Q) : bool := negb (Qle_bool 0 q).
Definition is_pos (q : Q) : bool := negb (Qle_bool q 0).

(** The operations below are exact on finite numbers: they are those
    of JavaScript where nothing is rounded (comparisons, [Math.max],
    [Math.min], [Math.round], an operand that is not finite), and [F64]
    rounds the results of the others. *)

(** [x || 0] on a number: [0] and [NaN] are the falsy numbers. *)
Definition or_zero (x : qnum) : qnum :=
  match x with
  | QFin q => if is_zero q then QFin 0 else x
  | QNaN => QFin 0
  | _ => x
  end.

Definition Math_max (a b : qnum) : qnum :=
  match a, b with
  | QNaN, _ | _, QNaN => QNaN
  | QPInf, _ | _, QPInf => QPInf
  | QNInf, x | x, QNInf => x
  | QFin x, QFin y => QFin (if Qle_bool x y then y else x)
  end.

Definition Math_min (a b : qnum) : qnum :=
  match a, b with
  | QNaN, _ | _, QNaN => QNaN
  | QNInf, _ | _, QNInf => QNInf
  | QPInf, x | x, QPInf => x
  | QFin x, QFin y => QFin (if Qle_bool x y then x else y)
  end.

Definition neg (a : qnum) : qnum :=
  match a with
  | QFin x => QFin (- x)
  | QPInf => QNInf
  | QNInf => QPInf
  | QNaN => QNaN
  end.

Definition add (a b : qnum) : qnum :=
  match a, b with
  | QNaN, _ | _, QNaN => QNaN
  | QPInf, QNInf | QNInf, QPInf => QNaN
  | QPInf, _ | _, QPInf => QPInf
  | QNInf, _ | _, QNInf => QNInf
  | QFin x, QFin y => QFin (x + y)
  end.

Definition sub (a b : qnum) : qnum := add a (neg b).

(** The sign of a product with an infinite factor. *)
Definition signed_inf (positive : bool) : qnum :=
  if positive then QPInf else QNInf.

Definition mul (a b : qnum) : qnum :=
  match a, b with
  | QNaN, _ | _, QNaN => QNaN
  | QFin x, QFin y => QFin (x * y)
  | QFin x, QPInf | QPInf, QFin x =>
      if is_zero x then QNaN else signed_inf (is_pos x)
  | QFin x, QNInf | QNInf, QFin x =>
      if is_zero x then QNaN else signed_inf (is_neg x)
  | QPInf, QPInf | QNInf, QNInf => QPInf
  | QPInf, QNInf | QNInf, QPInf => QNInf
  end.

Definition div (a b : qnum) : qnum :=
  match a, b with
  | QNaN, _ | _, QNaN => QNaN
  | QFin x, QFin y =>
      if is_zero y
      then (if is_zero x then QNaN else signed_inf (is_pos x))
      else QFin (x / y)
  | QFin _, _ => QFin 0
  | QPInf, QFin y => signed_inf (Qle_bool 0 y)
  | QNInf, QFin y => signed_inf (negb (Qle_bool 0 y))
  | _, _ => QNaN
  end.

(** [Math.round]: the integer nearest to the argument, ties towards
    [+Infinity]; the result is again a number a JSON value can hold. *)
Definition Math_round (a : qnum) : num :=
  match a with
  | QFin x => Dec (Qfloor (x + (1 # 2))) 0
  | QPInf => PInf
  | QNInf => NInf
  | QNaN => NaN
  end.

End Num.

(* ================================================================== *)
(** * binary64 *)

(** The numbers of JavaScript are those of binary64: 53 bits of
    precision, the exponents of the normal numbers from -1022 to 1023,
    subnormal numbers below.  A finite binary64 is kept as the rational
    it is. *)
Module F64.

Definition pow2 (e : Z) : Q := (2 ^ e)%Q.

(** The integer part of the binary logarithm of a positive rational. *)
Definition ilog2 (q : Q) : Z :=
  let e := (Z.log2 (Qnum q) - Z.log2 (Zpos (Qden q)))%Z in
  if Qle_bool (pow2 e) q then e else (e - 1)%Z.

(** The distance between two neighbouring binary64 around [q]. *)
Definition ulp (q : Q) : Q :=
  pow2 (Z.max (ilog2 (Qabs q)) (-1022) - 52).

(** The nearest integer, a tie going to the even one. *)
Definition nearest_even (x : Q) : Z :=
  let f := Qfloor x in
  match (x - inject_Z f ?= 1 # 2)%Q with
  | Lt => f
  | Gt => (f + 1)%Z
  | Eq => if Z.even f then f else (f + 1)%Z
  end.

(** The binary64 nearest to [q], ties to even; an infinity from
    [2^1024 - 2^970] on. *)
Definition round (q : Q) : qnum :=
  if Qle_bool (inject_Z Num.overflow_bound) (Qabs q)
  then (if Qle_bool 0 q then QPInf else QNInf)
  else QFin (Qred (inject_Z (nearest_even (q / ulp q)) * ulp q)).

(** The binary64 that a number held in a JSON value is. *)
Definition of_num (n : num) : qnum :=
  match n with
  | Dec m k => round (Num.value m k)
  | PInf => QPInf
  | NInf => QNInf
  | NaN => QNaN
  end.

(** The four operations: the exact result, rounded.  With an operand
    that is not finite, and for a division by zero, nothing is
    rounded. *)
Definition add (a b : qnum) : qnum :=
  match a, b with
  | QFin x, QFin y => round (x + y)
  | _, _ => Num.add a b
  end.

Definition sub (a b : qnum) : qnum := add a (Num.neg b).

Definition mul (a b : qnum) : qnum :=
  match a, b with
  | QFin x, QFin y => round (x * y)
  | _, _ => Num.mul a b
  end.

Definition div (a b : qnum) : qnum :=
  match a, b with
  | QFin x, QFin y =>
      if Num.is_zero y then Num.div a b else round (x / y)
  | _, _ => Num.div a b
  end.

(** A positive binary64, as a bound: [N * 2^t] with [N] of at most 53
    bits and [t] among the exponents of the format. *)
Definition grid (B : Q) : Prop :=
  exists N t : Z,
    (B == inject_Z N * pow2 t)%Q
    /\ (0 < N < 2 ^ 53)%Z /\ (-1074 <= t <= 970)%Z.

End F64.

(* ================================================================== *)
(** * JSON values *)

#[warnings="-register-all"]
Inductive json : Type :=
| JNull
| JBool (b : bool)
| JNum (n : num)
| JStr (s : jstring)
| JArr (l : list json)
| JObj (o : list (jstring * json)).

Definition object := list (jstring * json).

Module Obj.

(** [o[k]] for an own property. *)
Fixpoint lookup (k : jstring) (o : object) : option json :=
  match o with
  | [] => None
  | (k', v) :: r => if Str.eqb k k' then Some v else lookup k r
  end.

(** [o[k] = v]: an existing property keeps its place, a new one goes
    last. *)
Fixpoint set (k : jstring) (v : json) (o : object) : object :=
  match o with
  | [] => [(k, v)]
  | (k', v') :: r =>
      if Str.eqb k k' then (k', v) :: r else (k', v') :: set k v r
  end.

Definition keys (o : object) : list jstring := map fst o.

End Obj.

(* ================================================================== *)
(** * Exceptions *)

Inductive error : Type :=
| SyntaxError
| TypeError
| IOError.

Inductive result (A : Type) : Type :=
| Ok (a : A)
| Throw (e : error).

Arguments Ok {A} a.
Arguments Throw {A} e.

Definition bind {A B} (r : result A) (f : A -> result B) : result B :=
  match r with
  | Ok a => f a
  | Throw e => Throw e
  end.

Notation "x <- r ;; k" := (bind r (fun x => k))
  (at level 61, r at next level, right associativity).

(* ================================================================== *)
(** * JSON texts: [JSON.parse] and [JSON.stringify] *)

Module Text.

Definition QUOTE : N := 34.
Definition BACKSLASH : N := 92.
Definition COMMA : N := 44.
Definition COLON : N := 58.
Definition MINUS : N := 45.
Definition PLUS : N := 43.
Definition DOT : N := 46.
Definition LBRACK : N := 91.
Definition RBRACK : N := 93.
Definition LBRACE : N := 123.
Definition RBRACE : N := 125.

Definition is_ws (c : N) : bool :=
  (c =? 32)%N || (c =? 9)%N || (c =? 10)%N || (c =? 13)%N.

Fixpoint skip_ws (s : list N) : list N :=
  match s with
  | c :: r => if is_ws c then skip_ws r else s
  | [] => []
  end.

(** ** Digits *)

Definition is_digit (c : N) : bool := (48 <=? c)%N && (c <=? 57)%N.

Definition digit_char (d : N) : N := (48 + d)%N.

(** The longest run of decimal digits at the head, as digit values. *)
Fixpoint take_digits (s : list N) : list N * list N :=
  match s with
  | c :: r =>
      if is_digit c
      then let '(ds, rest) := take_digits r in ((c - 48)%N :: ds, rest)
      else ([], s)
  | [] => ([], [])
  end.

Definition of_digits (ds : list N) : N :=
  fold_left (fun a d => (10 * a + d)%N) ds 0%N.

Fixpoint digits_aux (fuel : nat) (n : N) (acc : list N) : list N :=
  match fuel with
  | O => n :: acc
  | S f =>
      if (n <? 10)%N then n :: acc
      else digits_aux f (n / 10)%N ((n mod 10)%N :: acc)
  end.

(** The decimal digits of [n], most significant first, no leading zero
    (["0"] for zero). *)
Definition digits (n : N) : list N :=
  digits_aux (N.to_nat (N.size n)) n [].

(** Exactly [k] decimal digits of [n], most significant first. *)
Fixpoint digits_fixed (k : nat) (n : N) : list N :=
  match k with
  | O => []
  | S k' => digits_fixed k' (n / 10)%N ++ [(n mod 10)%N]
  end.

Definition hex_val (c : N) : option N :=
  if is_digit c then Some (c - 48)%N
  else if (97 <=? c)%N && (c <=? 102)%N then Some (c - 87)%N
  else if (65 <=? c)%N && (c <=? 70)%N then Some (c - 55)%N
  else None.

Definition hex_char (d : N) : N :=
  if (d <? 10)%N then (48 + d)%N else (87 + d)%N.

Definition hex4 (a b c d : N) : option N :=
  match hex_val a, hex_val b, hex_val c, hex_val d with
  | Some x, Some y, Some z, Some w =>
      Some (((x * 16 + y) * 16 + z) * 16 + w)%N
  | _, _, _, _ => None
  end.

(** ** Strings *)

Definition simple_escape (e : N) : option N :=
  if (e =? QUOTE)%N then Some QUOTE
  else if (e =? BACKSLASH)%N then Some BACKSLASH
  else if (e =? 47)%N then Some 47%N     (* solidus *)
  else if (e =? 98)%N then Some 8%N      (* b: backspace *)
  else if (e =? 102)%N then Some 12%N    (* f: form feed *)
  else if (e =? 110)%N then Some 10%N    (* n: line feed *)
  else if (e =? 114)%N then Some 13%N    (* r: carriage return *)
  else if (e =? 116)%N then Some 9%N     (* t: tab *)
  else None.

(** The characters of a string literal after its opening quote, up to
    and including the closing quote. *)
Fixpoint parse_chars (s : list N) (acc : jstring)
  : option (jstring * list N) :=
  match s with
  | [] => None
  | c :: r =>
      if (c =? QUOTE)%N then Some (rev acc, r)
      else if (c =? BACKSLASH)%N then
        match r with
        | [] => None
        | e :: r1 =>
            if (e =? 117)%N then
              match r1 with
              | h1 :: h2 :: h3 :: h4 :: r2 =>
                  match hex4 h1 h2 h3 h4 with
                  | Some u => parse_chars r2 (u :: acc)
                  | None => None
                  end
              | _ => None
              end
            else
              match simple_escape e with
              | Some u => parse_chars r1 (u :: acc)
              | None => None
              end
        end
      else if (c <? 32)%N then None
      else parse_chars r (c :: acc)
  end.

(** ** Numbers *)

Definition parse_sign (s : list N) : bool * list N :=
  match s with
  | c :: r => if (c =? MINUS)%N then (true, r) else (false, s)
  | [] => (false, s)
  end.

Definition parse_frac (s : list N) : option (list N * list N) :=
  match s with
  | c :: r =>
      if (c =? DOT)%N then
        match take_digits r with
        | ([], _) => None
        | (fs, rest) => Some (fs, rest)
        end
      else Some ([], s)
  | [] => Some ([], s)
  end.

Definition parse_exp (s : list N) : option (Z * list N) :=
  match s with
  | c :: r =>
      if (c =? 101)%N || (c =? 69)%N then
        let '(negative, r1) :=
          match r with
          | g :: r' =>
              if (g =? MINUS)%N then (true, r')
              else if (g =? PLUS)%N then (false, r')
              else (false, r)
          | [] => (false, r)
          end in
        match take_digits r1 with
        | ([], _) => None
        | (es, rest) =>
            let e := Z.of_N (of_digits es) in
            Some (if negative then (- e)%Z else e, rest)
        end
      else Some (0%Z, s)
  | [] => Some (0%Z, s)
  end.

(** The digits, fraction and exponent of a literal, after its sign. *)
Definition parse_magnitude (negative : bool) (s1 : list N)
  : option (num * list N) :=
  match take_digits s1 with
  | ([], _) => None
  | (d :: ip, s2) =>
      if (d =? 0)%N && negb (match ip with [] => true | _ => false end)
      then None
      else
        match parse_frac s2 with
        | None => None
        | Some (fs, s3) =>
            match parse_exp s3 with
            | None => None
            | Some (e, s4) =>
                let m := Z.of_N (of_digits ((d :: ip) ++ fs)) in
                Some (Num.of_decimal
                        (if negative then (- m)%Z else m)
                        (e - Z.of_nat (length fs))%Z, s4)
            end
        end
  end.

Definition parse_number (s : list N) : option (num * list N) :=
  let '(negative, s1) := parse_sign s in
  parse_magnitude negative s1.

(** ** Values *)

Fixpoint parse_value (fuel : nat) (s : list N) : option (json * list N) :=
  match fuel with
  | O => None
  | S f =>
      match skip_ws s with
      | [] => None
      | c :: r =>
          if (c =? LBRACE)%N then
            match skip_ws r with
            | c' :: r' =>
                if (c' =? RBRACE)%N then Some (JObj [], r')
                else parse_members f (c' :: r') []
            | [] => None
            end
          else if (c =? LBRACK)%N then
            match skip_ws r with
            | c' :: r' =>
                if (c' =? RBRACK)%N then Some (JArr [], r')
                else parse_elements f (c' :: r') []
            | [] => None
            end
          else if (c =? QUOTE)%N then
            match parse_chars r [] with
            | Some (str, r') => Some (JStr str, r')
            | None => None
            end
          else
            match strip_prefix (lit "true") (c :: r) with
            | Some r' => Some (JBool true, r')
            | None =>
            match strip_prefix (lit "false") (c :: r) with
            | Some r' => Some (JBool false, r')
            | None =>
            match strip_prefix (lit "null") (c :: r) with
            | Some r' => Some (JNull, r')
            | None =>
            match parse_number (c :: r) with
            | Some (n, r') => Some (JNum n, r')
            | None => None
            end end end end
      end
  end

with parse_elements (fuel : nat) (s : list N) (acc : list json)
  : option (json * list N) :=
  match fuel with
  | O => None
  | S f =>
      match parse_value f s with
      | None => None
      | Some (v, r) =>
          match skip_ws r with
          | c :: r' =>
              if (c =? COMMA)%N then parse_elements f r' (acc ++ [v])
              else if (c =? RBRACK)%N then Some (JArr (acc ++ [v]), r')
              else None
          | [] => None
          end
      end
  end

with parse_members (fuel : nat) (s : list N) (acc : object)
  : option (json * list N) :=
  match fuel with
  | O => None
  | S f =>
      match skip_ws s with
      | q :: r0 =>
          if (q =? QUOTE)%N then
            match parse_chars r0 [] with
            | None => None
            | Some (k, r1) =>
                match skip_ws r1 with
                | c :: r2 =>
                    if (c =? COLON)%N then
                      match parse_value f r2 with
                      | None => None
                      | Some (v, r3) =>
                          match skip_ws r3 with
                          | d :: r4 =>
                              if (d =? COMMA)%N
                              then parse_members f r4 (Obj.set k v acc)
                              else if (d =? RBRACE)%N
                              then Some (JObj (Obj.set k v acc), r4)
                              else None
                          | [] => None
                          end
                      end
                    else None
                | [] => None
                end
            end
          else None
      | [] => None
      end
  end.

(** [JSON.parse(text)]; [None] stands for the [SyntaxError] it throws. *)
Definition JSON_parse (text : jstring) : option json :=
  match parse_value (S (length text)) text with
  | Some (v, rest) =>
      match skip_ws rest with
      | [] => Some v
      | _ :: _ => None
      end
  | None => None
  end.

(** ** Writing numbers and strings *)

(** [Number::toString].  A finite number is written in positional
    notation with all its digits.  JavaScript writes the same text for a
    number of at most 17 significant digits and of magnitude from [1e-6]
    up to [1e21]; beyond that it writes the shortest digits that read
    back as the same binary64, with an exponent outside that range of
    magnitudes.  In both cases the text read back is the number
    written. *)
Definition Number_toString (n : num) : jstring :=
  match n with
  | NaN => lit "NaN"
  | PInf => lit "Infinity"
  | NInf => lit "-Infinity"
  | Dec m k =>
      let a := Z.abs_N m in
      let p := Z.to_N (Num.pow10 k) in
      (if (m <? 0)%Z then [MINUS] else [])
        ++ map digit_char (digits (a / p)%N)
        ++ match k with
           | O => []
           | S _ => DOT :: map digit_char (digits_fixed k (a mod p)%N)
           end
  end.

Definition is_high_surrogate (c : N) : bool :=
  (55296 <=? c)%N && (c <=? 56319)%N.
Definition is_low_surrogate (c : N) : bool :=
  (56320 <=? c)%N && (c <=? 57343)%N.

(** The six-character escape of a code unit: backslash, [u], four
    lower-case hexadecimal digits. *)
Definition escape_u (c : N) : list N :=
  [BACKSLASH; 117%N;
   hex_char ((c / 4096) mod 16)%N; hex_char ((c / 256) mod 16)%N;
   hex_char ((c / 16) mod 16)%N; hex_char (c mod 16)%N].

Definition quote_unit (c : N) : list N :=
  if (c =? 8)%N then [BACKSLASH; 98%N]
  else if (c =? 9)%N then [BACKSLASH; 116%N]
  else if (c =? 10)%N then [BACKSLASH; 110%N]
  else if (c =? 12)%N then [BACKSLASH; 102%N]
  else if (c =? 13)%N then [BACKSLASH; 114%N]
  else if (c =? QUOTE)%N then [BACKSLASH; QUOTE]
  else if (c =? BACKSLASH)%N then [BACKSLASH; BACKSLASH]
  else if (c <? 32)%N then escape_u c
  else if is_high_surrogate c || is_low_surrogate c then escape_u c
  else [c].

(** [QuoteJSONString] without the enclosing quotes: a surrogate pair is
    copied, a lone surrogate is escaped. *)
Fixpoint quote_chars (s : jstring) : list N :=
  match s with
  | [] => []
  | c :: r =>
      match r with
      | d :: r' =>
          if is_high_surrogate c && is_low_surrogate d
          then c :: d :: quote_chars r'
          else quote_unit c ++ quote_chars r
      | [] => quote_unit c ++ quote_chars r
      end
  end.

Definition quote (s : jstring) : list N :=
  QUOTE :: quote_chars s ++ [QUOTE].

(** [JSON.stringify(v)] without indentation.  A number that is not
    finite is written [null]. *)
Fixpoint JSON_stringify (v : json) : jstring :=
  match v with
  | JNull => lit "null"
  | JBool true => lit "true"
  | JBool false => lit "false"
  | JNum (Dec m k) => Number_toString (Dec m k)
  | JNum _ => lit "null"
  | JStr s => quote s
  | JArr l =>
      LBRACK ::
      (fix elements (l : list json) : list N :=
         match l with
         | [] => []
         | x :: r =>
             JSON_stringify x ++
             match r with
             | [] => []
             | _ :: _ => COMMA :: elements r
             end
         end) l ++ [RBRACK]
  | JObj o =>
      LBRACE ::
      (fix members (o : list (jstring * json)) : list N :=
         match o with
         | [] => []
         | (k, x) :: r =>
             quote k ++ COLON :: JSON_stringify x ++
             match r with
             | [] => []
             | _ :: _ => COMMA :: members r
             end
         end) o ++ [RBRACE]
  end.

End Text.

Import Text.

(* ================================================================== *)
(** * Coercions of JavaScript *)

Module Js.

(** [ToBoolean]: the falsy values are [undefined], [null], [false], [0],
    [NaN] and the empty string. *)
Definition truthy (v : option json) : bool :=
  match v with
  | None | Some JNull => false
  | Some (JBool b) => b
  | Some (JNum n) =>
      match F64.of_num n with
      | QFin q => negb (Num.is_zero q)
      | QNaN => false
      | _ => true
      end
  | Some (JStr s) => match s with [] => false | _ :: _ => true end
  | Some (JArr _) | Some (JObj _) => true
  end.

(** [v == null]: [v] is [undefined] or [null]. *)
Definition nullish (v : option json) : bool :=
  match v with
  | None | Some JNull => true
  | Some _ => false
  end.

(** [Number.isNaN(v)]: no coercion, only the number [NaN] passes. *)
Definition Number_isNaN (v : option json) : bool :=
  match v with
  | Some (JNum NaN) => true
  | _ => false
  end.

Definition Array_isArray (v : option json) : bool :=
  match v with
  | Some (JArr _) => true
  | _ => false
  end.

(** [v.k] for the property names read by the worker ([items], [label],
    [box_2d] and the coverage fields), none of which is inherited from a
    prototype: reading from [undefined] or [null] throws, reading from any
    value that is not an object gives [undefined]. *)
Definition member (v : option json) (k : jstring) : result (option json) :=
  match v with
  | None | Some JNull => Throw TypeError
  | Some (JObj o) => Ok (Obj.lookup k o)
  | Some _ => Ok None
  end.

Definition TO_STRING := lit "toString".

(** [ToString], as [Array.prototype.join] and [Number] use it.  An
    object is converted by the method [toString] that it has: the one of
    [Object.prototype], which writes ["[object Object]"], unless the
    object has a property of that name of its own.  Such a property of a
    value read by [JSON.parse] is no function, so that no method is left
    to convert the object ([valueOf], its own or inherited, gives no
    primitive value either) and the conversion throws.  An array is
    converted by [join], which converts its elements, [null] to the
    empty string. *)
Fixpoint ToString (v : json) : result jstring :=
  match v with
  | JNull => Ok (lit "null")
  | JBool true => Ok (lit "true")
  | JBool false => Ok (lit "false")
  | JNum n => Ok (Number_toString n)
  | JStr s => Ok s
  | JArr l =>
      (fix join (l : list json) : result jstring :=
         match l with
         | [] => Ok []
         | x :: r =>
             first <- match x with JNull => Ok [] | _ => ToString x end ;;
             match r with
             | [] => Ok first
             | _ :: _ => rest <- join r ;; Ok (first ++ COMMA :: rest)
             end
         end) l
  | JObj o =>
      match Obj.lookup TO_STRING o with
      | Some _ => Throw TypeError
      | None => Ok (lit "[object Object]")
      end
  end.

(** White space and line terminators that [StringToNumber] strips. *)
Definition is_str_ws (c : N) : bool :=
  ((9 <=? c) && (c <=? 13) || (c =? 32) || (c =? 160) || (c =? 5760)
   || (8192 <=? c) && (c <=? 8202) || (c =? 8232) || (c =? 8233)
   || (c =? 8239) || (c =? 8287) || (c =? 12288) || (c =? 65279))%N.

Fixpoint drop_ws (s : jstring) : jstring :=
  match s with
  | c :: r => if is_str_ws c then drop_ws r else s
  | [] => []
  end.

Definition trim (s : jstring) : jstring :=
  rev (drop_ws (rev (drop_ws s))).

(** Digits of a radix-[b] literal ([b] is 2, 8 or 16): every character
    must be a digit below [b], and there must be one at least. *)
Fixpoint radix_digits (b : N) (s : jstring) (acc : N) : option N :=
  match s with
  | [] => Some acc
  | c :: r =>
      match hex_val c with
      | Some d => if (d <? b)%N then radix_digits b r (b * acc + d)%N
                  else None
      | None => None
      end
  end.

Definition radix_literal (b : N) (s : jstring) : qnum :=
  match s with
  | [] => QNaN
  | _ :: _ =>
      match radix_digits b s 0%N with
      | Some n => F64.of_num (Num.of_decimal (Z.of_N n) 0)
      | None => QNaN
      end
  end.

(** [StrUnsignedDecimalLiteral]: digits with an optional fraction, or a
    fraction alone, then an optional exponent; nothing may follow. *)
Definition unsigned_decimal (negative : bool) (s : jstring) : qnum :=
  let '(ip, s1) := take_digits s in
  let '(fs, s2, dot) :=
    match s1 with
    | c :: r => if (c =? DOT)%N
                then let '(fs, r') := take_digits r in (fs, r', true)
                else ([], s1, false)
    | [] => ([], s1, false)
    end in
  match ip, fs with
  | [], [] => QNaN
  | _, _ =>
      match parse_exp s2 with
      | Some (e, []) =>
          let m := Z.of_N (of_digits (ip ++ fs)) in
          F64.of_num (Num.of_decimal (if negative then (- m)%Z else m)
                                     (e - Z.of_nat (length fs))%Z)
      | _ => QNaN
      end
  end.

Definition signed_decimal (s : jstring) : qnum :=
  let '(negative, body) :=
    match s with
    | c :: r => if (c =? MINUS)%N then (true, r)
                else if (c =? PLUS)%N then (false, r)
                else (false, s)
    | [] => (false, s)
    end in
  if Str.eqb body (lit "Infinity")
  then (if negative then QNInf else QPInf)
  else unsigned_decimal negative body.

(** [StringToNumber]. *)
Definition StringToNumber (s : jstring) : qnum :=
  match trim s with
  | [] => QFin 0%Q
  | c :: d :: r =>
      if (c =? 48)%N && ((d =? 120) || (d =? 88))%N then radix_literal 16 r
      else if (c =? 48)%N && ((d =? 111) || (d =? 79))%N
      then radix_literal 8 r
      else if (c =? 48)%N && ((d =? 98) || (d =? 66))%N
      then radix_literal 2 r
      else signed_decimal (c :: d :: r)
  | t => signed_decimal t
  end.

(** [Number(v)], and the conversion of an operand of [/]: an array or
    an object is first converted to a string, which may throw. *)
Definition Number (v : option json) : result qnum :=
  match v with
  | None => Ok QNaN
  | Some JNull => Ok (QFin 0%Q)
  | Some (JBool true) => Ok (QFin 1%Q)
  | Some (JBool false) => Ok (QFin 0%Q)
  | Some (JNum n) => Ok (F64.of_num n)
  | Some (JStr s) => Ok (StringToNumber s)
  | Some (JArr l) => s <- ToString (JArr l) ;; Ok (StringToNumber s)
  | Some (JObj o) => s <- ToString (JObj o) ;; Ok (StringToNumber s)
  end.

End Js.

Import Js.

(* ================================================================== *)
(** * The normalisation performed by [analyzeImage] *)

Module Analysis.

Definition ITEMS := lit "items".
Definition WEED_COVERAGE := lit "weedCoverage".
Definition HEALTHY_CROP_COVERAGE := lit "healthyCropCoverage".
Definition TOTAL_AREA := lit "totalArea".
Definition RECOMMENDATIONS := lit "recommendations".
Definition LABEL := lit "label".
Definition BOX_2D := lit "box_2d".

Definition q0 : qnum := QFin 0%Q.
Definition q100 : qnum := QFin 100%Q.
Definition q1000 : qnum := QFin 1000%Q.

(** [analysisText.match(/\{[\s\S]*\}/)]: the span from the first opening
    brace to the last closing brace after it. *)
Fixpoint from_first (c : N) (s : jstring) : option jstring :=
  match s with
  | [] => None
  | x :: r => if (x =? c)%N then Some r else from_first c r
  end.

Fixpoint upto_last (c : N) (s : jstring) : option jstring :=
  match s with
  | [] => None
  | x :: r =>
      match upto_last c r with
      | Some p => Some (x :: p)
      | None => if (x =? c)%N then Some [x] else None
      end
  end.

Definition jsonMatch (analysisText : jstring) : option jstring :=
  match from_first LBRACE analysisText with
  | Some after =>
      match upto_last RBRACE after with
      | Some body => Some (LBRACE :: body)
      | None => None
      end
  | None => None
  end.

(** The value used when the text has no such span. *)
Definition fallback : json :=
  JObj [ (ITEMS, JArr []);
         (WEED_COVERAGE, JNum (Dec 0 0));
         (HEALTHY_CROP_COVERAGE, JNum (Dec 100 0));
         (RECOMMENDATIONS,
          JArr [JStr (lit "Unable to analyze image details")]) ].

(** One coordinate: [Math.max(0, Math.min(1000, Number(b) || 0))]. *)
Definition coordinate (b : json) : result qnum :=
  n <- Number (Some b) ;;
  Ok (Num.Math_max q0 (Num.Math_min q1000 (Num.or_zero n))).

Definition areaOf (box : option json) : result qnum :=
  match box with
  | Some (JArr [b0; b1; b2; b3]) =>
      ymin <- coordinate b0 ;;
      xmin <- coordinate b1 ;;
      ymax <- coordinate b2 ;;
      xmax <- coordinate b3 ;;
      let w := Num.Math_max q0 (F64.sub xmax xmin) in
      let h := Num.Math_max q0 (F64.sub ymax ymin) in
      Ok (F64.div (F64.mul w h) (F64.mul q1000 q1000))
  | _ => Ok q0
  end.

(** [(it.label || '').toLowerCase().includes(word)].  A truthy label
    that is not a string has no [toLowerCase] method: calling it throws. *)
Definition label_includes (word : jstring) (it : json) : result bool :=
  l <- member (Some it) LABEL ;;
  if truthy l then
    match l with
    | Some (JStr s) => Ok (includes (toLowerCase s) word)
    | _ => Throw TypeError
    end
  else Ok (includes (toLowerCase []) word).

(** [items.filter(p)] for a predicate that may throw. *)
Fixpoint filter_items (p : json -> result bool) (items : list json)
  : result (list json) :=
  match items with
  | [] => Ok []
  | it :: r =>
      b <- p it ;;
      kept <- filter_items p r ;;
      Ok (if b then it :: kept else kept)
  end.

(** [.reduce((sum, it) => sum + areaOf(it.box_2d), 0)]. *)
Fixpoint reduce_area (items : list json) (sum : qnum) : result qnum :=
  match items with
  | [] => Ok sum
  | it :: r =>
      box <- member (Some it) BOX_2D ;;
      area <- areaOf box ;;
      reduce_area r (F64.add sum area)
  end.

Definition area_of_label (word : jstring) (items : list json)
  : result qnum :=
  kept <- filter_items (label_includes word) items ;;
  reduce_area kept q0.

(** [Math.round(Math.max(0, Math.min(100, area * 100)))]. *)
Definition coverage (area : qnum) : num :=
  Num.Math_round (Num.Math_max q0 (Num.Math_min q100 (F64.mul area q100))).

(** The field is backfilled when [v == null || Number.isNaN(v)]. *)
Definition missing (v : option json) : bool :=
  nullish v || Number_isNaN v.

(** The block guarded by [Array.isArray(segmentationData.items)]. *)
Definition derive (o : object) (items : list json) : result object :=
  weedArea <- area_of_label (lit "weed") items ;;
  cropArea <- area_of_label (lit "crop") items ;;
  let o1 := if missing (Obj.lookup WEED_COVERAGE o)
            then Obj.set WEED_COVERAGE (JNum (coverage weedArea)) o
            else o in
  let o2 := if missing (Obj.lookup HEALTHY_CROP_COVERAGE o1)
            then Obj.set HEALTHY_CROP_COVERAGE (JNum (coverage cropArea)) o1
            else o1 in
  let o3 := if nullish (Obj.lookup TOTAL_AREA o2)
            then Obj.set TOTAL_AREA (JNum (Dec 100 0)) o2
            else o2 in
  Ok o3.

(** From [segmentationData] as parsed to [segmentationData] as stored. *)
Definition backfill (segmentationData : json) : result json :=
  items <- member (Some segmentationData) ITEMS ;;
  match segmentationData, items with
  | JObj o, Some (JArr its) => o' <- derive o its ;; Ok (JObj o')
  | _, _ => Ok segmentationData
  end.

(** The parsing step: the fallback when no span is found, the parsed
    span otherwise; a span that is not JSON makes [JSON.parse] throw. *)
Definition extract (analysisText : jstring) : result json :=
  match jsonMatch analysisText with
  | Some span =>
      match JSON_parse span with
      | Some v => Ok v
      | None => Throw SyntaxError
      end
  | None => Ok fallback
  end.

(** Lines 127 to 174 of [analyzeImage]: from the text of the response
    to the value that is serialised into [segmentation_data]. *)
Definition normalize (analysisText : jstring) : result json :=
  segmentationData <- extract analysisText ;;
  backfill segmentationData.

End Analysis.

Import Analysis.

(* ================================================================== *)
(** * The [images] table and the worker *)

Inductive image_status : Type :=
| pending
| processing
| completed
| failed.

Record row : Type := mkRow {
  id : Z;
  user_id : Z;
  filename : jstring;
  original_path : jstring;
  analysis_result : option jstring;
  segmentation_data : option jstring;
  status : image_status;
  created_at : Z
}.

(** The table, with the counter of [AUTOINCREMENT]: the largest row id
    ever handed out. *)
Record database : Type := mkDb {
  images : list row;
  last_id : Z
}.

(** The statements that the routes and the worker run on the table. *)
Inductive statement : Type :=
| InsertImage (user : Z) (name path : jstring) (now : Z)
| UpdateCompleted (image : Z) (analysisText segmentation : jstring)
| UpdateFailed (image : Z)
| DeleteImage (image : Z).

Module Db.

Definition set_completed (i : Z) (raw seg : jstring) (r : row) : row :=
  if (id r =? i)%Z
  then mkRow (id r) (user_id r) (filename r) (original_path r)
             (Some raw) (Some seg) completed (created_at r)
  else r.

Definition set_failed (i : Z) (r : row) : row :=
  if (id r =? i)%Z
  then mkRow (id r) (user_id r) (filename r) (original_path r)
             (analysis_result r) (segmentation_data r) failed (created_at r)
  else r.

Definition exec (s : statement) (db : database) : database :=
  match s with
  | InsertImage user name path now =>
      (* INSERT INTO images (user_id, filename, original_path, status)
         VALUES (?, ?, ?, 'processing') *)
      let i := (last_id db + 1)%Z in
      mkDb (images db ++ [mkRow i user name path None None processing now]) i
  | UpdateCompleted i raw seg =>
      (* UPDATE images SET analysis_result = ?, segmentation_data = ?,
         status = 'completed' WHERE id = ? *)
      mkDb (map (set_completed i raw seg) (images db)) (last_id db)
  | UpdateFailed i =>
      (* UPDATE images SET status = 'failed' WHERE id = ? *)
      mkDb (map (set_failed i) (images db)) (last_id db)
  | DeleteImage i =>
      (* DELETE FROM images WHERE id = ? *)
      mkDb (filter (fun r => negb (id r =? i)%Z) (images db)) (last_id db)
  end.

Definition exec_all (l : list statement) (db : database) : database :=
  fold_left (fun d s => exec s d) l db.

(** [SELECT * FROM images WHERE id = ? AND user_id = ?]. *)
Definition get (i user : Z) (db : database) : option row :=
  find (fun r => (id r =? i)%Z && (user_id r =? user)%Z) (images db).

Fixpoint insert_desc (r : row) (l : list row) : list row :=
  match l with
  | [] => [r]
  | x :: l' => if (created_at x <=? created_at r)%Z
               then r :: l else x :: insert_desc r l'
  end.

(** [SELECT * FROM images WHERE user_id = ? ORDER BY created_at DESC];
    rows created at the same time come in the order of the table. *)
Definition all_of (user : Z) (db : database) : list row :=
  fold_right insert_desc []
    (filter (fun r => (user_id r =? user)%Z) (images db)).

End Db.

(** What the worker meets outside the process: whether the file can be
    read, what the model call returns ([response.text], possibly
    undefined) or that it fails, and whether each of its two statements
    is carried out by the database. *)
Record world : Type := mkWorld {
  readFile : result unit;
  generateContent : result (option jstring);
  run_completed : bool;
  run_failed : bool
}.

Module Worker.

(** [await db.run(s)]: the statement is carried out, or the call throws
    and the table is left as it was. *)
Definition db_run (carried_out : bool) (s : statement)
  : result (list statement) :=
  if carried_out then Ok [s] else Throw IOError.

(** The [try] block of [analyzeImage]. *)
Definition try_block (w : world) (imageId : Z) : result (list statement) :=
  _ <- readFile w ;;
  response_text <- generateContent w ;;
  (* response.text || '' *)
  let analysisText :=
    match response_text with Some t => t | None => [] end in
  segmentationData <- normalize analysisText ;;
  db_run (run_completed w)
    (UpdateCompleted imageId analysisText (JSON_stringify segmentationData)).

(** [analyzeImage(imageId, imagePath, userId)]: the statements it gets
    carried out, or the exception that escapes it. *)
Definition analyzeImage (w : world) (imageId : Z) : result (list statement) :=
  match try_block w imageId with
  | Ok l => Ok l
  | Throw _ => db_run (run_failed w) (UpdateFailed imageId)
  end.

(** The statements that the worker for [imageId] gets carried out. *)
Definition writes (w : world) (imageId : Z) : list statement :=
  match analyzeImage w imageId with
  | Ok l => l
  | Throw _ => []
  end.

(** The three shapes of what a worker gets carried out: nothing, the
    [UPDATE] of a completed analysis, the [UPDATE] of a failure. *)
Inductive outcome (i : Z) : list statement -> Prop :=
| outcome_none : outcome i []
| outcome_completed (raw : jstring) (v : json) :
    normalize raw = Ok v ->
    outcome i [UpdateCompleted i raw (JSON_stringify v)]
| outcome_failed : outcome i [UpdateFailed i].

End Worker.

(* ================================================================== *)
(** * The routes *)

Inductive response (A : Type) : Type :=
| Json200 (body : A)
| Error404
| Error500.

Arguments Json200 {A} body.
Arguments Error404 {A}.
Arguments Error500 {A}.

Module Routes.

(** The files of the upload directory, by path. *)
Definition files := list jstring.

Definition exists_file (p : jstring) (fs : files) : bool :=
  existsb (Str.eqb p) fs.

(** [fs.unlink(path)]: fails when the file is not there, or when the
    system refuses. *)
Definition unlink (permitted : bool) (p : jstring) (fs : files)
  : result files :=
  if exists_file p fs && permitted
  then Ok (filter (fun f => negb (Str.eqb p f)) fs)
  else Throw IOError.

(** What a request for a deletion meets: whether the [SELECT] and the
    [DELETE] are carried out by the database, and whether the system
    lets the file be removed. *)
Record deletion : Type := mkDeletion {
  select_ok : bool;
  unlink_permitted : bool;
  delete_ok : bool
}.

(** [imageRoutes.delete('/:id')], for an authenticated user. *)
Definition delete (d : deletion) (user i : Z) (db : database)
  (fs : files) : response unit * database * files :=
  if negb (select_ok d) then (Error500, db, fs)
  else
    match Db.get i user db with
    | None => (Error404, db, fs)
    | Some image =>
        (* await fs.unlink(image.original_path).catch(() => {}) *)
        let fs' :=
          match unlink (unlink_permitted d) (original_path image) fs with
          | Ok fs' => fs'
          | Throw _ => fs
          end in
        if delete_ok d
        then (Json200 tt, Db.exec (DeleteImage i) db, fs')
        else (Error500, db, fs')
    end.

(** One element of the listing: the row and its [segmentationData]. *)
Definition processed := (row * option json)%type.

Definition process (img : row) : result processed :=
  match segmentation_data img with
  | Some (c :: t) =>
      match JSON_parse (c :: t) with
      | Some v => Ok (img, Some v)
      | None => Throw SyntaxError
      end
  | _ => Ok (img, None)
  end.

Fixpoint process_all (l : list row) : result (list processed) :=
  match l with
  | [] => Ok []
  | img :: r =>
      p <- process img ;;
      ps <- process_all r ;;
      Ok (p :: ps)
  end.

(** [imageRoutes.get('/')], for an authenticated user; [carried_out]
    tells whether the [SELECT] is.  The [path] that the route adds to
    each element is computed from [original_path] and is left out. *)
Definition list_images (carried_out : bool) (user : Z) (db : database)
  : response (list processed) :=
  if negb carried_out then Error500
  else
    match process_all (Db.all_of user db) with
    | Ok ps => Json200 ps
    | Throw _ => Error500
    end.

End Routes.

(* ================================================================== *)
(** * Values that [JSON.stringify] writes and [JSON.parse] reads back *)

Module Wf.

(** What may follow a value inside a JSON text: the end of the text, a
    comma, or a closing bracket or brace. *)
Definition delimited (rest : list N) : bool :=
  match rest with
  | [] => true
  | c :: _ => ((c =? COMMA) || (c =? RBRACK) || (c =? RBRACE))%N
  end.

Definition not_digit_first (rest : list N) : Prop :=
  match rest with
  | [] => True
  | c :: _ => is_digit c = false
  end.

(** A finite number as the reader of literals produces it: in lowest
    decimal form, below the overflow bound, and zero or above the
    underflow bound. *)
Definition wf_num (n : num) : bool :=
  match n with
  | Dec m k =>
      Num.canonical m k
      && (Z.abs m <? Num.overflow_bound * Num.pow10 k)%Z
      && ((m =? 0)%Z || negb (Num.underflows m k))
  | _ => true
  end.

Fixpoint nodup_keys (ks : list jstring) : bool :=
  match ks with
  | [] => true
  | k :: r => negb (existsb (Str.eqb k) r) && nodup_keys r
  end.

(** A value built as [JSON.parse] builds it: numbers as above, no key
    twice in an object. *)
Fixpoint wf (v : json) : bool :=
  match v with
  | JNum n => wf_num n
  | JArr l => forallb wf l
  | JObj o =>
      nodup_keys (map fst o)
      && forallb (fun kv => wf (snd kv)) o
  | _ => true
  end.

(** A value all of whose numbers are finite. *)
Fixpoint finite (v : json) : bool :=
  match v with
  | JNum (Dec _ _) => true
  | JNum _ => false
  | JArr l => forallb finite l
  | JObj o => forallb (fun kv => finite (snd kv)) o
  | _ => true
  end.

(** The fuel that reading a value back takes. *)
Fixpoint size (v : json) : nat :=
  match v with
  | JArr l => S (fold_right (fun x n => S (size x + n)) O l)
  | JObj o => S (fold_right (fun kv n => S (size (snd kv) + n)) O o)
  | _ => 1
  end.

Definition elements_size (l : list json) : nat :=
  fold_right (fun x n => S (size x + n)) O l.

Definition members_size (o : object) : nat :=
  fold_right (fun kv n => S (size (snd kv) + n)) O o.

(** The text between the brackets of an array, and between the braces
    of an object, as [JSON.stringify] writes them. *)
Fixpoint elements_text (l : list json) : list N :=
  match l with
  | [] => []
  | x :: r =>
      JSON_stringify x ++
      match r with
      | [] => []
      | _ :: _ => COMMA :: elements_text r
      end
  end.

Fixpoint members_text (o : object) : list N :=
  match o with
  | [] => []
  | (k, x) :: r =>
      quote k ++ COLON :: JSON_stringify x ++
      match r with
      | [] => []
      | _ :: _ => COMMA :: members_text r
      end
  end.

(** The text after an element: a comma and the next elements, or the
    closing bracket; the same after a member of an object. *)
Definition after_element (l : list json) (rest : list N) : list N :=
  match l with
  | [] => []
  | _ :: _ => COMMA :: elements_text l
  end ++ RBRACK :: rest.

Definition after_member (o : object) (rest : list N) : list N :=
  match o with
  | [] => []
  | _ :: _ => COMMA :: members_text o
  end ++ RBRACE :: rest.

(** The members [o] set one after the other on [acc], as the reader of
    an object does. *)
Definition set_all (o acc : object) : object :=
  fold_left (fun a kv => Obj.set (fst kv) (snd kv) a) o acc.

End Wf.

(* ================================================================== *)
(** * The server as a transition system *)

(** The table, the upload directory, and the images whose worker has
    been dispatched and has not yet finished. *)
Record server : Type := mkServer {
  db : database;
  uploads : Routes.files;
  workers : list Z
}.

Module Server.

Definition initial : server := mkServer (mkDb [] 0) [] [].

(** The body of the loop of [imageRoutes.post('/upload')] for one file
    that the upload middleware has stored at [path]: the row is
    inserted with status [processing] and [analyzeImage] is dispatched
    without being awaited.  When the [INSERT] is not carried out the
    route answers 500 and the file stays where it is. *)
Definition upload (carried_out : bool) (user : Z) (name path : jstring)
  (now : Z) (s : server) : server :=
  if carried_out then
    let db' := Db.exec (InsertImage user name path now) (db s) in
    mkServer db' (path :: uploads s) (last_id db' :: workers s)
  else mkServer (db s) (path :: uploads s) (workers s).

(** A dispatched worker runs to its end in the world [w]. *)
Definition finish (w : world) (i : Z) (s : server) : server :=
  mkServer (Db.exec_all (Worker.writes w i) (db s)) (uploads s)
           (filter (fun j => negb (j =? i)%Z) (workers s)).

(** A user asks for the deletion of an image. *)
Definition delete (d : Routes.deletion) (user i : Z) (s : server)
  : server :=
  let '(_, db', fs') := Routes.delete d user i (db s) (uploads s) in
  mkServer db' fs' (workers s).

(** The transitions of the server.  Each carries out at most one
    statement; the statements of the requests and of the workers in
    flight interleave in any order. *)
Inductive step : server -> server -> Prop :=
| step_upload (s : server) (carried_out : bool) (user : Z)
    (name path : jstring) (now : Z) :
    step s (upload carried_out user name path now s)
| step_finish (s : server) (w : world) (i : Z) :
    In i (workers s) -> step s (finish w i s)
| step_delete (s : server) (d : Routes.deletion) (user i : Z) :
    step s (delete d user i s).

Inductive steps : server -> server -> Prop :=
| steps_refl (s : server) : steps s s
| steps_cons (s t u : server) : steps s t -> step t u -> steps s u.

Definition reachable (s : server) : Prop := steps initial s.

(** [analysis] of the design is the column [segmentation_data]. *)
Definition has_analysis (r : row) : bool :=
  match segmentation_data r with
  | Some _ => true
  | None => false
  end.

Definition terminal (st : image_status) : bool :=
  match st with
  | completed | failed => true
  | pending | processing => false
  end.

(** The invariant of the table: a row has its analysis exactly when it
    is [completed]; a row whose worker is still running is [processing];
    no row id exceeds the counter. *)
Definition consistent (s : server) : Prop :=
  forall r : row, In r (images (db s)) ->
    (has_analysis r = true <-> status r = completed)
    /\ (In (id r) (workers s) -> status r = processing)
    /\ (id r <= last_id (db s))%Z.

(** Two rows that differ at most in their status. *)
Definition same_but_status (r r' : row) : Prop :=
  id r' = id r
  /\ user_id r' = user_id r
  /\ filename r' = filename r
  /\ original_path r' = original_path r
  /\ analysis_result r' = analysis_result r
  /\ segmentation_data r' = segmentation_data r
  /\ created_at r' = created_at r.

(** The image [i] has been handed out and is no longer in the table. *)
Definition gone (i : Z) (s : server) : Prop :=
  (forall r : row, In r (images (db s)) -> id r <> i)
  /\ (i <= last_id (db s))%Z.

End Server.

(* ================================================================== *)
(** * Reference definitions, in the words of the design *)

Module Reference.

Import Num.

Definition qmax (a b : Q) : Q := if Qle_bool a b then b else a.
Definition qmin (a b : Q) : Q := if Qle_bool a b then a else b.

(** Clamping into [[lo, hi]]; what is not a number counts as [0]. *)
Definition clamp (lo hi : Q) (x : qnum) : Q :=
  match x with
  | QFin q => qmax lo (qmin hi q)
  | QPInf => qmax lo hi
  | QNInf => lo
  | QNaN => qmax lo (qmin hi 0)
  end.

(** The area in the words of the design, each operation in binary64:
    width and height floored at zero, their product over one million. *)
Definition area_formula (ymin xmin ymax xmax : Q) : qnum :=
  let width := Math_max (QFin 0) (F64.sub (QFin xmax) (QFin xmin)) in
  let height := Math_max (QFin 0) (F64.sub (QFin ymax) (QFin ymin)) in
  F64.div (F64.mul width height) (QFin 1000000).

(** The reference definition of the design: zero unless the input is
    exactly four numbers. *)
Definition area_reference (box : option json) : qnum :=
  match box with
  | Some (JArr [JNum a; JNum b; JNum c; JNum d]) =>
      area_formula (clamp 0 1000 (F64.of_num a)) (clamp 0 1000 (F64.of_num b))
                   (clamp 0 1000 (F64.of_num c)) (clamp 0 1000 (F64.of_num d))
  | _ => QFin 0
  end.

(** A value that no conversion to a number or to a string accepts: an
    object with a property [toString] of its own, or an array that holds
    such a value. *)
Fixpoint traps (v : json) : bool :=
  match v with
  | JObj o => existsb (fun kv => Str.eqb TO_STRING (fst kv)) o
  | JArr l => existsb traps l
  | _ => false
  end.


(** What [Number] makes of a value that it accepts. *)
Definition coerced (b : json) : qnum :=
  match Number (Some b) with
  | Ok n => n
  | Throw _ => QNaN
  end.

(** The area with every element of a four-element array coerced by
    [Number]. *)
Definition area_coerced (box : option json) : qnum :=
  match box with
  | Some (JArr [b0; b1; b2; b3]) =>
      area_formula (clamp 0 1000 (coerced b0)) (clamp 0 1000 (coerced b1))
                   (clamp 0 1000 (coerced b2)) (clamp 0 1000 (coerced b3))
  | _ => QFin 0
  end.

(** A box of four elements one of which no conversion accepts. *)
Definition box_traps (box : option json) : bool :=
  match box with
  | Some (JArr [b0; b1; b2; b3]) => existsb traps [b0; b1; b2; b3]
  | _ => false
  end.

(** Rounding to the nearest integer, a half going up. *)
Definition round_half_up (x : Q) : Z := Qfloor (x + (1 # 2)).

(** The label of an item, empty when the item has no textual label. *)
Definition label_text (it : json) : jstring :=
  match it with
  | JObj o =>
      match Obj.lookup LABEL o with
      | Some (JStr s) => s
      | _ => []
      end
  | _ => []
  end.

(** The label of the item contains [word], letter case apart. *)
Definition label_contains (word : jstring) (it : json) : bool :=
  includes (toLowerCase (label_text it)) word.

Definition bounding_box (it : json) : option json :=
  match it with
  | JObj o => Obj.lookup BOX_2D o
  | _ => None
  end.

(** The sum of the areas of the boxes of the items, added one after the
    other in binary64, from the first item on. *)
Definition area_sum (items : list json) : qnum :=
  fold_left (fun sum it => F64.add sum (area_coerced (bounding_box it)))
            items (QFin 0).

(** Aggregate coverage: the areas of the matching items summed, times
    100, clamped into [0,100], rounded. *)
Definition coverage_reference (word : jstring) (items : list json) : Z :=
  round_half_up
    (clamp 0 100
       (F64.mul (area_sum (filter (label_contains word) items)) (QFin 100))).

(** An item on which the label test of the worker does not throw: any
    value but [null], whose label is a string or falsy. *)
Definition label_readable (it : json) : bool :=
  match it with
  | JNull => false
  | JObj o =>
      match Obj.lookup LABEL o with
      | Some (JStr _) => true
      | l => negb (truthy l)
      end
  | _ => true
  end.

(** An item that the worker can count: its label can be read, and its
    box can be converted when its label names a weed or a crop. *)
Definition countable (it : json) : bool :=
  label_readable it
  && negb ((label_contains (lit "weed") it || label_contains (lit "crop") it)
           && box_traps (bounding_box it)).

(** A value that is a number between 0 and 100. *)
Definition percentage (v : option json) : bool :=
  match v with
  | Some (JNum (Dec m k)) =>
      (0 <=? m)%Z && (m <=? 100 * Num.pow10 k)%Z
  | _ => false
  end.


End Reference.

(* ================================================================== *)
(** * Sample runs *)

Module Sample.

(** A world in which everything works and the model answers [t]. *)
Definition answering (t : jstring) : world :=
  mkWorld (Ok tt) (Ok (Some t)) true true.

(** A world in which the file cannot be read. *)
Definition unreadable : world :=
  mkWorld (Throw IOError) (Ok None) true true.

Definition one_upload : server :=
  Server.upload true 7 (lit "field.png") (lit "/uploads/image-1.png") 1000
                Server.initial.

(** A deletion during which the removal of the file is refused. *)
Definition refused : Routes.deletion := Routes.mkDeletion true false true.

Definition analysed : server :=
  Server.finish (answering (text "not json at all")) 1 one_upload.


(** A value that traps: an object whose own property [toString] is the
    number 1. *)
Definition trap : json := JObj [ (TO_STRING, JNum (Dec 1 0)) ].








(** A weed whose box holds a value that traps. *)
Definition trapped_weed_text : jstring :=
  text "{'items':[{'label':'weed','box_2d':[{'toString':1},0,0,0]}]}".

(** The scenario of the design: one item labelled "Weed patch". *)
Definition weed_patch_text : jstring :=
  text "{'items':[{'label':'Weed patch','box_2d':[100,100,300,300]}]}".

Definition weed_patch_item : json :=
  JObj [ (LABEL, JStr (lit "Weed patch"));
         (BOX_2D, JArr [JNum (Dec 100 0); JNum (Dec 100 0);
                        JNum (Dec 300 0); JNum (Dec 300 0)]) ].

Definition weed_patch_payload : object :=
  [ (ITEMS, JArr [weed_patch_item]) ].

Definition weed_patch_result : object :=
  Obj.set TOTAL_AREA (JNum (Dec 100 0))
    (Obj.set HEALTHY_CROP_COVERAGE (JNum (Dec 0 0))
       (Obj.set WEED_COVERAGE (JNum (Dec 4 0)) weed_patch_payload)).

(** A payload that states a weed coverage of 500. *)
Definition oversized_text : jstring :=
  text "{'weedCoverage':500,'items':[]}".

Definition oversized_payload : object :=
  [ (WEED_COVERAGE, JNum (Dec 500 0)); (ITEMS, JArr []) ].


(** A payload whose stated weed coverage overflows to [Infinity]. *)
Definition overflowing_text : jstring :=
  text "{'weedCoverage':1e999,'items':[]}".

Definition overflowing_result : json :=
  JObj [ (WEED_COVERAGE, JNum PInf); (ITEMS, JArr []);
         (HEALTHY_CROP_COVERAGE, JNum (Dec 0 0));
         (TOTAL_AREA, JNum (Dec 100 0)) ].

Definition overflowing_result_again : json :=
  JObj [ (WEED_COVERAGE, JNum (Dec 0 0)); (ITEMS, JArr []);
         (HEALTHY_CROP_COVERAGE, JNum (Dec 0 0));
         (TOTAL_AREA, JNum (Dec 100 0)) ].

(** Two items: a crop over half of the image, a weed over a tenth. *)
Definition two_items_text : jstring :=
  text "{'items':[{'label':'crop','box_2d':[0,0,500,1000]},{'label':'weed','box_2d':[0,0,100,1000]}]}".

(** A response whose span between braces is not JSON. *)
Definition unparsable_text : jstring := text "Result: {oops}".

End Sample.

From Stdlib Require Import Permutation Sorted.

(* ================================================================== *)
(** * The rest of the application

    What follows embeds the code around the worker: the upload route
    and the route of a single image of [backend/routes/images.js], the
    registration, the login and the middleware of
    [backend/routes/auth.js] with the table [users] of the database
    module, the drawing of the boxes in
    [frontend/src/pages/ImageDetail.jsx] and the handler of deletions in
    [frontend/src/pages/Dashboard.jsx].

    Conventions, besides those above.
    - The libraries behind the code ([bcrypt], [jsonwebtoken], the
      database, the file system) are not embedded: each request takes
      what its calls to them return, or throw, as an argument.
    - A route is taken as it runs when no other statement is carried
      out between two of its own. *)

(* ================================================================== *)
(** * Texts around a span *)

Module Span.

(** A string without the code unit [c]. *)
Definition without (c : N) (s : jstring) : bool :=
  forallb (fun x => negb (x =? c)%N) s.

End Span.

(* ================================================================== *)
(** * The other routes of [backend/routes/images.js] *)

Module Detail.

(** [imageRoutes.get('/:id')], for an authenticated user; [carried_out]
    tells whether the [SELECT] is, and [i] is the number that the query
    compares with the column [id].  As in the listing, the [path] that
    the route adds is computed from [original_path] and is left out. *)
Definition get_image (carried_out : bool) (user i : Z) (db : database)
  : response Routes.processed :=
  if negb carried_out then Error500
  else
    match Db.get i user db with
    | None => Error404
    | Some image =>
        match Routes.process image with
        | Ok p => Json200 p
        | Throw _ => Error500
        end
    end.

End Detail.

Module Upload.

(** A file as the upload middleware hands it to the route, once it has
    stored it at [path] under the name [filename]. *)
Record file : Type := mkFile {
  originalname : jstring;
  filename : jstring;
  path : jstring
}.

(** What the [INSERT] of one file meets: whether the database carries
    it out, and the time it records in [created_at]. *)
Record insertion : Type := mkInsertion {
  carried_out : bool;
  now : Z
}.

(** One element of [uploadedImages]. *)
Module Entry.
Record t : Type := mk {
  id : Z;
  filename : jstring;
  originalName : jstring;
  path : jstring
}.
End Entry.

(** The answers of the route: 200 with the uploaded images, 400, 500. *)
Inductive reply : Type :=
| Images (uploadedImages : list Entry.t)
| NoFiles
| Failed.

(** The loop [for (const file of req.files)]: the row is inserted with
    status [processing], the element of the response is pushed, and
    [analyzeImage] is dispatched without being awaited.  An [INSERT]
    that throws ends the loop. *)
Fixpoint insert_each (user : Z) (files : list (file * insertion))
  (s : server) : result (list Entry.t) * server :=
  match files with
  | [] => (Ok [], s)
  | (f, ins) :: rest =>
      if carried_out ins then
        let db' :=
          Db.exec (InsertImage user (originalname f) (path f) (now ins))
                  (db s) in
        let entry :=
          Entry.mk (last_id db') (filename f) (originalname f)
                   (lit "/uploads/" ++ filename f) in
        let '(r, s') :=
          insert_each user rest
            (mkServer db' (uploads s) (last_id db' :: workers s)) in
        (l <- r ;; Ok (entry :: l), s')
      else (Throw IOError, s)
  end.

(** [imageRoutes.post('/upload')], for an authenticated user, on the
    files that the middleware has accepted and stored.  The route is
    taken as it runs when no other request and no worker gets a
    statement carried out between two of its [INSERT]s. *)
Definition upload_images (user : Z) (files : list (file * insertion))
  (s : server) : reply * server :=
  let stored :=
    mkServer (db s)
             (rev (map (fun fi => path (fst fi)) files) ++ uploads s)
             (workers s) in
  match files with
  | [] => (NoFiles, stored)
  | _ :: _ =>
      match insert_each user files stored with
      | (Ok l, s') => (Images l, s')
      | (Throw _, s') => (Failed, s')
      end
  end.

(** The same files as uploads of the transition system, one by one. *)
Fixpoint upload_each (user : Z) (files : list (file * bool * Z))
  (s : server) : server :=
  match files with
  | [] => s
  | (f, done, time) :: rest =>
      upload_each user rest
        (Server.upload done user (originalname f) (path f) time s)
  end.

(** Whether each file of the request gets its row: every file does up
    to the first [INSERT] that throws, none after it. *)
Fixpoint reached (files : list (file * insertion)) (running : bool)
  : list (file * bool * Z) :=
  match files with
  | [] => []
  | (f, ins) :: rest =>
      (f, running && carried_out ins, now ins)
        :: reached rest (running && carried_out ins)
  end.

End Upload.

(* ================================================================== *)
(** * What the client reads back from a stored analysis *)

Module Readback.

(** The value denoted by the text that [JSON.stringify] writes for [v]:
    [v] with [null] in the place of every number that is not finite. *)
Fixpoint read_back (v : json) : json :=
  match v with
  | JNum (Dec m k) => JNum (Dec m k)
  | JNum _ => JNull
  | JArr l => JArr (map read_back l)
  | JObj o => JObj (map (fun kv => (fst kv, read_back (snd kv))) o)
  | _ => v
  end.

(** The row carries the analysis of the raw output it stores. *)
Definition analysed_from_raw (r : row) : Prop :=
  match segmentation_data r with
  | None => True
  | Some seg =>
      exists (raw : jstring) (o : object),
        analysis_result r = Some raw
        /\ normalize raw = Ok (JObj o)
        /\ seg = JSON_stringify (JObj o)
  end.

End Readback.

(* ================================================================== *)
(** * Further invariants of the server *)

Module Lifecycle.

(** Row ids are pairwise distinct, and row ids and the ids of the
    workers in flight lie between 1 and the counter of the table. *)
Definition numbered (s : server) : Prop :=
  NoDup (map id (images (db s)))
  /\ Forall (fun r : row => (1 <= id r <= last_id (db s))%Z)
            (images (db s))
  /\ Forall (fun j : Z => (1 <= j <= last_id (db s))%Z) (workers s)
  /\ (0 <= last_id (db s))%Z.

(** Every stored analysis is the normalisation of the raw output stored
    beside it, and no row is [pending]. *)
Definition documented (s : server) : Prop :=
  Forall (fun r : row =>
            Readback.analysed_from_raw r /\ status r <> pending)
         (images (db s)).

(** The order of the listing: [a] is listed before [b] when it was
    created after it, or at the same time. *)
Definition newer_first (a b : row) : Prop :=
  (created_at b <= created_at a)%Z.

End Lifecycle.

(* ================================================================== *)
(** * [backend/routes/auth.js] *)

Module Auth.

(** The result of a call that may throw an error with a message. *)
Inductive outcome (A : Type) : Type :=
| Done (a : A)
| Raised (message : jstring).

Arguments Done {A} a.
Arguments Raised {A} message.

(** A row of the table [users]; [password] holds the hash. *)
Record user : Type := mkUser {
  id : Z;
  username : jstring;
  email : jstring;
  password : jstring;
  created_at : Z
}.

Record users_table : Type := mkUsers {
  users : list user;
  last_user : Z
}.

Definition no_users : users_table := mkUsers [] 0.

(** The messages of SQLite for the two [UNIQUE] columns. *)
Definition unique_username : jstring :=
  lit "SQLITE_CONSTRAINT: UNIQUE constraint failed: users.username".
Definition unique_email : jstring :=
  lit "SQLITE_CONSTRAINT: UNIQUE constraint failed: users.email".

(** [INSERT INTO users (username, email, password) VALUES (?, ?, ?)]
    under the constraints of the table. *)
Definition insert_user (u e p : jstring) (now : Z) (t : users_table)
  : outcome users_table :=
  if existsb (fun r => Str.eqb (username r) u) (users t)
  then Raised unique_username
  else if existsb (fun r => Str.eqb (email r) e) (users t)
  then Raised unique_email
  else
    let i := (last_user t + 1)%Z in
    Done (mkUsers (users t ++ [mkUser i u e p now]) i).

(** [SELECT * FROM users WHERE email = ?]. *)
Definition by_email (e : jstring) (t : users_table) : option user :=
  find (fun r => Str.eqb (email r) e) (users t).

(** The fields of [req.body] that the routes read, for a body that is
    an object whose fields are strings; a field may be absent. *)
Record body : Type := mkBody {
  body_username : option jstring;
  body_email : option jstring;
  body_password : option jstring
}.

(** [!field]: the field is absent or the empty string. *)
Definition blank (field : option jstring) : bool :=
  match field with
  | Some (_ :: _) => false
  | _ => true
  end.

Definition value_of (field : option jstring) : jstring :=
  match field with
  | Some s => s
  | None => []
  end.

(** What a registration meets: the result of [bcrypt.hash(password, 10)],
    a failure of [db.run] that is not raised by the constraints of the
    table, and the time recorded in [created_at]. *)
Record registration : Type := mkRegistration {
  hashed : outcome jstring;
  run_error : option jstring;
  registered_at : Z
}.

(** The answers of [/register]: 201, the two 400, and 500 with the
    message of the error. *)
Inductive register_reply : Type :=
| Registered
| AllFieldsRequired
| AlreadyExists
| RegisterFailed (message : jstring).

(** The [catch] block of [/register]. *)
Definition register_catch (message : jstring) : register_reply :=
  if includes message (lit "UNIQUE") then AlreadyExists
  else RegisterFailed message.

(** [authRoutes.post('/register')]. *)
Definition register (w : registration) (b : body) (t : users_table)
  : register_reply * users_table :=
  if blank (body_username b) || blank (body_email b)
     || blank (body_password b)
  then (AllFieldsRequired, t)
  else
    match hashed w with
    | Raised m => (register_catch m, t)
    | Done hashedPassword =>
        match run_error w with
        | Some m => (register_catch m, t)
        | None =>
            match insert_user (value_of (body_username b))
                    (value_of (body_email b)) hashedPassword
                    (registered_at w) t with
            | Done t' => (Registered, t')
            | Raised m => (register_catch m, t)
            end
        end
    end.

(** The payload of a token, and the [user] of the answer of [/login]. *)
Record claims : Type := mkClaims {
  claim_id : Z;
  claim_email : jstring;
  claim_username : jstring
}.

(** The answers of [/login]: 200 with the token and the user, 400, 401
    and 500 with the message of the error. *)
Inductive login_reply : Type :=
| LoggedIn (token : jstring) (user : claims)
| CredentialsRequired
| InvalidCredentials
| LoginFailed (message : jstring).

(** What a login meets: [bcrypt.compare], [jwt.sign] with the secret of
    the server at the time of the request, and a failure of [db.get]. *)
Record authentication : Type := mkAuthentication {
  compare : jstring -> jstring -> outcome bool;
  sign : claims -> outcome jstring;
  get_error : option jstring
}.

(** [authRoutes.post('/login')]. *)
Definition login (w : authentication) (b : body) (t : users_table)
  : login_reply :=
  if blank (body_email b) || blank (body_password b)
  then CredentialsRequired
  else
    match get_error w with
    | Some m => LoginFailed m
    | None =>
        match by_email (value_of (body_email b)) t with
        | None => InvalidCredentials
        | Some u =>
            match compare w (value_of (body_password b)) (password u) with
            | Raised m => LoginFailed m
            | Done false => InvalidCredentials
            | Done true =>
                let payload := mkClaims (id u) (email u) (username u) in
                match sign w payload with
                | Raised m => LoginFailed m
                | Done token => LoggedIn token payload
                end
            end
        end
    end.

(** [s.split(sep)] for a separator of one code unit. *)
Fixpoint split (sep : N) (s : jstring) : list jstring :=
  match s with
  | [] => [[]]
  | c :: r =>
      if (c =? sep)%N then [] :: split sep r
      else
        match split sep r with
        | piece :: pieces => (c :: piece) :: pieces
        | [] => [[c]]
        end
  end.

Definition SPACE : N := 32.

(** What the middleware does with a request: it calls [next] with
    [req.user] set, or answers 401 with one of two messages. *)
Inductive verdict (A : Type) : Type :=
| Next (user : A)
| NoTokenProvided
| InvalidToken.

Arguments Next {A} user.
Arguments NoTokenProvided {A}.
Arguments InvalidToken {A}.

(** [verifyToken]; [verify] is [jwt.verify] with the secret of the
    server at the time of the request, [None] when it throws. *)
Definition verifyToken {A : Type} (verify : jstring -> option A)
  (authorization : option jstring) : verdict A :=
  let token :=
    match authorization with
    | Some header => nth_error (split SPACE header) 1
    | None => None
    end in
  if blank token then NoTokenProvided
  else
    match verify (value_of token) with
    | Some decoded => Next decoded
    | None => InvalidToken
    end.

(** The tables that further requests for registration lead to. *)
Inductive registrations : users_table -> users_table -> Prop :=
| registrations_none (t : users_table) : registrations t t
| registrations_more (t t' : users_table) (w : registration) (b : body) :
    registrations t t' -> registrations t (snd (register w b t')).

(** The tables that the server can reach. *)
Definition registered (t : users_table) : Prop := registrations no_users t.

(** The constraints of the table: no user name, no email and no id
    twice; the ids lie between 1 and the counter. *)
Definition unique (t : users_table) : Prop :=
  NoDup (map username (users t))
  /\ NoDup (map email (users t))
  /\ NoDup (map id (users t))
  /\ Forall (fun u => (1 <= id u <= last_user t)%Z) (users t)
  /\ (0 <= last_user t)%Z.

End Auth.

(* ================================================================== *)
(** * Calls that never settle *)

(** [analyzeImage] awaits the reading of the file, the call of the
    model and the statement it runs, and sets no limit of time on any of
    them: a call that never settles leaves the worker where it is. *)
Module Pending.

(** An awaited call settles, by returning or by throwing, or never
    does. *)
Inductive awaited (A : Type) : Type :=
| Settles (r : result A)
| Never.

Arguments Settles {A} r.
Arguments Never {A}.

Record calls : Type := mkCalls {
  reading : awaited unit;
  generating : awaited (option jstring);
  completing : awaited unit;
  failing : awaited unit
}.

(** [await a] followed by [k]; nothing follows a call that never
    settles. *)
Definition await {A B : Type} (a : awaited A) (k : result A -> option B)
  : option B :=
  match a with
  | Settles r => k r
  | Never => None
  end.

(** The handler of [analyzeImage]: [await db.run] of the [UPDATE] to
    [failed]. *)
Definition handler (c : calls) (imageId : Z)
  : option (result (list statement)) :=
  await (failing c) (fun r =>
    Some (match r with
          | Ok _ => Ok [UpdateFailed imageId]
          | Throw e => Throw e
          end)).

(** [analyzeImage]: the statements it gets carried out or the exception
    that escapes it, when it ends; [None] when it never does. *)
Definition analyzeImage (c : calls) (imageId : Z)
  : option (result (list statement)) :=
  await (reading c) (fun file =>
    match file with
    | Throw _ => handler c imageId
    | Ok _ =>
        await (generating c) (fun response =>
          match response with
          | Throw _ => handler c imageId
          | Ok response_text =>
              let analysisText :=
                match response_text with Some t => t | None => [] end in
              match normalize analysisText with
              | Throw _ => handler c imageId
              | Ok segmentationData =>
                  await (completing c) (fun run =>
                    match run with
                    | Throw _ => handler c imageId
                    | Ok _ =>
                        Some (Ok [UpdateCompleted imageId analysisText
                                    (JSON_stringify segmentationData)])
                    end)
              end
          end)
    end).

(** The calls of a world, in which every call settles. *)
Definition run (carried_out : bool) : awaited unit :=
  Settles (if carried_out then Ok tt else Throw IOError).

Definition settling (w : world) : calls :=
  mkCalls (Settles (readFile w)) (Settles (generateContent w))
          (run (run_completed w)) (run (run_failed w)).

End Pending.

(* ================================================================== *)
(** * [frontend/src/pages/ImageDetail.jsx]: the boxes drawn *)

(** The coordinates of the rectangles are computed on exact rationals:
    the conversions to a number are those of the worker, the products,
    quotients and differences are not rounded. *)
Module Canvas.

Record rect : Type := mkRect {
  x : qnum;
  y : qnum;
  width : qnum;
  height : qnum
}.

(** The colours of the boxes: ['#EF4444'], ['#10B981'], ['#F59E0B'] and
    ['#3B82F6']. *)
Inductive color : Type :=
| Red
| Green
| Amber
| Blue.

(** [(b / 1000) * size]: the division converts its operand to a
    number, which throws on a value that traps. *)
Definition scaled (b : json) (size : qnum) : result qnum :=
  n <- Number (Some b) ;;
  Ok (Num.mul (Num.div n q1000) size).

(** The colour by label: weed, then crop, then soil.  The test is the
    one of the worker, [(item.label || '').toLowerCase().includes(word)];
    as for the two words of the worker, no code unit outside ASCII is
    lower-cased to a letter that makes ["soil"] occur. *)
Definition color_of (item : json) : result color :=
  weed <- label_includes (lit "weed") item ;;
  if weed then Ok Red
  else
    crop <- label_includes (lit "crop") item ;;
    if crop then Ok Green
    else
      soil <- label_includes (lit "soil") item ;;
      Ok (if soil then Amber else Blue).

(** The body of [segData.items.forEach] in [drawSegmentation] up to
    [ctx.strokeRect], on an image [img_width] by [img_height]: the
    rectangle stroked and its colour, or [None] for an item that is
    skipped. *)
Definition draw_item (img_width img_height : qnum) (item : json)
  : result (option (rect * color)) :=
  box <- member (Some item) BOX_2D ;;
  match box with
  | Some (JArr [b0; b1; b2; b3]) =>
      ymin <- scaled b0 img_height ;;
      xmin <- scaled b1 img_width ;;
      ymax <- scaled b2 img_height ;;
      xmax <- scaled b3 img_width ;;
      let x := Num.Math_max q0 (Num.Math_min xmin img_width) in
      let y := Num.Math_max q0 (Num.Math_min ymin img_height) in
      let width :=
        Num.Math_max q0
          (Num.Math_min (Num.sub xmax xmin) (Num.sub img_width x)) in
      let height :=
        Num.Math_max q0
          (Num.Math_min (Num.sub ymax ymin) (Num.sub img_height y)) in
      c <- color_of item ;;
      Ok (Some (mkRect x y width height, c))
  | _ => Ok None
  end.

Definition CONFIDENCE := lit "confidence".

(** The two values written into the label drawn over the box,
    [`${item.label || 'item'} (${Math.round(item.confidence || 0)}%)`]:
    the name of the item and its rounded confidence.  The template
    converts the name to a string and [Math.round] converts the
    confidence to a number; either conversion throws on a value that
    traps. *)
Definition caption (item : json) : result (jstring * num) :=
  label <- member (Some item) LABEL ;;
  name <- match label with
          | Some l => if truthy label then ToString l else Ok (lit "item")
          | None => Ok (lit "item")
          end ;;
  confidence <- member (Some item) CONFIDENCE ;;
  c <- (if truthy confidence then Number confidence else Ok q0) ;;
  Ok (name, Num.Math_round c).

(** The whole body of [segData.items.forEach]: the rectangle, its
    colour and the label drawn over it, or [None] for an item that is
    skipped. *)
Definition paint_item (img_width img_height : qnum) (item : json)
  : result (option (rect * color * (jstring * num))) :=
  stroke <- draw_item img_width img_height item ;;
  match stroke with
  | Some s =>
      label <- caption item ;;
      Ok (Some (s, label))
  | None => Ok None
  end.

Fixpoint draw_each (img_width img_height : qnum) (items : list json)
  : result (list (rect * color * (jstring * num))) :=
  match items with
  | [] => Ok []
  | item :: rest =>
      d <- paint_item img_width img_height item ;;
      ds <- draw_each img_width img_height rest ;;
      Ok (match d with
          | Some painted => painted :: ds
          | None => ds
          end)
  end.

(** The part of [drawSegmentation] for the items: everything drawn, in
    order, or the exception that ends the drawing. *)
Definition draw_items (img_width img_height : qnum) (segData : json)
  : result (list (rect * color * (jstring * num))) :=
  if truthy (Some segData) then
    items <- member (Some segData) ITEMS ;;
    match items with
    | Some (JArr its) => draw_each img_width img_height its
    | _ => Ok []
    end
  else Ok [].

(** An item that the page can draw, its label being readable: it has
    no box of four elements, or none of the four elements traps and
    neither does its confidence. *)
Definition drawable (item : json) : bool :=
  match Reference.bounding_box item with
  | Some (JArr [b0; b1; b2; b3]) =>
      negb (existsb Reference.traps [b0; b1; b2; b3])
      && negb match item with
              | JObj o =>
                  match Obj.lookup CONFIDENCE o with
                  | Some c => Reference.traps c
                  | None => false
                  end
              | _ => false
              end
  | _ => true
  end.



End Canvas.

(* ================================================================== *)
(** * [frontend/src/pages/Dashboard.jsx] *)

Module Dashboard.

(** [images.filter(img => img.id !== id)], the list shown after a
    deletion that the server has confirmed. *)
Definition handleDelete (i : Z) (images : list Routes.processed)
  : list Routes.processed :=
  filter (fun img => negb (id (fst img) =? i)%Z) images.

End Dashboard.

(* ================================================================== *)
(** * Further sample runs *)

Module Scenes.

(** The row of [Sample.analysed]: the response was not JSON, the
    placeholder result is stored. *)
Definition analysed_row : row :=
  mkRow 1 7 (lit "field.png") (lit "/uploads/image-1.png")
        (Some (text "not json at all"))
        (Some (text "{'items':[],'weedCoverage':0,'healthyCropCoverage':100,'recommendations':['Unable to analyze image details'],'totalArea':100}"))
        completed 1000.

(** After the analysis the same user uploads a second image. *)
Definition second_upload : server :=
  Server.upload true 7 (lit "north.jpg") (lit "/uploads/image-2.jpg") 2000
                Sample.analysed.

(** Two files of one request, both inserted. *)
Definition two_files : list (Upload.file * Upload.insertion) :=
  [ (Upload.mkFile (lit "east.png") (lit "image-3.png")
                   (lit "/uploads/image-3.png"),
     Upload.mkInsertion true 3000);
    (Upload.mkFile (lit "west.webp") (lit "image-4.webp")
                   (lit "/uploads/image-4.webp"),
     Upload.mkInsertion true 3001) ].

(** A registration, and a login in a world whose [bcrypt.compare]
    accepts the password for the hash and whose [jwt.sign] returns a
    token. *)
Definition ada : Auth.body :=
  Auth.mkBody (Some (lit "ada")) (Some (lit "ada@example.org"))
              (Some (lit "secret")).

Definition hashing : Auth.registration :=
  Auth.mkRegistration (Auth.Done (lit "$2a$10$hash")) None 100.

Definition accepting : Auth.authentication :=
  Auth.mkAuthentication
    (fun password hash =>
       Auth.Done (Str.eqb password (lit "secret")
                  && Str.eqb hash (lit "$2a$10$hash")))
    (fun payload => Auth.Done (lit "header.payload.signature"))
    None.

(** What the listing returns to that user then. *)
Definition listing : list Routes.processed :=
  match Routes.list_images true 7 (db second_upload) with
  | Json200 ps => ps
  | _ => []
  end.

End Scenes.
(* ================================================================== *)
(** * Properties of the number operations *)

Module NumFacts.

Import Num.

Lemma Qle_bool_false (x y : Q) : Qle_bool x y = false -> (y < x)%Q.
Proof.
  intros H. apply Qnot_le_lt. intros L.
  apply Qle_bool_iff in L. congruence.
Qed.

(** Case analysis on every comparison of the goal, each case with the
    order it stands for among the hypotheses. *)
Ltac case_Qle_bool :=
  repeat match goal with
  | |- context [Qle_bool ?u ?v] =>
      let E := fresh "E" in
      destruct (Qle_bool u v) eqn:E;
      [apply Qle_bool_iff in E | apply Qle_bool_false in E]
  end.

End NumFacts.

(* ================================================================== *)
(** * Rounding to binary64 *)

Module F64Facts.

Import Num NumFacts F64.

Lemma pow2_pos (e : Z) : (0 < pow2 e)%Q.
Proof. apply Qpower_0_lt. reflexivity. Qed.

Lemma pow2_plus (a b : Z) : (pow2 (a + b) == pow2 a * pow2 b)%Q.
Proof. apply Qpower_plus. discriminate. Qed.

Lemma pow2_inject (n : Z) : (0 <= n)%Z -> (inject_Z (2 ^ n) == pow2 n)%Q.
Proof. intros H. unfold pow2. rewrite (Zpower_Qpower 2 n H). reflexivity. Qed.

Lemma pow2_lt_inv (a b : Z) : (pow2 a < pow2 b)%Q -> (a < b)%Z.
Proof. intros H. apply (Qpower_lt_compat_l_inv 2); [exact H|reflexivity]. Qed.

(** The binary logarithm from below. *)
Lemma ilog2_lower (q : Q) : (0 < q)%Q -> (pow2 (ilog2 q) <= q)%Q.
Proof.
  intros P. unfold ilog2.
  destruct (Qle_bool (pow2 (Z.log2 (Qnum q) - Z.log2 (Z.pos (Qden q)))) q)
    eqn:E.
  - apply Qle_bool_iff. exact E.
  - clear E. destruct q as [n d]. cbn [Qnum Qden].
    assert (Pn : (0 < n)%Z).
    { unfold Qlt in P. cbn [Qnum Qden] in P.
      rewrite Z.mul_0_l, Z.mul_1_r in P. exact P. }
    destruct (Z.log2_spec n Pn) as [Ln _].
    destruct (Z.log2_spec (Z.pos d) (Pos2Z.is_pos d)) as [_ Ud].
    pose proof (Z.log2_nonneg n) as Na.
    pose proof (Z.log2_nonneg (Z.pos d)) as Nb.
    set (a := Z.log2 n) in *. set (b := Z.log2 (Z.pos d)) in *.
    replace (a - b - 1)%Z with (a + - (b + 1))%Z by lia.
    rewrite pow2_plus. unfold pow2 at 2. rewrite Qpower_opp.
    fold (pow2 (b + 1)).
    rewrite <- (pow2_inject Na), <- (pow2_inject (n := b + 1)) by lia.
    rewrite (Qmake_Qdiv n d).
    assert (Pd : (0 < inject_Z (Z.pos d))%Q) by reflexivity.
    assert (Pb : (0 < inject_Z (2 ^ (b + 1)))%Q).
    { rewrite pow2_inject by lia. apply pow2_pos. }
    apply Qle_shift_div_l; [exact Pd|].
    unfold Qdiv. rewrite Qmult_comm, Qmult_assoc.
    apply Qle_shift_div_r; [exact Pb|].
    rewrite <- !inject_Z_mult. rewrite <- Zle_Qle.
    replace (Z.succ b) with (b + 1)%Z in Ud by lia.
    rewrite (Z.mul_comm (Z.pos d)).
    assert (0 <= 2 ^ a)%Z by (apply Z.pow_nonneg; lia).
    apply Z.mul_le_mono_nonneg; lia.
Qed.

(** The nearest integer is on the same side of any integer. *)
Lemma nearest_even_le (x : Q) (K : Z) :
  (x <= inject_Z K)%Q -> (nearest_even x <= K)%Z.
Proof.
  intros H. unfold nearest_even.
  pose proof (Qfloor_le x) as F.
  assert (FK : (Qfloor x <= K)%Z).
  { rewrite Zle_Qle. lra. }
  destruct (Z.eq_dec (Qfloor x) K) as [E|NE].
  - assert (X : (x - inject_Z (Qfloor x) == 0)%Q) by (rewrite E in *; lra).
    destruct (Qcompare_spec (x - inject_Z (Qfloor x)) (1 # 2)) as [C|C|C];
      try lra. lia.
  - destruct (x - inject_Z (Qfloor x) ?= 1 # 2)%Q;
      try destruct (Z.even (Qfloor x)); lia.
Qed.

Lemma nearest_even_ge (x : Q) (K : Z) :
  (inject_Z K <= x)%Q -> (K <= nearest_even x)%Z.
Proof.
  intros H. unfold nearest_even.
  assert (FK : (K <= Qfloor x)%Z).
  { rewrite <- (Qfloor_Z K). apply Qfloor_resp_le. exact H. }
  destruct (x - inject_Z (Qfloor x) ?= 1 # 2)%Q;
    try destruct (Z.even (Qfloor x)); lia.
Qed.

(** Below the overflow bound the result is finite: the multiple of the
    unit in the last place nearest to the argument. *)
Lemma round_finite (q : Q) :
  (Qabs q < inject_Z overflow_bound)%Q ->
  exists r : Q,
    round q = QFin r
    /\ (r == inject_Z (nearest_even (q / ulp q)) * ulp q)%Q.
Proof.
  intros H. unfold round.
  destruct (Qle_bool (inject_Z overflow_bound) (Qabs q)) eqn:E.
  - apply Qle_bool_iff in E. lra.
  - eexists. split; [reflexivity|]. apply Qred_correct.
Qed.

Lemma ulp_pos (q : Q) : (0 < ulp q)%Q.
Proof. apply pow2_pos. Qed.

Lemma grid_pos (B : Q) : grid B -> (0 < B)%Q.
Proof.
  intros (N & t & E & HN & _). rewrite E.
  apply Qmult_lt_0_compat; [|apply pow2_pos].
  change 0%Q with (inject_Z 0). rewrite <- Zlt_Qlt. lia.
Qed.

Lemma grid_below_overflow (B : Q) :
  grid B -> (B < inject_Z overflow_bound)%Q.
Proof.
  intros (N & t & E & HN & Ht). rewrite E.
  apply Qle_lt_trans with (inject_Z (2 ^ 53 - 1) * pow2 970)%Q.
  - apply Qle_trans with (inject_Z N * pow2 970)%Q.
    + apply Qmult_le_l.
      * change 0%Q with (inject_Z 0). rewrite <- Zlt_Qlt. lia.
      * apply Qpower_le_compat_l; [lia|discriminate].
    + apply Qmult_le_r; [apply pow2_pos|]. rewrite <- Zle_Qle. lia.
  - rewrite <- (pow2_inject (n := 970)) by lia.
    rewrite <- inject_Z_mult. rewrite <- Zlt_Qlt.
    unfold overflow_bound. 
    replace (2 ^ 1024)%Z with (2 ^ 54 * 2 ^ 970)%Z
      by (rewrite <- Z.pow_add_r by lia; reflexivity).
    assert (0 < 2 ^ 970)%Z by (apply Z.pow_pos_nonneg; lia).
    nia.
Qed.

(** Rounding does not cross zero, nor a bound that is a binary64. *)
Lemma round_below (q B : Q) :
  grid B -> (- B <= q)%Q -> (q <= B)%Q ->
  exists r : Q,
    round q = QFin r
    /\ (r <= B)%Q /\ ((0 <= q)%Q -> (0 <= r)%Q) /\ ((q <= 0)%Q -> (r <= 0)%Q).
Proof.
  intros G L U.
  pose proof (grid_below_overflow G) as O.
  pose proof (grid_pos G) as PB.
  assert (A : (Qabs q < inject_Z overflow_bound)%Q).
  { apply Qle_lt_trans with B; [|exact O]. apply Qabs_Qle_condition.
    split; assumption. }
  destruct (round_finite q A) as (r & R & E).
  exists r. split; [exact R|].
  pose proof (ulp_pos q) as Pu.
  assert (Pos : (0 <= q)%Q -> (0 <= r)%Q).
  { intros P. rewrite E. apply Qmult_le_0_compat; [|lra].
    change 0%Q with (inject_Z 0). rewrite <- Zle_Qle.
    apply nearest_even_ge. change (inject_Z 0) with 0%Q.
    apply Qle_shift_div_l; [exact Pu|]. lra. }
  assert (Neg : (q <= 0)%Q -> (r <= 0)%Q).
  { intros P. rewrite E.
    assert (M : (inject_Z (nearest_even (q / ulp q)) <= 0)%Q).
    { change 0%Q with (inject_Z 0). rewrite <- Zle_Qle.
      apply nearest_even_le. change (inject_Z 0) with 0%Q.
      apply Qle_shift_div_r; [exact Pu|]. lra. }
    setoid_replace 0%Q with (0 * ulp q)%Q by ring.
    apply Qmult_le_r; [exact Pu|exact M]. }
  split; [|split; assumption].
  destruct (Qlt_le_dec 0 q) as [P|P]; [|specialize (Neg P); lra].
  destruct G as (N & t & EB & HN & Ht).
  set (u := (Z.max (ilog2 (Qabs q)) (-1022) - 52)%Z).
  assert (Eu : ulp q = pow2 u) by reflexivity.
  assert (Hu : (u <= t)%Z).
  { assert (I : (ilog2 (Qabs q) < t + 53)%Z).
    { apply pow2_lt_inv.
      assert (Aq : (0 < Qabs q)%Q).
      { rewrite Qabs_pos by lra. exact P. }
      apply Qle_lt_trans with (Qabs q); [apply ilog2_lower; exact Aq|].
      rewrite Qabs_pos by lra.
      apply Qle_lt_trans with B; [exact U|]. rewrite EB.
      rewrite Z.add_comm, pow2_plus.
      apply Qmult_lt_r; [apply pow2_pos|].
      rewrite <- (pow2_inject (n := 53)) by lia.
      rewrite <- Zlt_Qlt. lia. }
    unfold u. lia. }
  rewrite E, Eu.
  assert (D : (pow2 t == pow2 (t - u) * pow2 u)%Q).
  { rewrite <- pow2_plus. replace (t - u + u)%Z with t by lia. reflexivity. }
  rewrite EB, D, Qmult_assoc.
  apply Qmult_le_r; [apply pow2_pos|].
  rewrite <- (pow2_inject (n := t - u)) by lia.
  rewrite <- inject_Z_mult, <- Zle_Qle.
  apply nearest_even_le. rewrite inject_Z_mult.
  rewrite (pow2_inject (n := t - u)) by lia.
  apply Qle_shift_div_r; [apply pow2_pos|].
  rewrite <- Qmult_assoc, <- D, <- EB. exact U.
Qed.

(** The binary logarithm from above. *)
Lemma ilog2_upper (q : Q) : (0 < q)%Q -> (q < pow2 (ilog2 q + 1))%Q.
Proof.
  intros P. unfold ilog2.
  destruct (Qle_bool (pow2 (Z.log2 (Qnum q) - Z.log2 (Z.pos (Qden q)))) q)
    eqn:E.
  - clear E. destruct q as [n d]. cbn [Qnum Qden].
    assert (Pn : (0 < n)%Z).
    { unfold Qlt in P. cbn [Qnum Qden] in P.
      rewrite Z.mul_0_l, Z.mul_1_r in P. exact P. }
    destruct (Z.log2_spec n Pn) as [_ Un].
    destruct (Z.log2_spec (Z.pos d) (Pos2Z.is_pos d)) as [Ld _].
    pose proof (Z.log2_nonneg n) as Na.
    pose proof (Z.log2_nonneg (Z.pos d)) as Nb.
    set (a := Z.log2 n) in *. set (b := Z.log2 (Z.pos d)) in *.
    replace (a - b + 1)%Z with ((a + 1) + - b)%Z by lia.
    rewrite pow2_plus. unfold pow2 at 2. rewrite Qpower_opp.
    fold (pow2 b).
    rewrite <- (pow2_inject Nb), <- (pow2_inject (n := a + 1)) by lia.
    rewrite (Qmake_Qdiv n d).
    assert (Pd : (0 < inject_Z (Z.pos d))%Q) by reflexivity.
    assert (Pb : (0 < inject_Z (2 ^ b))%Q).
    { rewrite pow2_inject by lia. apply pow2_pos. }
    apply Qlt_shift_div_r; [exact Pd|].
    unfold Qdiv. rewrite Qmult_comm, Qmult_assoc.
    apply Qlt_shift_div_l; [exact Pb|].
    rewrite <- !inject_Z_mult. rewrite <- Zlt_Qlt.
    replace (Z.succ a) with (a + 1)%Z in Un by lia.
    assert (Pp : (0 < 2 ^ b)%Z) by (apply Z.pow_pos_nonneg; lia).
    apply Z.lt_le_trans with (2 ^ (a + 1) * 2 ^ b)%Z.
    + apply Z.mul_lt_mono_pos_r; [exact Pp|exact Un].
    + rewrite (Z.mul_comm (Z.pos d)).
      apply Z.mul_le_mono_nonneg_l; [lia|exact Ld].
  - apply Qle_bool_false in E.
    replace (Z.log2 (Qnum q) - Z.log2 (Z.pos (Qden q)) - 1 + 1)%Z
      with (Z.log2 (Qnum q) - Z.log2 (Z.pos (Qden q)))%Z by lia.
    exact E.
Qed.

Lemma pow2_le_lt_inv (a b : Z) (q : Q) :
  (pow2 a <= q)%Q -> (q < pow2 b)%Q -> (a < b)%Z.
Proof.
  intros L U. apply pow2_lt_inv. apply Qle_lt_trans with q; assumption.
Qed.

(** The logarithm depends on the value alone. *)
Lemma ilog2_comp (q q' : Q) :
  (0 < q)%Q -> (q == q')%Q -> ilog2 q = ilog2 q'.
Proof.
  intros P E. assert (P' : (0 < q')%Q) by (rewrite <- E; exact P).
  pose proof (ilog2_lower P) as L. pose proof (ilog2_upper P) as U.
  pose proof (ilog2_lower P') as L'. pose proof (ilog2_upper P') as U'.
  assert (Le : (q <= q')%Q) by (rewrite E; apply Qle_refl).
  assert (Ge : (q' <= q)%Q) by (rewrite E; apply Qle_refl).
  pose proof (@pow2_le_lt_inv _ _ _ (Qle_trans _ _ _ L Le) U') as A.
  pose proof (@pow2_le_lt_inv _ _ _ (Qle_trans _ _ _ L' Ge) U) as B.
  lia.
Qed.

Lemma nearest_even_comp (x y : Q) :
  (x == y)%Q -> nearest_even x = nearest_even y.
Proof.
  intros E. unfold nearest_even. rewrite (Qfloor_comp _ _ E).
  assert (C : (x - inject_Z (Qfloor y) ?= 1 # 2)%Q
              = (y - inject_Z (Qfloor y) ?= 1 # 2)%Q).
  { apply Qcompare_comp; [rewrite E|]; reflexivity. }
  rewrite C. reflexivity.
Qed.

Lemma Qle_bool_comp (a b c d : Q) :
  (a == c)%Q -> (b == d)%Q -> Qle_bool a b = Qle_bool c d.
Proof.
  intros E F. destruct (Qle_bool a b) eqn:G; symmetry.
  - apply Qle_bool_iff. apply Qle_bool_iff in G. rewrite <- E, <- F. exact G.
  - destruct (Qle_bool c d) eqn:H; [|reflexivity].
    apply Qle_bool_iff in H. rewrite <- E, <- F in H.
    apply Qle_bool_iff in H. congruence.
Qed.

Lemma round_zero (q : Q) : (q == 0)%Q -> round q = QFin 0.
Proof.
  intros E. unfold round.
  assert (A : Qle_bool (inject_Z overflow_bound) (Qabs q) = false).
  { rewrite (Qle_bool_comp (a := inject_Z overflow_bound)
               (c := inject_Z overflow_bound) (b := Qabs q) (d := 0%Q));
      [reflexivity|reflexivity|rewrite E; reflexivity]. }
  rewrite A. f_equal.
  transitivity (Qred 0); [|reflexivity].
  apply Qred_complete.
  rewrite (nearest_even_comp (x := q / ulp q) (y := 0%Q)).
  - change (nearest_even 0) with 0%Z. ring.
  - unfold Qdiv. transitivity (0 * / ulp q)%Q; [|ring].
    apply Qmult_comp; [exact E|reflexivity].
Qed.

(** The result of a rounding depends on the value alone. *)
Lemma round_comp (q q' : Q) : (q == q')%Q -> round q = round q'.
Proof.
  intros E.
  destruct (Qeq_dec q 0) as [Z|NZ].
  - rewrite (round_zero Z). symmetry. apply round_zero.
    rewrite <- E. exact Z.
  - assert (A : (0 < Qabs q)%Q).
    { destruct (Qlt_le_dec q 0) as [H|H].
      - rewrite Qabs_neg by lra. lra.
      - rewrite Qabs_pos by lra.
        destruct (Qle_lt_or_eq _ _ H) as [H'|H']; [exact H'|].
        exfalso. apply NZ. symmetry. exact H'. }
    assert (EA : (Qabs q == Qabs q')%Q) by (rewrite E; reflexivity).
    assert (U : ulp q = ulp q').
    { unfold ulp. rewrite (ilog2_comp A EA). reflexivity. }
    unfold round.
    rewrite (Qle_bool_comp (a := inject_Z overflow_bound)
               (c := inject_Z overflow_bound) (b := Qabs q) (d := Qabs q'))
      by (reflexivity || exact EA).
    rewrite (Qle_bool_comp (a := 0%Q) (c := 0%Q) (b := q) (d := q'))
      by (reflexivity || exact E).
    destruct (Qle_bool (inject_Z overflow_bound) (Qabs q'));
      [reflexivity|].
    f_equal. apply Qred_complete. rewrite U.
    rewrite (nearest_even_comp (x := q / ulp q') (y := q' / ulp q')).
    + reflexivity.
    + unfold Qdiv. apply Qmult_comp; [exact E|reflexivity].
Qed.

(** Rounding never gives [NaN], and keeps the sign. *)
Lemma round_nonneg (q : Q) :
  (0 <= q)%Q ->
  round q = QPInf \/ exists r : Q, round q = QFin r /\ (0 <= r)%Q.
Proof.
  intros P. unfold round.
  destruct (Qle_bool (inject_Z overflow_bound) (Qabs q)).
  - left. apply Qle_bool_iff in P. rewrite P. reflexivity.
  - right. eexists. split; [reflexivity|]. rewrite Qred_correct.
    pose proof (ulp_pos q) as Pu.
    apply Qmult_le_0_compat; [|lra].
    change 0%Q with (inject_Z 0). rewrite <- Zle_Qle.
    apply nearest_even_ge. change (inject_Z 0) with 0%Q.
    apply Qle_shift_div_l; [exact Pu|]. lra.
Qed.

End F64Facts.

(* ================================================================== *)
(** * Induction on JSON values *)

Module JsonFacts.

(** Induction on JSON values, through arrays and objects. *)
Lemma json_induction (P : json -> Prop) :
  P JNull ->
  (forall b, P (JBool b)) ->
  (forall n, P (JNum n)) ->
  (forall s, P (JStr s)) ->
  (forall l, Forall P l -> P (JArr l)) ->
  (forall o, Forall (fun kv => P (snd kv)) o -> P (JObj o)) ->
  forall v, P v.
Proof.
  intros Hnull Hbool Hnum Hstr Harr Hobj.
  fix IH 1. intros [|b|n|s|l|o].
  - exact Hnull.
  - apply Hbool.
  - apply Hnum.
  - apply Hstr.
  - apply Harr. induction l as [|x l IHl];
      [constructor|constructor; [apply IH|exact IHl]].
  - apply Hobj. induction o as [|[k x] o IHo];
      [constructor|constructor; [apply IH|exact IHo]].
Qed.

End JsonFacts.

(* ================================================================== *)
(** * The values that no conversion accepts *)

Module CoercionFacts.

Import Reference JsonFacts.

(** An object has a property of its own exactly when a lookup finds
    it. *)
Lemma lookup_own (k : jstring) (o : object) :
  existsb (fun kv => Str.eqb k (fst kv)) o
  = match Obj.lookup k o with Some _ => true | None => false end.
Proof.
  induction o as [|[k' v] o IH]; simpl; [reflexivity|].
  destruct (Str.eqb k k'); [reflexivity|exact IH].
Qed.

(** [ToString] throws, a [TypeError], exactly on the values that
    trap. *)
Lemma ToString_traps (v : json) :
  match ToString v with
  | Ok _ => traps v = false
  | Throw e => e = TypeError /\ traps v = true
  end.
Proof.
  induction v as [|b|n|s|l IH|o _] using json_induction;
    try reflexivity.
  - destruct b; reflexivity.
  - change (traps (JArr l)) with (existsb traps l).
    cbn [ToString].
    induction IH as [|x r Hx _ IHr]; [reflexivity|].
    assert (Fx : match (match x with JNull => Ok [] | _ => ToString x end)
                 with
                 | Ok _ => traps x = false
                 | Throw e => e = TypeError /\ traps x = true
                 end).
    { destruct x; exact Hx. }
    cbn [existsb].
    destruct (match x with JNull => Ok [] | _ => ToString x end)
      as [first|e]; cbn [bind].
    + rewrite Fx. cbn [orb]. destruct r as [|y r']; [reflexivity|].
      match type of IHr with
      | match ?j with _ => _ end =>
          destruct j as [rest|e']; cbn [bind]; exact IHr
      end.
    + destruct Fx as [-> ->]. split; reflexivity.
  - cbn [ToString traps]. rewrite lookup_own.
    destruct (Obj.lookup TO_STRING o); [split|]; reflexivity.
Qed.

(** So does [Number]. *)
Lemma Number_traps (b : json) :
  match Number (Some b) with
  | Ok _ => traps b = false
  | Throw e => e = TypeError /\ traps b = true
  end.
Proof.
  destruct b as [|c|n|s|l|o]; try reflexivity.
  - destruct c; reflexivity.
  - pose proof (ToString_traps (JArr l)) as T. unfold Number.
    destruct (ToString (JArr l)); exact T.
  - pose proof (ToString_traps (JObj o)) as T. unfold Number.
    destruct (ToString (JObj o)); exact T.
Qed.


Lemma coerced_ok (b : json) :
  traps b = false -> Number (Some b) = Ok (coerced b).
Proof.
  intros H. unfold coerced. pose proof (Number_traps b) as T.
  destruct (Number (Some b)) as [n|e]; [reflexivity|].
  destruct T as [_ T]. congruence.
Qed.

End CoercionFacts.

(* ================================================================== *)
(** * The area of a bounding box *)

Module Area.

Import Num NumFacts F64 F64Facts Reference CoercionFacts.

Lemma qmax_spec (a b : Q) : (a <= qmax a b /\ b <= qmax a b)%Q
                            /\ (qmax a b = a \/ qmax a b = b).
Proof.
  unfold qmax. destruct (Qle_bool a b) eqn:E.
  - apply Qle_bool_iff in E. split; [split; lra | now right].
  - apply Qle_bool_false in E. split; [split; lra | now left].
Qed.

Lemma qmin_spec (a b : Q) : (qmin a b <= a /\ qmin a b <= b)%Q
                            /\ (qmin a b = a \/ qmin a b = b).
Proof.
  unfold qmin. destruct (Qle_bool a b) eqn:E.
  - apply Qle_bool_iff in E. split; [split; lra | now left].
  - apply Qle_bool_false in E. split; [split; lra | now right].
Qed.

Lemma clamp_bounds (x : qnum) : (0 <= clamp 0 1000 x <= 1000)%Q.
Proof.
  assert (B : (0 <= 1000)%Q) by lra.
  destruct x as [q| | |]; simpl;
    repeat match goal with
    | |- context [qmax ?a ?b] =>
        let H := fresh in
        destruct (qmax_spec a b) as [[? ?] [H|H]]; rewrite H in *
    | |- context [qmin ?a ?b] =>
        let H := fresh in
        destruct (qmin_spec a b) as [[? ?] [H|H]]; rewrite H in *
    end; lra.
Qed.

(** The coordinate computed by the code is the clamped coercion; it is
    not computed when the element traps. *)
Lemma coordinate_clamp (b : json) :
  match coordinate b with
  | Ok c => traps b = false
            /\ exists q, c = QFin q /\ (q == clamp 0 1000 (coerced b))%Q
  | Throw e => e = TypeError /\ traps b = true
  end.
Proof.
  unfold coordinate, coerced. pose proof (Number_traps b) as T.
  destruct (Number (Some b)) as [n|e]; cbn [bind]; [|exact T].
  split; [exact T|]. unfold q0, q1000.
  destruct n as [q| | |]; simpl;
    try (eexists; split; [reflexivity|reflexivity]).
  unfold is_zero. destruct (Qeq_bool q 0) eqn:E; simpl.
  - apply Qeq_bool_iff in E. eexists; split; [reflexivity|].
    unfold qmin, qmax.
    assert (F : Qle_bool 1000 q = false).
    { destruct (Qle_bool 1000 q) eqn:G; [|reflexivity].
      apply Qle_bool_iff in G. lra. }
    rewrite F.
    assert (G : Qle_bool 0 q = true) by (apply Qle_bool_iff; lra).
    rewrite G. simpl. lra.
  - eexists; split; [reflexivity|]. unfold qmin, qmax.
    destruct (Qle_bool 1000 q); reflexivity.
Qed.

Lemma sub_fin (a b : Q) : F64.sub (QFin a) (QFin b) = round (a + - b).
Proof. reflexivity. Qed.

Lemma grid_1000 : grid 1000.
Proof. exists 125%Z, 3%Z. split; [reflexivity|]. split; lia. Qed.

Lemma grid_million : grid 1000000.
Proof. exists 15625%Z, 6%Z. split; [reflexivity|]. split; lia. Qed.

Lemma grid_1 : grid 1.
Proof. exists 1%Z, 0%Z. split; [reflexivity|]. split; lia. Qed.

(** A side of the box: the difference of two coordinates, floored at
    zero. *)
Lemma side_range (lo hi : Q) :
  (0 <= lo <= 1000)%Q -> (0 <= hi <= 1000)%Q ->
  exists s : Q,
    Math_max (QFin 0) (F64.sub (QFin hi) (QFin lo)) = QFin s
    /\ (0 <= s <= 1000)%Q
    /\ ((hi <= lo)%Q -> (s == 0)%Q).
Proof.
  intros Hlo Hhi. rewrite sub_fin.
  destruct (@round_below (hi + - lo) 1000 grid_1000) as (r & -> & U & _ & N);
    [lra|lra|].
  cbn [Math_max]. eexists. split; [reflexivity|].
  destruct (Qle_bool 0 r) eqn:E;
    [apply Qle_bool_iff in E|apply Qle_bool_false in E].
  - split; [lra|]. intros D. assert (r <= 0)%Q by (apply N; lra). lra.
  - split; [lra|]. intros _. reflexivity.
Qed.

Lemma side_comp (lo hi lo' hi' : Q) :
  (lo == lo')%Q -> (hi == hi')%Q ->
  F64.sub (QFin hi) (QFin lo) = F64.sub (QFin hi') (QFin lo').
Proof.
  intros El Eh. rewrite !sub_fin. apply round_comp.
  rewrite El, Eh. reflexivity.
Qed.

Lemma area_formula_comp (a b c d a' b' c' d' : Q) :
  (a == a')%Q -> (b == b')%Q -> (c == c')%Q -> (d == d')%Q ->
  area_formula a b c d = area_formula a' b' c' d'.
Proof.
  intros Ha Hb Hc Hd. unfold area_formula.
  rewrite (side_comp Hb Hd), (side_comp Ha Hc). reflexivity.
Qed.

Lemma million : F64.mul q1000 q1000 = QFin 1000000.
Proof. vm_compute. reflexivity. Qed.

(** The formula on coordinates within [0,1000] gives a fraction of the
    image. *)
Lemma area_formula_range (a b c d : Q) :
  (0 <= a <= 1000)%Q -> (0 <= b <= 1000)%Q ->
  (0 <= c <= 1000)%Q -> (0 <= d <= 1000)%Q ->
  exists q : Q,
    area_formula a b c d = QFin q
    /\ (0 <= q <= 1)%Q
    /\ ((c <= a)%Q \/ (d <= b)%Q -> q = 0%Q).
Proof.
  intros Ha Hb Hc Hd. unfold area_formula.
  destruct (side_range Hb Hd) as (w & -> & Hw & Zw).
  destruct (side_range Ha Hc) as (h & -> & Hh & Zh).
  cbn [F64.mul].
  assert (P : (0 <= w * h)%Q) by (apply Qmult_le_0_compat; lra).
  assert (U : (w * h <= 1000000)%Q) by nra.
  destruct (@round_below (w * h) 1000000 grid_million)
    as (p & Rp & Up & Pp & _); [lra|lra|].
  specialize (Pp P).
  assert (NZ : is_zero 1000000 = false) by reflexivity.
  assert (D : forall x : Q, F64.div (QFin x) (QFin 1000000)
                            = round (x / 1000000)).
  { intros x. unfold F64.div. rewrite NZ. reflexivity. }
  assert (Deg : (c <= a)%Q \/ (d <= b)%Q ->
                F64.div (round (w * h)) (QFin 1000000) = QFin 0).
  { intros G.
    assert (Z : (w * h == 0)%Q).
    { destruct G as [G|G]; [rewrite (Zh G)|rewrite (Zw G)]; ring. }
    rewrite (round_zero Z), D. apply round_zero. reflexivity. }
  rewrite Rp, D in *.
  assert (L : (0 <= p / 1000000)%Q) by (apply Qle_shift_div_l; lra).
  assert (H : (p / 1000000 <= 1)%Q) by (apply Qle_shift_div_r; lra).
  destruct (@round_below (p / 1000000) 1 grid_1) as (q & Rq & Uq & Pq & _);
    [lra|lra|].
  exists q. split; [exact Rq|]. split; [split; [apply Pq; exact L|exact Uq]|].
  intros G. specialize (Deg G). rewrite Rq in Deg. congruence.
Qed.


(** What [areaOf] does: it throws on a box of four elements one of
    which traps, and returns otherwise the area formula on the clamped
    coercions of the four elements, zero on what is no such box. *)
Lemma areaOf_coerced (box : option json) :
  areaOf box
  = if box_traps box then Throw TypeError else Ok (area_coerced box).
Proof.
  destruct box as [[| | | |l|]|]; try reflexivity.
  destruct l as [|b0 [|b1 [|b2 [|b3 [|b4 l]]]]]; try reflexivity.
  unfold areaOf, area_coerced, box_traps. cbn [existsb].
  pose proof (coordinate_clamp b0) as C0.
  destruct (coordinate b0) as [c0|e0]; cbn [bind];
    [destruct C0 as (-> & y0 & -> & E0)
    |destruct C0 as [-> ->]; reflexivity].
  pose proof (coordinate_clamp b1) as C1.
  destruct (coordinate b1) as [c1|e1]; cbn [bind];
    [destruct C1 as (-> & x0 & -> & E1)
    |destruct C1 as [-> ->]; reflexivity].
  pose proof (coordinate_clamp b2) as C2.
  destruct (coordinate b2) as [c2|e2]; cbn [bind];
    [destruct C2 as (-> & y1 & -> & E2)
    |destruct C2 as [-> ->]; reflexivity].
  pose proof (coordinate_clamp b3) as C3.
  destruct (coordinate b3) as [c3|e3]; cbn [bind];
    [destruct C3 as (-> & x1 & -> & E3)
    |destruct C3 as [-> ->]; reflexivity].
  cbn [orb]. rewrite million.
  rewrite <- (area_formula_comp E0 E1 E2 E3). reflexivity.
Qed.

(** The coerced area is a fraction of the image. *)
Lemma area_coerced_range (box : option json) :
  exists q : Q, area_coerced box = QFin q /\ (0 <= q <= 1)%Q.
Proof.
  assert (Z : exists q : Q, QFin 0 = QFin q /\ (0 <= q <= 1)%Q)
    by (exists 0%Q; split; [reflexivity|lra]).
  destruct box as [[| | | |l|]|]; try exact Z.
  destruct l as [|b0 [|b1 [|b2 [|b3 [|b4 l]]]]]; try exact Z.
  unfold area_coerced.
  destruct (@area_formula_range
              (clamp 0 1000 (coerced b0)) (clamp 0 1000 (coerced b1))
              (clamp 0 1000 (coerced b2)) (clamp 0 1000 (coerced b3)))
    as (q & E & R & _); try apply clamp_bounds.
  exists q. split; assumption.
Qed.

(** On four numbers the coerced area is the reference area. *)
Lemma area_coerced_numeric (a b c d : num) :
  area_coerced (Some (JArr [JNum a; JNum b; JNum c; JNum d]))
  = area_reference (Some (JArr [JNum a; JNum b; JNum c; JNum d])).
Proof. reflexivity. Qed.

End Area.

(* ================================================================== *)
(** * The table *)

Module DbFacts.

Import Db.

Lemma get_some (i user : Z) (d : database) (r : row) :
  get i user d = Some r ->
  In r (images d) /\ id r = i /\ user_id r = user.
Proof.
  unfold get. intros H. apply find_some in H as [Hin Hb].
  apply andb_true_iff in Hb as [Hi Hu].
  apply Z.eqb_eq in Hi. apply Z.eqb_eq in Hu. auto.
Qed.

Lemma in_insert_desc (r x : row) (l : list row) :
  In x (insert_desc r l) <-> x = r \/ In x l.
Proof.
  induction l as [|y l IH]; simpl.
  - intuition congruence.
  - destruct (created_at y <=? created_at r)%Z; simpl.
    + intuition congruence.
    + rewrite IH. intuition congruence.
Qed.

Lemma in_all_of (user : Z) (d : database) (r : row) :
  In r (all_of user d) <-> In r (images d) /\ user_id r = user.
Proof.
  unfold all_of.
  induction (images d) as [|y l IH]; simpl.
  - tauto.
  - destruct (user_id y =? user)%Z eqn:E; simpl.
    + rewrite in_insert_desc, IH. apply Z.eqb_eq in E.
      split.
      * intros [->|[H1 H2]]; auto.
      * intros [[->|H1] H2]; auto.
    + rewrite IH. apply Z.eqb_neq in E.
      split.
      * intros [H1 H2]; auto.
      * intros [[->|H1] H2]; [contradiction|auto].
Qed.

(** [UPDATE ... SET status = 'failed'] touches the status only. *)
Lemma set_failed_frame (i : Z) (r : row) :
  id (set_failed i r) = id r
  /\ user_id (set_failed i r) = user_id r
  /\ filename (set_failed i r) = filename r
  /\ original_path (set_failed i r) = original_path r
  /\ analysis_result (set_failed i r) = analysis_result r
  /\ segmentation_data (set_failed i r) = segmentation_data r
  /\ created_at (set_failed i r) = created_at r
  /\ status (set_failed i r) = if (id r =? i)%Z then failed else status r.
Proof.
  unfold set_failed. destruct (id r =? i)%Z; simpl; repeat split.
Qed.

Lemma set_completed_fields (i : Z) (raw seg : jstring) (r : row) :
  id (set_completed i raw seg r) = id r
  /\ user_id (set_completed i raw seg r) = user_id r
  /\ (id r = i ->
      analysis_result (set_completed i raw seg r) = Some raw
      /\ segmentation_data (set_completed i raw seg r) = Some seg
      /\ status (set_completed i raw seg r) = completed)
  /\ (id r <> i -> set_completed i raw seg r = r).
Proof.
  unfold set_completed. destruct (id r =? i)%Z eqn:E; simpl.
  - apply Z.eqb_eq in E. repeat split; congruence.
  - apply Z.eqb_neq in E. repeat split; congruence.
Qed.

End DbFacts.

(* ================================================================== *)
(** * The worker *)

Module WorkerFacts.

Import Worker.

Lemma writes_outcome (w : world) (i : Z) : outcome i (writes w i).
Proof.
  unfold writes, analyzeImage, try_block, db_run.
  destruct (readFile w) as [[]|e]; simpl.
  2:{ destruct (run_failed w); constructor. }
  destruct (generateContent w) as [t|e]; simpl.
  2:{ destruct (run_failed w); constructor. }
  set (raw := match t with Some t0 => t0 | None => [] end).
  destruct (normalize raw) as [v|e] eqn:N; simpl.
  2:{ destruct (run_failed w); constructor. }
  destruct (run_completed w).
  - econstructor. exact N.
  - destruct (run_failed w); constructor.
Qed.

Lemma writes_at_most_one (w : world) (i : Z) : (length (writes w i) <= 1)%nat.
Proof. destruct (writes_outcome w i); simpl; lia. Qed.

End WorkerFacts.

(* ================================================================== *)
(** * Invariants of the server *)

Module ServerFacts.

Import Server WorkerFacts DbFacts.

Lemma consistent_initial : consistent initial.
Proof. intros r []. Qed.

Lemma consistent_exec_worker (s : server) (w : world) (i : Z) :
  In i (workers s) -> consistent s -> consistent (finish w i s).
Proof.
  intros Hi C. unfold finish.
  destruct (writes_outcome w i) as [|raw v _|]; intros r' Hr'; simpl in *.
  - destruct (C r' Hr') as (A & B & L). repeat split; try apply A; auto.
    intros Hin. apply filter_In in Hin as [Hin _]. auto.
  - apply in_map_iff in Hr' as (r & <- & Hr).
    destruct (C r Hr) as (A & B & L).
    destruct (set_completed_fields i raw (JSON_stringify v) r)
      as (Eid & _ & Hit & Hother).
    destruct (Z.eq_dec (id r) i) as [E|NE].
    + destruct (Hit E) as (_ & Hseg & Hst).
      unfold has_analysis. rewrite Hseg, Hst, Eid.
      repeat split; auto.
      intros Hin. apply filter_In in Hin as [_ Hne].
      apply negb_true_iff, Z.eqb_neq in Hne. contradiction.
    + rewrite (Hother NE). repeat split; try apply A; auto.
      intros Hin. apply filter_In in Hin as [Hin _]. auto.
  - apply in_map_iff in Hr' as (r & <- & Hr).
    destruct (C r Hr) as (A & B & L).
    destruct (set_failed_frame i r)
      as (Eid & _ & _ & _ & _ & Eseg & _ & Est).
    unfold has_analysis. rewrite Eseg, Est, Eid.
    destruct (id r =? i)%Z eqn:E.
    + apply Z.eqb_eq in E. subst i.
      specialize (B Hi).
      assert (N : has_analysis r = false).
      { destruct (has_analysis r) eqn:H; [|reflexivity].
        assert (S : status r = completed) by (apply A; reflexivity).
        congruence. }
      unfold has_analysis in N. rewrite N.
      repeat split; try discriminate; auto.
      intros Hin. apply filter_In in Hin as [_ Hne].
      apply negb_true_iff, Z.eqb_neq in Hne. contradiction.
    + repeat split; try apply A; auto.
      intros Hin. apply filter_In in Hin as [Hin _]. auto.
Qed.

Lemma consistent_upload (s : server) (carried_out : bool) (user : Z)
  (name path : jstring) (now : Z) :
  consistent s -> consistent (upload carried_out user name path now s).
Proof.
  intros C. unfold upload. destruct carried_out; [|exact C].
  intros r Hr. simpl in *.
  apply in_app_or in Hr as [Hr|[<-|[]]].
  - destruct (C r Hr) as (A & B & L). repeat split; try apply A; try lia.
    intros [E|Hin]; [lia|auto].
  - simpl. unfold has_analysis. simpl.
    repeat split; try discriminate; lia.
Qed.

Lemma consistent_delete (s : server) (d : Routes.deletion) (user i : Z) :
  consistent s -> consistent (delete d user i s).
Proof.
  intros C. unfold delete, Routes.delete.
  destruct (Routes.select_ok d); [|exact C]. cbn [negb].
  destruct (Db.get i user (db s)) as [image|]; [|exact C].
  destruct (Routes.delete_ok d); [|exact C].
  intros r Hr. simpl in *. apply filter_In in Hr as [Hr _].
  exact (C r Hr).
Qed.

Lemma consistent_step (s t : server) :
  step s t -> consistent s -> consistent t.
Proof.
  intros [s0 carried_out user name path now|s0 w i Hi|s0 d user i].
  - apply consistent_upload.
  - apply consistent_exec_worker. exact Hi.
  - apply consistent_delete.
Qed.

Lemma consistent_steps (s t : server) :
  steps s t -> consistent s -> consistent t.
Proof.
  induction 1 as [|s t u _ IH Hstep]; intros C; [exact C|].
  eapply consistent_step; eauto.
Qed.

Lemma consistent_reachable (s : server) : reachable s -> consistent s.
Proof. intros R. exact (consistent_steps R consistent_initial). Qed.

(** The worker never moves the counter and never adds a row id. *)
Lemma gone_finish (j : Z) (s : server) (w : world) (i : Z) :
  gone j s -> gone j (finish w i s).
Proof.
  intros [G L]. unfold finish, gone.
  destruct (writes_outcome w i) as [|raw v _|]; simpl; split; auto.
  - intros r' Hr'. apply in_map_iff in Hr' as (r & <- & Hr).
    destruct (set_completed_fields i raw (JSON_stringify v) r) as (-> & _).
    auto.
  - intros r' Hr'. apply in_map_iff in Hr' as (r & <- & Hr).
    destruct (set_failed_frame i r) as (-> & _). auto.
Qed.

Lemma gone_upload (j : Z) (s : server) (carried_out : bool) (user : Z)
  (name path : jstring) (now : Z) :
  gone j s -> gone j (upload carried_out user name path now s).
Proof.
  intros [G L]. unfold upload, gone.
  destruct carried_out; [|split; assumption].
  simpl. split; [|lia].
  intros r Hr. apply in_app_or in Hr as [Hr|[<-|[]]]; [auto|].
  simpl. lia.
Qed.

Lemma gone_delete (j : Z) (s : server) (d : Routes.deletion) (user i : Z) :
  gone j s -> gone j (delete d user i s).
Proof.
  intros [G L]. unfold delete, Routes.delete.
  destruct (Routes.select_ok d); [|split; assumption]. cbn [negb].
  destruct (Db.get i user (db s)) as [image|]; [|split; assumption].
  destruct (Routes.delete_ok d); [|split; assumption].
  unfold gone. simpl. split; [|assumption].
  intros r Hr. apply filter_In in Hr as [Hr _]. auto.
Qed.

Lemma gone_steps (j : Z) (s t : server) :
  steps s t -> gone j s -> gone j t.
Proof.
  induction 1 as [|s t u _ IH Hstep]; intros G; [exact G|].
  specialize (IH G).
  destruct Hstep
    as [s0 carried_out user name path now|s0 w i Hi|s0 d user i].
  - apply gone_upload; assumption.
  - apply gone_finish; assumption.
  - apply gone_delete; assumption.
Qed.

(** No row of a given id: no user finds it. *)
Lemma get_gone (i user : Z) (s : server) :
  gone i s -> Db.get i user (db s) = None.
Proof.
  intros [G _]. unfold Db.get.
  destruct (find _ (images (db s))) as [r|] eqn:F; [|reflexivity].
  apply find_some in F as [Hin Hb].
  apply andb_true_iff in Hb as [Hi _]. apply Z.eqb_eq in Hi.
  exfalso. exact (G r Hin Hi).
Qed.

(** The listing returns exactly the rows of the user, when it returns. *)
Lemma process_all_rows (l : list row) (ps : list Routes.processed) :
  Routes.process_all l = Ok ps -> map fst ps = l.
Proof.
  revert ps. induction l as [|img l IH]; simpl; intros ps H.
  - injection H as <-. reflexivity.
  - unfold Routes.process in H.
    destruct (segmentation_data img) as [[|c t]|]; simpl in H.
    + destruct (Routes.process_all l) as [qs|]; [|discriminate].
      injection H as <-. simpl. f_equal. auto.
    + destruct (JSON_parse (c :: t)); [|discriminate]. simpl in H.
      destruct (Routes.process_all l) as [qs|]; [|discriminate].
      injection H as <-. simpl. f_equal. auto.
    + destruct (Routes.process_all l) as [qs|]; [|discriminate].
      injection H as <-. simpl. f_equal. auto.
Qed.

Lemma list_images_rows (carried_out : bool) (user : Z) (d : database)
  (ps : list Routes.processed) (p : Routes.processed) :
  Routes.list_images carried_out user d = Json200 ps -> In p ps ->
  In (fst p) (images d) /\ user_id (fst p) = user.
Proof.
  unfold Routes.list_images. intros H Hp.
  destruct carried_out; [|discriminate]. cbn [negb] in H.
  destruct (Routes.process_all (Db.all_of user d)) as [qs|] eqn:E;
    [|discriminate].
  injection H as ->. apply process_all_rows in E.
  apply in_all_of. rewrite <- E. apply in_map. exact Hp.
Qed.

End ServerFacts.

(* ================================================================== *)
(** * Strings and objects *)

Module ObjFacts.

Lemma eqb_refl (a : jstring) : Str.eqb a a = true.
Proof.
  induction a as [|x a IH]; simpl; [reflexivity|].
  rewrite N.eqb_refl. exact IH.
Qed.

Lemma eqb_eq (a b : jstring) : Str.eqb a b = true <-> a = b.
Proof.
  split; [|intros ->; apply eqb_refl].
  revert b. induction a as [|x a IH]; intros [|y b]; simpl;
    try discriminate; [reflexivity|].
  intros H. apply andb_true_iff in H as [H1 H2].
  apply N.eqb_eq in H1. apply IH in H2. congruence.
Qed.

Lemma eqb_sym (a b : jstring) : Str.eqb a b = Str.eqb b a.
Proof.
  destruct (Str.eqb a b) eqn:E.
  - apply eqb_eq in E. subst. symmetry. apply eqb_refl.
  - destruct (Str.eqb b a) eqn:F; [|reflexivity].
    apply eqb_eq in F. subst. rewrite eqb_refl in E. discriminate.
Qed.

Lemma lookup_set_same (k : jstring) (v : json) (o : object) :
  Obj.lookup k (Obj.set k v o) = Some v.
Proof.
  induction o as [|[k' v'] o IH]; simpl.
  - rewrite eqb_refl. reflexivity.
  - destruct (Str.eqb k k') eqn:E; simpl; rewrite E; auto.
Qed.

Lemma lookup_set_other (k k' : jstring) (v : json) (o : object) :
  Str.eqb k' k = false ->
  Obj.lookup k' (Obj.set k v o) = Obj.lookup k' o.
Proof.
  intros NE. induction o as [|[k0 v0] o IH]; simpl.
  - rewrite NE. reflexivity.
  - destruct (Str.eqb k k0) eqn:E; simpl.
    + apply eqb_eq in E. subst k0. rewrite NE. reflexivity.
    + rewrite IH. reflexivity.
Qed.

Lemma keys_set (k : jstring) (v : json) (o : object) :
  Obj.keys (Obj.set k v o)
  = if existsb (Str.eqb k) (Obj.keys o) then Obj.keys o
    else Obj.keys o ++ [k].
Proof.
  induction o as [|[k' v'] o IH]; simpl; [reflexivity|].
  destruct (Str.eqb k k') eqn:E; simpl; [reflexivity|].
  rewrite IH. destruct (existsb (Str.eqb k) (Obj.keys o)); reflexivity.
Qed.

End ObjFacts.

(* ================================================================== *)
(** * Searching a string *)

Module StrFacts.

Import Str.




End StrFacts.

(* ================================================================== *)
(** * The coverage computed from the boxes *)

Module CoverageFacts.

Import Num NumFacts F64 F64Facts Reference Area ObjFacts CoercionFacts.

(** The label test throws, a [TypeError], on the items that are not
    readable, and tells on the others whether the label contains the
    word. *)
Lemma label_includes_readable (word : jstring) (it : json) :
  label_includes word it
  = if label_readable it then Ok (label_contains word it)
    else Throw TypeError.
Proof.
  unfold label_includes, label_readable, label_contains, label_text, member.
  destruct it as [|b0|n0|s0|l0|o]; try reflexivity.
  cbn [bind].
  destruct (Obj.lookup LABEL o) as [[|c|n|s|l|p]|]; try reflexivity.
  - destruct c; reflexivity.
  - destruct (truthy (Some (JNum n))); reflexivity.
  - destruct s; reflexivity.
Qed.

Lemma readable_not_null (it : json) : label_readable it = true -> it <> JNull.
Proof. intros H ->. discriminate. Qed.

(** What the label test returns when it does not throw. *)
Lemma label_includes_ok (word : jstring) (it : json) (b : bool) :
  label_includes word it = Ok b ->
  b = label_contains word it /\ it <> JNull.
Proof.
  rewrite label_includes_readable.
  destruct (label_readable it) eqn:R; [|discriminate].
  intros H. injection H as <-. split; [reflexivity|].
  apply readable_not_null. exact R.
Qed.

Lemma label_includes_total (word : jstring) (it : json) :
  label_readable it = true -> exists b, label_includes word it = Ok b.
Proof.
  intros R. rewrite label_includes_readable, R. eexists. reflexivity.
Qed.

(** The filter throws as soon as an item is not readable, and keeps
    otherwise the items whose label contains the word. *)
Lemma filter_items_readable (word : jstring) (items : list json) :
  filter_items (label_includes word) items
  = if forallb label_readable items
    then Ok (filter (label_contains word) items)
    else Throw TypeError.
Proof.
  induction items as [|it r IH]; [reflexivity|].
  cbn [filter_items forallb filter].
  rewrite label_includes_readable, IH.
  destruct (label_readable it); [|reflexivity]. cbn [bind andb].
  destruct (forallb label_readable r); reflexivity.
Qed.

Lemma readable_items (items : list json) :
  forallb label_readable items = true ->
  Forall (fun it => it <> JNull) items.
Proof.
  intros H. apply Forall_forall. intros it Hin.
  apply readable_not_null.
  rewrite forallb_forall in H. exact (H it Hin).
Qed.

(** When the label test succeeds on every item, the items kept are
    those whose label contains the word, and no item is [null]. *)
Lemma filter_items_ok (word : jstring) (items kept : list json) :
  filter_items (label_includes word) items = Ok kept ->
  kept = filter (label_contains word) items
  /\ Forall (fun it => it <> JNull) items.
Proof.
  rewrite filter_items_readable.
  destruct (forallb label_readable items) eqn:R; [|discriminate].
  intros H. injection H as <-. split; [reflexivity|].
  apply readable_items. exact R.
Qed.

(** The test succeeds on every item when every item is readable. *)
Lemma filter_items_total (word : jstring) (items : list json) :
  forallb label_readable items = true ->
  exists kept, filter_items (label_includes word) items = Ok kept.
Proof.
  intros R. rewrite filter_items_readable, R. eexists. reflexivity.
Qed.

(** The left-to-right accumulation of the code throws on the first box
    that traps, and adds otherwise the coerced areas one after the
    other. *)
Lemma reduce_area_fold (items : list json) (s : qnum) :
  Forall (fun it => it <> JNull) items ->
  reduce_area items s
  = if existsb (fun it => box_traps (bounding_box it)) items
    then Throw TypeError
    else Ok (fold_left
               (fun sum it => F64.add sum (area_coerced (bounding_box it)))
               items s).
Proof.
  intros F. revert s. induction F as [|it r N _ IH]; intros s;
    [reflexivity|].
  assert (M : member (Some it) BOX_2D = Ok (bounding_box it)).
  { destruct it; try reflexivity. contradiction. }
  cbn [reduce_area existsb fold_left]. rewrite M. cbn [bind].
  rewrite areaOf_coerced.
  destruct (box_traps (bounding_box it)); [reflexivity|].
  cbn [bind orb]. apply IH.
Qed.

Lemma Forall_filter (A : Type) (P : A -> Prop) (f : A -> bool)
  (l : list A) : Forall P l -> Forall P (filter f l).
Proof.
  intros F. apply Forall_forall. intros x Hx.
  apply filter_In in Hx as [Hx _].
  rewrite Forall_forall in F. auto.
Qed.

(** What [area_of_label] does. *)
Lemma area_of_label_counted (word : jstring) (items : list json) :
  area_of_label word items
  = if forallb label_readable items
       && negb (existsb (fun it => box_traps (bounding_box it))
                        (filter (label_contains word) items))
    then Ok (area_sum (filter (label_contains word) items))
    else Throw TypeError.
Proof.
  unfold area_of_label. rewrite filter_items_readable.
  destruct (forallb label_readable items) eqn:R; [|reflexivity].
  cbn [bind andb].
  rewrite reduce_area_fold
    by (apply Forall_filter, readable_items; exact R).
  destruct (existsb _ _); reflexivity.
Qed.

(** The items are all countable when they are all readable and no box
    counted for either word traps. *)
Lemma countable_items (items : list json) :
  forallb countable items
  = forallb label_readable items
    && negb (existsb (fun it => box_traps (bounding_box it))
                     (filter (label_contains (lit "weed")) items))
    && negb (existsb (fun it => box_traps (bounding_box it))
                     (filter (label_contains (lit "crop")) items)).
Proof.
  induction items as [|it r IH]; [reflexivity|].
  cbn [forallb filter]. rewrite IH. unfold countable.
  destruct (label_readable it), (label_contains (lit "weed") it),
    (label_contains (lit "crop") it), (box_traps (bounding_box it)) eqn:T;
    cbn [existsb andb orb negb]; try rewrite T; cbn [andb orb negb];
    repeat match goal with
    | |- context [forallb ?f ?l] => destruct (forallb f l)
    | |- context [existsb ?f ?l] => destruct (existsb f l)
    end; reflexivity.
Qed.

(** A sum of areas is a number that is not negative, or an infinity. *)
Lemma area_sum_sign (items : list json) (s : qnum) :
  s = QPInf \/ (exists q : Q, s = QFin q /\ (0 <= q)%Q) ->
  let total :=
    fold_left (fun sum it => F64.add sum (area_coerced (bounding_box it)))
              items s in
  total = QPInf \/ (exists q : Q, total = QFin q /\ (0 <= q)%Q).
Proof.
  revert s. induction items as [|it r IH]; intros s H; [exact H|].
  cbn [fold_left]. apply IH.
  destruct (area_coerced_range (bounding_box it)) as (a & -> & Ra).
  destruct H as [->|(q & -> & Pq)]; [left; reflexivity|].
  cbn [F64.add].
  destruct (@round_nonneg (q + a)) as [E|(r0 & E & P)]; [lra| |];
    rewrite E; [left; reflexivity|right; eauto].
Qed.

(** The coverage of such a sum is the reference rounding. *)
Lemma coverage_clamp (a : qnum) :
  a = QPInf \/ (exists q : Q, a = QFin q /\ (0 <= q)%Q) ->
  coverage a
  = Dec (round_half_up (clamp 0 100 (F64.mul a (QFin 100)))) 0.
Proof.
  intros [->|(q & -> & P)]; [reflexivity|].
  unfold coverage, q100. cbn [F64.mul].
  assert (P100 : (0 <= q * 100)%Q) by (apply Qmult_le_0_compat; lra).
  destruct (@round_nonneg (q * 100) P100) as [E|(r0 & E & _)];
    rewrite E; reflexivity.
Qed.

(** What [area_of_label] returns when it returns. *)
Lemma area_of_label_ok (word : jstring) (items : list json) (a : qnum) :
  area_of_label word items = Ok a ->
  a = area_sum (filter (label_contains word) items)
  /\ coverage a = Dec (coverage_reference word items) 0.
Proof.
  rewrite area_of_label_counted.
  destruct (_ && _); [|discriminate].
  intros H. injection H as <-. split; [reflexivity|].
  unfold coverage_reference. apply coverage_clamp.
  apply area_sum_sign. right. exists 0%Q. split; [reflexivity|lra].
Qed.

Lemma round_half_up_range (x : Q) :
  (0 <= x <= 100)%Q -> (0 <= round_half_up x <= 100)%Z.
Proof.
  intros [L U]. unfold round_half_up. split.
  - change 0%Z with (Qfloor 0). apply Qfloor_resp_le. lra.
  - assert (H : (Qfloor (x + (1 # 2)) <= Qfloor (100 + (1 # 2)))%Z)
      by (apply Qfloor_resp_le; lra).
    replace (Qfloor (100 + (1 # 2))) with 100%Z in H by reflexivity.
    exact H.
Qed.

Lemma clamp_percent (x : qnum) : (0 <= clamp 0 100 x <= 100)%Q.
Proof.
  destruct x as [q| | |]; simpl; unfold qmax, qmin;
    case_Qle_bool; lra.
Qed.

End CoverageFacts.

(* ================================================================== *)
(** * The backfilling step *)

Module BackfillFacts.

Import Reference NumFacts ObjFacts CoverageFacts.

(** The three assignments of the guarded block, field by field. *)
Lemma derive_fields (o o' : object) (items : list json) :
  derive o items = Ok o' ->
  exists wa ca : qnum,
    area_of_label (lit "weed") items = Ok wa
    /\ area_of_label (lit "crop") items = Ok ca
    /\ Obj.lookup WEED_COVERAGE o'
       = (if missing (Obj.lookup WEED_COVERAGE o)
          then Some (JNum (coverage wa)) else Obj.lookup WEED_COVERAGE o)
    /\ Obj.lookup HEALTHY_CROP_COVERAGE o'
       = (if missing (Obj.lookup HEALTHY_CROP_COVERAGE o)
          then Some (JNum (coverage ca))
          else Obj.lookup HEALTHY_CROP_COVERAGE o)
    /\ Obj.lookup TOTAL_AREA o'
       = (if nullish (Obj.lookup TOTAL_AREA o)
          then Some (JNum (Dec 100 0)) else Obj.lookup TOTAL_AREA o)
    /\ (forall k : jstring,
          Str.eqb k WEED_COVERAGE = false ->
          Str.eqb k HEALTHY_CROP_COVERAGE = false ->
          Str.eqb k TOTAL_AREA = false ->
          Obj.lookup k o' = Obj.lookup k o).
Proof.
  unfold derive. intros H.
  destruct (area_of_label (lit "weed") items) as [wa|]; [|discriminate].
  destruct (area_of_label (lit "crop") items) as [ca|]; [|discriminate].
  cbn [bind] in H. injection H as <-.
  exists wa, ca. split; [reflexivity|]. split; [reflexivity|].
  set (o1 := if missing (Obj.lookup WEED_COVERAGE o)
             then Obj.set WEED_COVERAGE (JNum (coverage wa)) o else o).
  set (o2 := if missing (Obj.lookup HEALTHY_CROP_COVERAGE o1)
             then Obj.set HEALTHY_CROP_COVERAGE (JNum (coverage ca)) o1
             else o1).
  set (o3 := if nullish (Obj.lookup TOTAL_AREA o2)
             then Obj.set TOTAL_AREA (JNum (Dec 100 0)) o2 else o2).
  assert (F1 : forall k, Str.eqb k WEED_COVERAGE = false ->
                         Obj.lookup k o1 = Obj.lookup k o).
  { intros k Hk. unfold o1.
    destruct (missing (Obj.lookup WEED_COVERAGE o)); [|reflexivity].
    apply lookup_set_other. exact Hk. }
  assert (F2 : forall k, Str.eqb k HEALTHY_CROP_COVERAGE = false ->
                         Obj.lookup k o2 = Obj.lookup k o1).
  { intros k Hk. unfold o2.
    destruct (missing (Obj.lookup HEALTHY_CROP_COVERAGE o1)); [|reflexivity].
    apply lookup_set_other. exact Hk. }
  assert (F3 : forall k, Str.eqb k TOTAL_AREA = false ->
                         Obj.lookup k o3 = Obj.lookup k o2).
  { intros k Hk. unfold o3.
    destruct (nullish (Obj.lookup TOTAL_AREA o2)); [|reflexivity].
    apply lookup_set_other. exact Hk. }
  split; [|split; [|split]].
  - rewrite F3, F2 by reflexivity. unfold o1.
    destruct (missing (Obj.lookup WEED_COVERAGE o)); [|reflexivity].
    apply lookup_set_same.
  - rewrite F3 by reflexivity.
    assert (E : Obj.lookup HEALTHY_CROP_COVERAGE o1
                = Obj.lookup HEALTHY_CROP_COVERAGE o)
      by (apply F1; reflexivity).
    unfold o2. rewrite E.
    destruct (missing (Obj.lookup HEALTHY_CROP_COVERAGE o)).
    + apply lookup_set_same.
    + exact E.
  - assert (E : Obj.lookup TOTAL_AREA o2 = Obj.lookup TOTAL_AREA o).
    { rewrite F2, F1 by reflexivity. reflexivity. }
    unfold o3. rewrite E.
    destruct (nullish (Obj.lookup TOTAL_AREA o)).
    + apply lookup_set_same.
    + exact E.
  - intros k K1 K2 K3. rewrite F3, F2, F1 by assumption. reflexivity.
Qed.

(** The guarded block returns when every item is countable, and throws
    a [TypeError] otherwise. *)
Lemma derive_countable (o : object) (items : list json) :
  match derive o items with
  | Ok _ => forallb countable items = true
  | Throw e => e = TypeError /\ forallb countable items = false
  end.
Proof.
  unfold derive. rewrite countable_items, !area_of_label_counted.
  destruct (forallb label_readable items); [|split; reflexivity].
  cbn [andb].
  destruct (existsb _ (filter (label_contains (lit "weed")) items));
    [split; reflexivity|].
  cbn [negb bind andb].
  destruct (existsb _ (filter (label_contains (lit "crop")) items));
    [split; reflexivity|reflexivity].
Qed.



(** [backfill] on an object: untouched without an array of items, the
    guarded block otherwise. *)
Lemma backfill_object (o : object) :
  backfill (JObj o)
  = match Obj.lookup ITEMS o with
    | Some (JArr its) => o' <- derive o its ;; Ok (JObj o')
    | _ => Ok (JObj o)
    end.
Proof. reflexivity. Qed.

Lemma backfill_object_inv (o : object) (v : json) :
  backfill (JObj o) = Ok v ->
  (Array_isArray (Obj.lookup ITEMS o) = false /\ v = JObj o)
  \/ exists its o', Obj.lookup ITEMS o = Some (JArr its)
                    /\ derive o its = Ok o' /\ v = JObj o'.
Proof.
  rewrite backfill_object.
  destruct (Obj.lookup ITEMS o) as [[|b|n|s|its|p]|]; simpl;
    try (intros H; injection H as <-; left; split; reflexivity).
  destruct (derive o its) as [o'|] eqn:D; [|discriminate].
  simpl. intros H. injection H as <-. right. eauto.
Qed.

(** The coverage written by the guarded block is the reference one. *)
Lemma coverage_of_label (word : jstring) (items : list json) (a : qnum) :
  area_of_label word items = Ok a ->
  coverage a = Dec (coverage_reference word items) 0.
Proof.
  intros H. apply area_of_label_ok in H as [_ H]. exact H.
Qed.

Lemma coverage_reference_range (word : jstring) (items : list json) :
  (0 <= coverage_reference word items <= 100)%Z.
Proof.
  unfold coverage_reference. apply round_half_up_range, clamp_percent.
Qed.

End BackfillFacts.

(* ================================================================== *)
(** * Reading back what [JSON.stringify] writes *)

Module DigitFacts.

Import Text Wf.

Lemma of_digits_app (a b : list N) :
  of_digits (a ++ b)
  = (of_digits a * 10 ^ N.of_nat (length b) + of_digits b)%N.
Proof.
  unfold of_digits. revert a.
  induction b as [|d b IH] using rev_ind; intros a.
  - rewrite app_nil_r. cbn [fold_left length]. change (10 ^ N.of_nat 0)%N with 1%N. lia.
  - rewrite app_assoc, (fold_left_app _ (a ++ b)), (fold_left_app _ b).
    cbn [fold_left]. rewrite IH. rewrite length_app. cbn [length].
    replace (N.of_nat (length b + 1)) with (N.succ (N.of_nat (length b)))
      by lia.
    rewrite N.pow_succ_r'. lia.
Qed.

Lemma digits_aux_app (fuel : nat) (n : N) (acc : list N) :
  digits_aux fuel n acc = digits_aux fuel n [] ++ acc.
Proof.
  revert n acc. induction fuel as [|f IH]; intros n acc; simpl.
  - reflexivity.
  - destruct (n <? 10)%N; [reflexivity|].
    rewrite (IH _ (_ :: acc)), (IH _ [_]), <- app_assoc. reflexivity.
Qed.

Lemma of_digits_aux (fuel : nat) (n : N) :
  of_digits (digits_aux fuel n []) = n.
Proof.
  revert n. induction fuel as [|f IH]; intros n; simpl.
  - unfold of_digits. simpl. lia.
  - destruct (n <? 10)%N.
    + unfold of_digits. simpl. lia.
    + rewrite digits_aux_app, of_digits_app, IH.
      unfold of_digits. simpl.
      pose proof (N.div_mod' n 10). lia.
Qed.

Lemma of_digits_digits (n : N) : of_digits (digits n) = n.
Proof. apply of_digits_aux. Qed.

Lemma digits_aux_small (fuel : nat) (n : N) :
  (n < 2 ^ N.of_nat fuel)%N ->
  Forall (fun d => (d < 10)%N) (digits_aux fuel n []).
Proof.
  revert n. induction fuel as [|f IH]; intros n H; simpl.
  - simpl in H. constructor; [lia|constructor].
  - destruct (n <? 10)%N eqn:E.
    + apply N.ltb_lt in E. constructor; [exact E|constructor].
    + rewrite digits_aux_app. apply Forall_app. split.
      * apply IH.
        replace (N.of_nat (S f)) with (N.succ (N.of_nat f)) in H by lia.
        rewrite N.pow_succ_r' in H.
        apply N.Div0.div_lt_upper_bound. lia.
      * constructor; [|constructor]. apply N.mod_lt. lia.
Qed.

Lemma digits_small (n : N) : Forall (fun d => (d < 10)%N) (digits n).
Proof.
  apply digits_aux_small.
  rewrite N2Nat.id. destruct n as [|p]; [simpl; lia|].
  apply N.size_gt.
Qed.

(** The first digit is zero for zero only, and then it is the last. *)
Lemma digits_aux_head (fuel : nat) (n : N) :
  exists d r, digits_aux fuel n [] = d :: r
              /\ (d = 0%N -> n = 0%N /\ r = []).
Proof.
  revert n. induction fuel as [|f IH]; intros n; simpl.
  - exists n, []. auto.
  - destruct (n <? 10)%N eqn:E.
    + exists n, []. auto.
    + apply N.ltb_ge in E. rewrite digits_aux_app.
      destruct (IH (n / 10)%N) as (d & r & -> & Hd).
      exists d, (r ++ [(n mod 10)%N]). split; [reflexivity|].
      intros Z. destruct (Hd Z) as [Hz _].
      assert (1 <= n / 10)%N by (apply N.div_le_lower_bound; lia).
      lia.
Qed.

Lemma digits_head (n : N) :
  exists d r, digits n = d :: r /\ (d = 0%N -> n = 0%N /\ r = []).
Proof. apply digits_aux_head. Qed.

Lemma length_digits_fixed (k : nat) (n : N) : length (digits_fixed k n) = k.
Proof.
  revert n. induction k as [|k IH]; intros n; simpl; [reflexivity|].
  rewrite length_app, IH. simpl. lia.
Qed.

Lemma of_digits_fixed (k : nat) (n : N) :
  of_digits (digits_fixed k n) = (n mod 10 ^ N.of_nat k)%N.
Proof.
  revert n. induction k as [|k IH]; intros n.
  - simpl. rewrite N.mod_1_r. reflexivity.
  - cbn [digits_fixed]. rewrite of_digits_app, IH.
    unfold of_digits. cbn [fold_left length].
    replace (N.of_nat (S k)) with (N.succ (N.of_nat k)) by lia.
    rewrite N.pow_succ_r'.
    rewrite N.Div0.mod_mul_r.
    change (10 ^ N.of_nat 1)%N with 10%N. lia.
Qed.

Lemma digits_fixed_small (k : nat) (n : N) :
  Forall (fun d => (d < 10)%N) (digits_fixed k n).
Proof.
  revert n. induction k as [|k IH]; intros n; simpl; [constructor|].
  apply Forall_app. split; [apply IH|].
  constructor; [|constructor]. apply N.mod_lt. lia.
Qed.

(** The digits written are read back, up to a character that is not a
    digit. *)
Lemma digit_char_digit (d : N) :
  (d < 10)%N -> is_digit (digit_char d) = true /\ (digit_char d - 48 = d)%N.
Proof.
  intros H. unfold is_digit, digit_char. split; [|lia].
  apply andb_true_iff. split; apply N.leb_le; lia.
Qed.

Lemma take_digits_chars (ds rest : list N) :
  Forall (fun d => (d < 10)%N) ds -> not_digit_first rest ->
  take_digits (map digit_char ds ++ rest) = (ds, rest).
Proof.
  intros F R. induction F as [|d ds Hd _ IH].
  - destruct rest as [|c r]; [reflexivity|]. simpl in R.
    cbn [map app take_digits]. rewrite R. reflexivity.
  - cbn [map app take_digits].
    destruct (digit_char_digit Hd) as [-> ->]. rewrite IH. reflexivity.
Qed.

End DigitFacts.

Module NumberFacts.

Import Text Wf DigitFacts.

Lemma delimited_cases (rest : list N) :
  delimited rest = true ->
  rest = [] \/ exists c r, rest = c :: r
                           /\ (c = COMMA \/ c = RBRACK \/ c = RBRACE).
Proof.
  destruct rest as [|c r]; [now left|]. simpl. intros H. right.
  exists c, r. split; [reflexivity|].
  apply orb_true_iff in H as [H|H]; [apply orb_true_iff in H as [H|H]|];
    apply N.eqb_eq in H; auto.
Qed.

Lemma delimited_not_digit (rest : list N) :
  delimited rest = true -> not_digit_first rest.
Proof.
  intros H. destruct (delimited_cases _ H) as [-> | [c [r [-> [-> | [-> | ->]]]]]];
    reflexivity.
Qed.

Lemma pow10_N (k : nat) : Z.to_N (Num.pow10 k) = (10 ^ N.of_nat k)%N.
Proof.
  unfold Num.pow10. rewrite Z2N.inj_pow by lia.
  f_equal. lia.
Qed.

(** The text of the fraction: nothing for an integer, a point and [k]
    digits otherwise. *)
Lemma parse_frac_written (k : nat) (f : N) (rest : list N) :
  delimited rest = true ->
  parse_frac (match k with
              | O => []
              | S _ => DOT :: map digit_char (digits_fixed k f)
              end ++ rest)
  = Some (digits_fixed k f, rest).
Proof.
  intros D. destruct k as [|k].
  - simpl. destruct (delimited_cases _ D) as [-> | [c [r [-> [-> | [-> | ->]]]]]];
      reflexivity.
  - cbn [app parse_frac]. rewrite N.eqb_refl.
    rewrite take_digits_chars
      by (auto using digits_fixed_small, delimited_not_digit).
    destruct (digits_fixed (S k) f) as [|d ds] eqn:E; [|reflexivity].
    pose proof (length_digits_fixed (S k) f) as L. rewrite E in L.
    discriminate.
Qed.

Lemma parse_exp_delimited (rest : list N) :
  delimited rest = true -> parse_exp rest = Some (0%Z, rest).
Proof.
  intros D. destruct (delimited_cases _ D) as [-> | [c [r [-> [-> | [-> | ->]]]]]];
    reflexivity.
Qed.

Lemma norm_canonical (m : Z) (k : nat) :
  Num.canonical m k = true -> Num.norm m k = (m, k).
Proof.
  destruct k as [|k]; simpl; [reflexivity|].
  intros H. apply negb_true_iff in H. rewrite H. reflexivity.
Qed.

Lemma canonical_norm (m : Z) (k : nat) :
  Num.canonical (fst (Num.norm m k)) (snd (Num.norm m k)) = true.
Proof.
  revert m. induction k as [|k IH]; intros m; simpl; [reflexivity|].
  destruct (m mod 10 =? 0)%Z eqn:E; [apply IH|].
  simpl. rewrite E. reflexivity.
Qed.

(** A well-formed decimal is the value of its own literal. *)
Lemma of_decimal_wf (m : Z) (k : nat) :
  wf_num (Dec m k) = true ->
  Num.of_decimal m (0 - Z.of_nat k) = Dec m k.
Proof.
  intros W. apply andb_true_iff in W as [W U].
  apply andb_true_iff in W as [C B].
  apply Z.ltb_lt in B. unfold Num.of_decimal.
  destruct k as [|k].
  - replace (0 <=? 0 - Z.of_nat 0)%Z with true by reflexivity.
    replace (m * 10 ^ (0 - Z.of_nat 0))%Z with m by (simpl; lia).
    cbv iota.
    destruct (Num.overflow_bound * Num.pow10 0 <=? Z.abs m)%Z eqn:O;
      [apply Z.leb_le in O; lia|].
    destruct (m =? 0)%Z eqn:Z0.
    + apply Z.eqb_eq in Z0. subst m. reflexivity.
    + cbn [orb] in U. apply negb_true_iff in U. rewrite U. reflexivity.
  - assert (N : (0 <=? 0 - Z.of_nat (S k))%Z = false)
      by (apply Z.leb_gt; lia).
    rewrite N.
    replace (Z.to_nat (- (0 - Z.of_nat (S k)))) with (S k) by lia.
    rewrite (norm_canonical _ _ C).
    destruct (Num.overflow_bound * Num.pow10 (S k) <=? Z.abs m)%Z eqn:O;
      [apply Z.leb_le in O; lia|].
    destruct (m =? 0)%Z eqn:Z0.
    + apply Z.eqb_eq in Z0. subst m. discriminate C.
    + cbn [orb] in U. apply negb_true_iff in U. rewrite U. reflexivity.
Qed.

(** Every number the reader of literals returns is well formed. *)
Lemma wf_of_decimal (m e : Z) : wf_num (Num.of_decimal m e) = true.
Proof.
  assert (K : forall (m' : Z) (k' : nat),
            Num.canonical m' k' = true ->
            wf_num
              (if (Num.overflow_bound * Num.pow10 k' <=? Z.abs m')%Z
               then (if (0 <? m')%Z then PInf else NInf)
               else if Num.underflows m' k' then Dec 0 0 else Dec m' k')
            = true).
  { intros m' k' C.
    destruct (Num.overflow_bound * Num.pow10 k' <=? Z.abs m')%Z eqn:O.
    - destruct (0 <? m')%Z; reflexivity.
    - destruct (Num.underflows m' k') eqn:U; [reflexivity|].
      apply Z.leb_gt in O. unfold wf_num. rewrite C, U.
      apply Z.ltb_lt in O. rewrite O. cbn [andb negb].
      apply orb_true_r. }
  unfold Num.of_decimal.
  destruct (0 <=? e)%Z.
  - apply K. reflexivity.
  - pose proof (canonical_norm m (Z.to_nat (- e))) as C.
    destruct (Num.norm m (Z.to_nat (- e))) as [m' k']. simpl in C.
    apply K. exact C.
Qed.

(** A finite well-formed number is read back from its text. *)
Lemma parse_number_written (m : Z) (k : nat) (rest : list N) :
  wf_num (Dec m k) = true -> delimited rest = true ->
  parse_number (Number_toString (Dec m k) ++ rest) = Some (Dec m k, rest).
Proof.
  intros W D. unfold Number_toString.
  set (a := Z.abs_N m). rewrite pow10_N. set (p := (10 ^ N.of_nat k)%N).
  assert (Pp : (0 < p)%N) by (unfold p; apply N.neq_0_lt_0, N.pow_nonzero; lia).
  destruct (digits_head (a / p)) as (d & ds & Hd & Hz).
  pose proof (digits_small (a / p)) as Sm. rewrite Hd in Sm.
  assert (Dd : (d < 10)%N) by (inversion Sm; assumption).
  set (frac := match k with
               | O => []
               | S _ => DOT :: map digit_char (digits_fixed k (a mod p))
               end).
  assert (NDf : not_digit_first (frac ++ rest)).
  { unfold frac. destruct k; [apply delimited_not_digit; exact D|].
    reflexivity. }
  assert (Body : forall negative,
             parse_magnitude negative
               (map digit_char (digits (a / p)) ++ frac ++ rest)
             = Some (Num.of_decimal
                       (if negative then (- Z.of_N a)%Z else Z.of_N a)
                       (0 - Z.of_nat k)%Z, rest)).
  { intros negative. unfold parse_magnitude.
    rewrite take_digits_chars by first [apply digits_small | exact NDf].
    rewrite Hd.
    assert (Lead : (d =? 0)%N
                   && negb match ds with [] => true | _ :: _ => false end
                   = false).
    { destruct (d =? 0)%N eqn:E; [|reflexivity].
      apply N.eqb_eq in E. destruct (Hz E) as [_ ->]. reflexivity. }
    rewrite Lead. unfold frac. rewrite parse_frac_written by exact D.
    rewrite parse_exp_delimited by exact D.
    cbv zeta. rewrite length_digits_fixed.
    rewrite <- Hd, of_digits_app, of_digits_digits, of_digits_fixed,
      length_digits_fixed.
    fold p.
    rewrite N.Div0.mod_mod.
    replace (a / p * p + a mod p)%N with a
      by (pose proof (N.div_mod' a p); lia).
    reflexivity. }
  assert (Val : forall negative, negative = (m <? 0)%Z ->
            Num.of_decimal (if negative then (- Z.of_N a)%Z else Z.of_N a)
                           (0 - Z.of_nat k) = Dec m k).
  { intros negative ->.
    replace (if (m <? 0)%Z then (- Z.of_N a)%Z else Z.of_N a) with m.
    - apply of_decimal_wf. exact W.
    - unfold a. rewrite N2Z.inj_abs_N.
      destruct (m <? 0)%Z eqn:E;
        [apply Z.ltb_lt in E | apply Z.ltb_ge in E]; lia. }
  unfold parse_number.
  destruct (m <? 0)%Z eqn:Neg.
  - cbn [app parse_sign]. rewrite N.eqb_refl.
    rewrite <- !app_assoc. fold frac.
    rewrite (Body true). rewrite (Val true) by reflexivity. reflexivity.
  - cbn [app]. rewrite <- !app_assoc. fold frac.
    assert (Sg : parse_sign (map digit_char (digits (a / p)) ++ frac ++ rest)
                 = (false, map digit_char (digits (a / p)) ++ frac ++ rest)).
    { rewrite Hd. cbn [map app parse_sign].
      replace (digit_char d =? MINUS)%N with false; [reflexivity|].
      symmetry. apply N.eqb_neq. unfold digit_char, MINUS. lia. }
    rewrite Sg. rewrite (Body false). rewrite (Val false) by reflexivity.
    reflexivity.
Qed.

End NumberFacts.

Module StringFacts.

Import Text.

Lemma hex_val_char (d : N) : (d < 16)%N -> hex_val (hex_char d) = Some d.
Proof.
  intros H. unfold hex_val, hex_char, is_digit.
  destruct (d <? 10)%N eqn:E.
  - apply N.ltb_lt in E.
    replace ((48 <=? 48 + d)%N && (48 + d <=? 57)%N) with true
      by (symmetry; apply andb_true_iff; split; apply N.leb_le; lia).
    f_equal. lia.
  - apply N.ltb_ge in E.
    replace ((48 <=? 87 + d)%N && (87 + d <=? 57)%N) with false
      by (symmetry; apply andb_false_iff; right; apply N.leb_gt; lia).
    replace ((97 <=? 87 + d)%N && (87 + d <=? 102)%N) with true
      by (symmetry; apply andb_true_iff; split; apply N.leb_le; lia).
    f_equal. lia.
Qed.

Lemma hex4_digits (c : N) :
  (c < 65536)%N ->
  hex4 (hex_char ((c / 4096) mod 16)) (hex_char ((c / 256) mod 16))
       (hex_char ((c / 16) mod 16)) (hex_char (c mod 16)) = Some c.
Proof.
  intros H. unfold hex4.
  rewrite !hex_val_char by (apply N.mod_lt; lia).
  f_equal.
  assert (E1 := N.div_mod' c 16).
  assert (E2 := N.div_mod' (c / 16) 16).
  assert (E3 := N.div_mod' (c / 256) 16).
  assert (D2 : (c / 16 / 16 = c / 256)%N)
    by (rewrite N.Div0.div_div; reflexivity).
  assert (D3 : (c / 256 / 16 = c / 4096)%N)
    by (rewrite N.Div0.div_div; reflexivity).
  assert (S : (c / 4096 < 16)%N) by (apply N.Div0.div_lt_upper_bound; lia).
  rewrite (N.mod_small (c / 4096) 16) by exact S.
  rewrite D2 in E2. rewrite D3 in E3. lia.
Qed.

Lemma parse_escape_u (c : N) (t : list N) (acc : jstring) :
  (c < 65536)%N ->
  parse_chars (escape_u c ++ t) acc = parse_chars t (c :: acc).
Proof.
  intros H. unfold escape_u. cbn [app parse_chars].
  change (BACKSLASH =? QUOTE)%N with false.
  change (BACKSLASH =? BACKSLASH)%N with true.
  change (117 =? 117)%N with true. cbv iota.
  rewrite hex4_digits by exact H. reflexivity.
Qed.

Lemma parse_verbatim (c : N) (t : list N) (acc : jstring) :
  c <> QUOTE -> c <> BACKSLASH -> (32 <= c)%N ->
  parse_chars (c :: t) acc = parse_chars t (c :: acc).
Proof.
  intros Q B L. cbn [parse_chars].
  apply N.eqb_neq in Q. apply N.eqb_neq in B. rewrite Q, B.
  replace (c <? 32)%N with false by (symmetry; apply N.ltb_ge; exact L).
  reflexivity.
Qed.

Lemma parse_quote_unit (c : N) (t : list N) (acc : jstring) :
  parse_chars (quote_unit c ++ t) acc = parse_chars t (c :: acc).
Proof.
  unfold quote_unit.
  destruct (c =? 8)%N eqn:E8; [apply N.eqb_eq in E8; subst; reflexivity|].
  destruct (c =? 9)%N eqn:E9; [apply N.eqb_eq in E9; subst; reflexivity|].
  destruct (c =? 10)%N eqn:E10;
    [apply N.eqb_eq in E10; subst; reflexivity|].
  destruct (c =? 12)%N eqn:E12;
    [apply N.eqb_eq in E12; subst; reflexivity|].
  destruct (c =? 13)%N eqn:E13;
    [apply N.eqb_eq in E13; subst; reflexivity|].
  destruct (c =? QUOTE)%N eqn:EQ;
    [apply N.eqb_eq in EQ; subst; reflexivity|].
  destruct (c =? BACKSLASH)%N eqn:EB;
    [apply N.eqb_eq in EB; subst; reflexivity|].
  apply N.eqb_neq in EQ. apply N.eqb_neq in EB.
  destruct (c <? 32)%N eqn:EC.
  - apply N.ltb_lt in EC. apply parse_escape_u. lia.
  - apply N.ltb_ge in EC.
    destruct (is_high_surrogate c || is_low_surrogate c) eqn:ES.
    + apply parse_escape_u.
      unfold is_high_surrogate, is_low_surrogate in ES.
      apply orb_true_iff in ES as [ES|ES];
        apply andb_true_iff in ES as [_ ES]; apply N.leb_le in ES; lia.
    + apply parse_verbatim; assumption.
Qed.

Lemma parse_quote_chars_bounded (n : nat) (s : jstring) (rest : list N)
  (acc : jstring) :
  (length s <= n)%nat ->
  parse_chars (quote_chars s ++ QUOTE :: rest) acc = Some (rev acc ++ s, rest).
Proof.
  revert s acc. induction n as [|n IH]; intros s acc L.
  - destruct s; [|simpl in L; lia]. simpl. rewrite app_nil_r. reflexivity.
  - destruct s as [|c r].
    + simpl. rewrite app_nil_r. reflexivity.
    + assert (Unit : parse_chars ((quote_unit c ++ quote_chars r)
                                    ++ QUOTE :: rest) acc
                     = Some (rev acc ++ c :: r, rest)).
      { rewrite <- app_assoc, parse_quote_unit.
        rewrite IH by (simpl in L; lia).
        simpl. rewrite <- app_assoc. reflexivity. }
      cbn [quote_chars]. destruct r as [|d r']; [exact Unit|].
      destruct (is_high_surrogate c && is_low_surrogate d) eqn:P;
        [|exact Unit].
      apply andb_true_iff in P as [Hc Hd].
      unfold is_high_surrogate in Hc. unfold is_low_surrogate in Hd.
      apply andb_true_iff in Hc as [Hc _]. apply N.leb_le in Hc.
      apply andb_true_iff in Hd as [Hd _]. apply N.leb_le in Hd.
      cbn [app].
      rewrite parse_verbatim by (unfold QUOTE, BACKSLASH; lia).
      rewrite parse_verbatim by (unfold QUOTE, BACKSLASH; lia).
      rewrite IH by (simpl in L; lia).
      simpl. rewrite <- !app_assoc. reflexivity.
Qed.

(** A quoted string is read back. *)
Lemma parse_quote_chars (s : jstring) (rest : list N) :
  parse_chars (quote_chars s ++ QUOTE :: rest) [] = Some (s, rest).
Proof. apply (parse_quote_chars_bounded (n := length s)). lia. Qed.

End StringFacts.

Module ValueFacts.

Import Text Wf DigitFacts NumberFacts StringFacts ObjFacts.
Export JsonFacts.

Lemma stringify_array (l : list json) :
  JSON_stringify (JArr l) = LBRACK :: elements_text l ++ [RBRACK].
Proof.
  reflexivity.
Qed.

Lemma stringify_object (o : object) :
  JSON_stringify (JObj o) = LBRACE :: members_text o ++ [RBRACE].
Proof.
  reflexivity.
Qed.

(** The first character of a written number is a sign or a digit. *)
Lemma number_text_head (m : Z) (k : nat) :
  exists c t, Number_toString (Dec m k) = c :: t
              /\ (c = MINUS \/ is_digit c = true).
Proof.
  unfold Number_toString. destruct (m <? 0)%Z.
  - eexists. eexists. split; [reflexivity|]. now left.
  - destruct (digits_head (Z.abs_N m / Z.to_N (Num.pow10 k)))
      as (d & ds & Hd & _).
    pose proof (digits_small (Z.abs_N m / Z.to_N (Num.pow10 k))) as Sm.
    rewrite Hd in *. inversion Sm as [|? ? Dd _]; subst.
    eexists. eexists. split; [reflexivity|]. right.
    apply digit_char_digit. exact Dd.
Qed.

Lemma parse_value_number (fuel : nat) (c : N) (r : list N) :
  c = MINUS \/ is_digit c = true ->
  parse_value (S fuel) (c :: r)
  = match parse_number (c :: r) with
    | Some (n, r') => Some (JNum n, r')
    | None => None
    end.
Proof.
  intros H.
  assert (B : (45 <= c <= 57)%N).
  { destruct H as [->|H]; [unfold MINUS; lia|].
    unfold is_digit in H. apply andb_true_iff in H as [H1 H2].
    apply N.leb_le in H1. apply N.leb_le in H2. lia. }
  cbn [parse_value skip_ws].
  assert (W : is_ws c = false).
  { unfold is_ws.
    repeat (apply orb_false_iff; split); apply N.eqb_neq; lia. }
  rewrite W.
  replace (c =? LBRACE)%N with false
    by (symmetry; apply N.eqb_neq; unfold LBRACE; lia).
  replace (c =? LBRACK)%N with false
    by (symmetry; apply N.eqb_neq; unfold LBRACK; lia).
  replace (c =? QUOTE)%N with false
    by (symmetry; apply N.eqb_neq; unfold QUOTE; lia).
  assert (T : forall x, (57 < x)%N -> (x =? c)%N = false)
    by (intros x Hx; apply N.eqb_neq; lia).
  cbn [strip_prefix lit list_ascii_of_string map].
  rewrite !T by (vm_compute; reflexivity).
  reflexivity.
Qed.

Lemma stringify_head (v : json) :
  exists c t, JSON_stringify v = c :: t
              /\ is_ws c = false /\ c <> RBRACK /\ c <> RBRACE.
Proof.
  assert (Lit : forall c t, is_ws c = false -> c <> RBRACK -> c <> RBRACE ->
            exists c0 t0, c :: t = c0 :: t0
              /\ is_ws c0 = false /\ c0 <> RBRACK /\ c0 <> RBRACE)
    by (intros c t; eauto 6).
  destruct v as [|[|]|[m k| | |]|s|l|o];
    try (apply Lit; [reflexivity|discriminate|discriminate]).
  change (JSON_stringify (JNum (Dec m k))) with (Number_toString (Dec m k)).
  destruct (number_text_head m k) as (c & t & -> & H).
  exists c, t. split; [reflexivity|].
  assert (B : (45 <= c <= 57)%N).
  { destruct H as [->|H]; [unfold MINUS; lia|].
    unfold is_digit in H. apply andb_true_iff in H as [H1 H2].
    apply N.leb_le in H1. apply N.leb_le in H2. lia. }
  split; [|split].
  - unfold is_ws.
    repeat (apply orb_false_iff; split); apply N.eqb_neq; lia.
  - unfold RBRACK. lia.
  - unfold RBRACE. lia.
Qed.

Lemma skip_ws_stringify (v : json) (t : list N) :
  skip_ws (JSON_stringify v ++ t) = JSON_stringify v ++ t.
Proof.
  destruct (stringify_head v) as (c & r & -> & W & _).
  cbn [app skip_ws]. rewrite W. reflexivity.
Qed.

Lemma set_fresh (k : jstring) (v : json) (acc : object) :
  existsb (Str.eqb k) (map fst acc) = false ->
  Obj.set k v acc = acc ++ [(k, v)].
Proof.
  induction acc as [|[k' v'] acc IH]; simpl; [reflexivity|].
  intros H. apply orb_false_iff in H as [H1 H2].
  rewrite H1, IH by exact H2. reflexivity.
Qed.

Lemma nodup_keys_middle (a b : list jstring) (k : jstring) :
  nodup_keys (a ++ k :: b) = true -> existsb (Str.eqb k) a = false.
Proof.
  induction a as [|k0 a IH]; simpl; [reflexivity|].
  intros H. apply andb_true_iff in H as [H1 H2].
  apply negb_true_iff in H1. rewrite existsb_app in H1.
  apply orb_false_iff in H1 as [_ H1]. simpl in H1.
  apply orb_false_iff in H1 as [H1 _].
  rewrite eqb_sym, H1. simpl. apply IH. exact H2.
Qed.

(** Setting the members of an object without a repeated key, one after
    the other, rebuilds the object. *)
Lemma fold_set_nodup (o acc : object) :
  nodup_keys (map fst (acc ++ o)) = true ->
  fold_left (fun a kv => Obj.set (fst kv) (snd kv) a) o acc = acc ++ o.
Proof.
  revert acc. induction o as [|[k x] o IH]; intros acc H; simpl.
  - rewrite app_nil_r. reflexivity.
  - rewrite set_fresh.
    + rewrite IH; rewrite <- app_assoc; [reflexivity|exact H].
    + rewrite map_app in H. simpl in H.
      exact (nodup_keys_middle _ _ _ H).
Qed.

End ValueFacts.

Module RoundTrip.

Import Text Wf DigitFacts NumberFacts StringFacts ObjFacts ValueFacts.

Lemma parse_value_string (f : nat) (r : list N) :
  parse_value (S f) (QUOTE :: r)
  = match parse_chars r [] with
    | Some (str, r') => Some (JStr str, r')
    | None => None
    end.
Proof. reflexivity. Qed.

Lemma parse_value_array (f : nat) (r : list N) :
  parse_value (S f) (LBRACK :: r)
  = match skip_ws r with
    | c' :: r' =>
        if (c' =? RBRACK)%N then Some (JArr [], r')
        else parse_elements f (c' :: r') []
    | [] => None
    end.
Proof. reflexivity. Qed.

Lemma parse_value_object (f : nat) (r : list N) :
  parse_value (S f) (LBRACE :: r)
  = match skip_ws r with
    | c' :: r' =>
        if (c' =? RBRACE)%N then Some (JObj [], r')
        else parse_members f (c' :: r') []
    | [] => None
    end.
Proof. reflexivity. Qed.

Lemma parse_elements_step (f : nat) (s : list N) (acc : list json) :
  parse_elements (S f) s acc
  = match parse_value f s with
    | None => None
    | Some (v, r) =>
        match skip_ws r with
        | c :: r' =>
            if (c =? COMMA)%N then parse_elements f r' (acc ++ [v])
            else if (c =? RBRACK)%N then Some (JArr (acc ++ [v]), r')
            else None
        | [] => None
        end
    end.
Proof. reflexivity. Qed.

Lemma parse_members_step (f : nat) (r0 : list N) (acc : object) :
  parse_members (S f) (QUOTE :: r0) acc
  = match parse_chars r0 [] with
    | None => None
    | Some (k, r1) =>
        match skip_ws r1 with
        | c :: r2 =>
            if (c =? COLON)%N then
              match parse_value f r2 with
              | None => None
              | Some (v, r3) =>
                  match skip_ws r3 with
                  | d :: r4 =>
                      if (d =? COMMA)%N
                      then parse_members f r4 (Obj.set k v acc)
                      else if (d =? RBRACE)%N
                      then Some (JObj (Obj.set k v acc), r4)
                      else None
                  | [] => None
                  end
              end
            else None
        | [] => None
        end
    end.
Proof. reflexivity. Qed.

Lemma size_pos (v : json) : (1 <= size v)%nat.
Proof. destruct v; simpl; lia. Qed.

Lemma elements_text_cons (x : json) (l : list json) (rest : list N) :
  elements_text (x :: l) ++ RBRACK :: rest
  = JSON_stringify x ++ after_element l rest.
Proof.
  unfold after_element. cbn [elements_text]. rewrite <- app_assoc.
  reflexivity.
Qed.

Lemma members_text_cons (k : jstring) (x : json) (o : object)
  (rest : list N) :
  members_text ((k, x) :: o) ++ RBRACE :: rest
  = QUOTE :: quote_chars k
      ++ QUOTE :: COLON :: JSON_stringify x ++ after_member o rest.
Proof.
  unfold after_member. cbn [members_text]. unfold quote.
  cbn [app]. rewrite <- !app_assoc. cbn [app]. rewrite <- !app_assoc.
  reflexivity.
Qed.

Lemma after_element_delimited (l : list json) (rest : list N) :
  delimited (after_element l rest) = true.
Proof. destruct l; reflexivity. Qed.

Lemma after_member_delimited (o : object) (rest : list N) :
  delimited (after_member o rest) = true.
Proof. destruct o; reflexivity. Qed.

(** With fuel for its size, a finite well-formed value is read back from
    its text; so are the elements of an array up to the closing bracket
    and the members of an object up to the closing brace. *)
Lemma parse_written_fuel (fuel : nat) :
  (forall v rest,
     (size v <= fuel)%nat -> wf v = true -> finite v = true ->
     delimited rest = true ->
     parse_value fuel (JSON_stringify v ++ rest) = Some (v, rest))
  /\ (forall x l acc rest,
        (elements_size (x :: l) <= fuel)%nat ->
        forallb wf (x :: l) = true -> forallb finite (x :: l) = true ->
        parse_elements fuel (elements_text (x :: l) ++ RBRACK :: rest) acc
        = Some (JArr (acc ++ x :: l), rest))
  /\ (forall k x o acc rest,
        (members_size ((k, x) :: o) <= fuel)%nat ->
        forallb (fun kv => wf (snd kv)) ((k, x) :: o) = true ->
        forallb (fun kv => finite (snd kv)) ((k, x) :: o) = true ->
        parse_members fuel (members_text ((k, x) :: o) ++ RBRACE :: rest) acc
        = Some (JObj (set_all ((k, x) :: o) acc), rest)).
Proof.
  induction fuel as [|f (IHv & IHe & IHm)].
  { split; [|split].
    - intros v rest L. pose proof (size_pos v). lia.
    - intros x l acc rest L. simpl in L. lia.
    - intros k x o acc rest L. simpl in L. lia. }
  split; [|split].
  - intros v rest L W F D.
    destruct v as [|[|]|[m k| | |]|s|l|o]; try discriminate;
      try reflexivity.
    + change (JSON_stringify (JNum (Dec m k)))
        with (Number_toString (Dec m k)).
      destruct (number_text_head m k) as (c & t & E & H).
      rewrite E. cbn [app]. rewrite parse_value_number by exact H.
      change (c :: t ++ rest) with ((c :: t) ++ rest). rewrite <- E.
      rewrite parse_number_written by assumption. reflexivity.
    + unfold JSON_stringify, quote. cbn [app].
      rewrite parse_value_string. rewrite <- app_assoc. cbn [app].
      rewrite parse_quote_chars. reflexivity.
    + rewrite stringify_array. cbn [app]. rewrite parse_value_array.
      rewrite <- app_assoc. cbn [app].
      destruct l as [|x l]; [reflexivity|].
      rewrite elements_text_cons, skip_ws_stringify.
      destruct (stringify_head x) as (c & t & E & _ & NB & _).
      rewrite E. cbn [app].
      apply N.eqb_neq in NB. rewrite NB.
      change (c :: t ++ after_element l rest)
        with ((c :: t) ++ after_element l rest).
      rewrite <- E, <- elements_text_cons.
      apply IHe; [simpl in L; unfold elements_size; simpl; lia| |];
        assumption.
    + rewrite stringify_object. cbn [app]. rewrite parse_value_object.
      rewrite <- app_assoc. cbn [app].
      destruct o as [|[k x] o]; [reflexivity|].
      rewrite members_text_cons. cbn [skip_ws].
      change (is_ws QUOTE) with false. cbv iota.
      change (QUOTE =? RBRACE)%N with false. cbv iota.
      rewrite <- members_text_cons.
      simpl in W. apply andb_true_iff in W as [ND W].
      rewrite IHm; [|simpl in L; unfold members_size; simpl; lia
                    |exact W|exact F].
      unfold set_all. rewrite fold_set_nodup by exact ND. reflexivity.
  - intros x l acc rest L W F.
    rewrite parse_elements_step, elements_text_cons.
    cbn [forallb] in W, F.
    apply andb_true_iff in W as [Wx Wl]. apply andb_true_iff in F as [Fx Fl].
    unfold elements_size in L. cbn [fold_right] in L.
    fold (elements_size l) in L.
    rewrite IHv;
      [|lia|exact Wx|exact Fx|apply after_element_delimited].
    destruct l as [|y l]; [reflexivity|].
    unfold after_element. cbn [app skip_ws].
    change (is_ws COMMA) with false. cbv iota.
    change (COMMA =? COMMA)%N with true. cbv iota.
    rewrite IHe; [|lia|exact Wl|exact Fl].
    rewrite <- app_assoc. reflexivity.
  - intros k x o acc rest L W F.
    rewrite members_text_cons, parse_members_step, parse_quote_chars.
    cbn [skip_ws]. change (is_ws COLON) with false. cbv iota.
    change (COLON =? COLON)%N with true. cbv iota.
    cbn [forallb snd] in W, F.
    apply andb_true_iff in W as [Wx Wo]. apply andb_true_iff in F as [Fx Fo].
    unfold members_size in L. cbn [fold_right snd] in L.
    fold (members_size o) in L.
    rewrite IHv;
      [|lia|exact Wx|exact Fx|apply after_member_delimited].
    destruct o as [|[k' y] o]; [reflexivity|].
    unfold after_member. cbn [app skip_ws].
    change (is_ws COMMA) with false. cbv iota.
    change (COMMA =? COMMA)%N with true. cbv iota.
    rewrite IHm; [|lia|exact Wo|exact Fo].
    reflexivity.
Qed.

Lemma elements_size_le (l : list json) :
  Forall (fun x => (size x <= length (JSON_stringify x))%nat) l ->
  (elements_size l <= length (elements_text l) + 1)%nat.
Proof.
  induction 1 as [|x l Hx _ IH]; [simpl; lia|].
  unfold elements_size in *. cbn [fold_right elements_text].
  rewrite length_app. destruct l as [|y l]; [cbn [length fold_right]; lia|].
  cbn [length fold_right]. cbn [fold_right] in IH. lia.
Qed.

Lemma members_size_le (o : object) :
  Forall (fun kv => (size (snd kv) <= length (JSON_stringify (snd kv)))%nat)
         o ->
  (members_size o <= length (members_text o) + 1)%nat.
Proof.
  induction 1 as [|[k x] o Hx _ IH]; [simpl; lia|].
  unfold members_size in *. cbn [fold_right members_text snd].
  cbn [snd] in Hx.
  rewrite length_app. cbn [length]. rewrite length_app.
  destruct o as [|[k' y] o]; [cbn [length fold_right]; lia|].
  cbn [length fold_right snd]. cbn [fold_right snd] in IH. lia.
Qed.

Lemma size_le_length (v : json) :
  (size v <= length (JSON_stringify v))%nat.
Proof.
  induction v as [|b|n|s|l IH|o IH] using json_induction.
  - simpl. lia.
  - destruct b; simpl; lia.
  - destruct n as [m k| | |]; try (simpl; lia).
    change (JSON_stringify (JNum (Dec m k)))
      with (Number_toString (Dec m k)).
    destruct (number_text_head m k) as (c & t & -> & _). simpl. lia.
  - simpl. lia.
  - rewrite stringify_array. cbn [length size].
    fold (elements_size l). rewrite length_app. cbn [length].
    pose proof (elements_size_le IH). lia.
  - rewrite stringify_object. cbn [length size].
    fold (members_size o). rewrite length_app. cbn [length].
    pose proof (members_size_le IH). lia.
Qed.

(** [JSON.parse(JSON.stringify(v))] is [v] for a finite well-formed
    value. *)
Theorem parse_stringify (v : json) :
  wf v = true -> finite v = true ->
  JSON_parse (JSON_stringify v) = Some v.
Proof.
  intros W F. unfold JSON_parse.
  destruct (parse_written_fuel (S (length (JSON_stringify v))))
    as (Hv & _).
  specialize (Hv v [] (Nat.le_trans _ _ _ (size_le_length v) (Nat.le_succ_diag_r _))
                 W F eq_refl).
  rewrite app_nil_r in Hv. rewrite Hv. reflexivity.
Qed.

End RoundTrip.

Module ParseFacts.

Import Text Wf NumberFacts ObjFacts ValueFacts RoundTrip.

Lemma parse_number_wf (s : list N) (n : num) (r : list N) :
  parse_number s = Some (n, r) -> wf_num n = true.
Proof.
  unfold parse_number, parse_magnitude.
  destruct (parse_sign s) as [negative s1].
  destruct (take_digits s1) as [[|d ip] s2]; [discriminate|].
  destruct ((d =? 0)%N && _); [discriminate|].
  destruct (parse_frac s2) as [[fs s3]|]; [|discriminate].
  destruct (parse_exp s3) as [[e s4]|]; [|discriminate].
  intros H. injection H as <- _. apply wf_of_decimal.
Qed.

Lemma nodup_keys_snoc (ks : list jstring) (k : jstring) :
  nodup_keys ks = true -> existsb (Str.eqb k) ks = false ->
  nodup_keys (ks ++ [k]) = true.
Proof.
  induction ks as [|k0 ks IH]; simpl; [reflexivity|].
  intros H E. apply andb_true_iff in H as [H1 H2].
  apply orb_false_iff in E as [E1 E2].
  apply andb_true_iff. split; [|apply IH; assumption].
  apply negb_true_iff. rewrite existsb_app. apply orb_false_iff. split.
  - apply negb_true_iff. exact H1.
  - simpl. rewrite eqb_sym, E1. reflexivity.
Qed.

Lemma forallb_set (P : json -> bool) (k : jstring) (v : json) (o : object) :
  forallb (fun kv => P (snd kv)) o = true -> P v = true ->
  forallb (fun kv => P (snd kv)) (Obj.set k v o) = true.
Proof.
  intros H Hv. induction o as [|[k' v'] o IH]; simpl.
  - rewrite Hv. reflexivity.
  - simpl in H. apply andb_true_iff in H as [H1 H2].
    destruct (Str.eqb k k'); simpl.
    + rewrite Hv, H2. reflexivity.
    + rewrite H1, IH by exact H2. reflexivity.
Qed.

(** Setting a property keeps an object well formed. *)
Lemma wf_set (k : jstring) (v : json) (o : object) :
  wf (JObj o) = true -> wf v = true -> wf (JObj (Obj.set k v o)) = true.
Proof.
  cbn [wf]. intros H Hv. apply andb_true_iff in H as [H1 H2].
  apply andb_true_iff. split.
  - fold (Obj.keys (Obj.set k v o)). rewrite keys_set.
    fold (Obj.keys o) in H1.
    destruct (existsb (Str.eqb k) (Obj.keys o)) eqn:E; [exact H1|].
    apply nodup_keys_snoc; assumption.
  - apply forallb_set; assumption.
Qed.

(** Every value that the reader returns is well formed. *)
Lemma parse_wf_fuel (fuel : nat) :
  (forall s v r, parse_value fuel s = Some (v, r) -> wf v = true)
  /\ (forall s acc v r,
        parse_elements fuel s acc = Some (v, r) ->
        forallb wf acc = true -> wf v = true)
  /\ (forall s acc v r,
        parse_members fuel s acc = Some (v, r) ->
        wf (JObj acc) = true -> wf v = true).
Proof.
  induction fuel as [|f (IHv & IHe & IHm)].
  { repeat split; intros; discriminate. }
  split; [|split].
  - intros s v r. cbn [parse_value].
    destruct (skip_ws s) as [|c t]; [discriminate|].
    destruct (c =? LBRACE)%N.
    { destruct (skip_ws t) as [|c' t']; [discriminate|].
      destruct (c' =? RBRACE)%N.
      - intros H. injection H as <- _. reflexivity.
      - intros H. apply (IHm _ _ _ _ H). reflexivity. }
    destruct (c =? LBRACK)%N.
    { destruct (skip_ws t) as [|c' t']; [discriminate|].
      destruct (c' =? RBRACK)%N.
      - intros H. injection H as <- _. reflexivity.
      - intros H. apply (IHe _ _ _ _ H). reflexivity. }
    destruct (c =? QUOTE)%N.
    { destruct (parse_chars t []) as [[str t']|]; [|discriminate].
      intros H. injection H as <- _. reflexivity. }
    destruct (strip_prefix (lit "true") (c :: t));
      [intros H; injection H as <- _; reflexivity|].
    destruct (strip_prefix (lit "false") (c :: t));
      [intros H; injection H as <- _; reflexivity|].
    destruct (strip_prefix (lit "null") (c :: t));
      [intros H; injection H as <- _; reflexivity|].
    destruct (parse_number (c :: t)) as [[n t']|] eqn:P; [|discriminate].
    intros H. injection H as <- _. exact (parse_number_wf _ P).
  - intros s acc v r. rewrite parse_elements_step.
    destruct (parse_value f s) as [[x t]|] eqn:P; [|discriminate].
    apply IHv in P.
    destruct (skip_ws t) as [|c t']; [discriminate|].
    assert (W : forallb wf acc = true -> forallb wf (acc ++ [x]) = true).
    { intros A. rewrite forallb_app, A. simpl. rewrite P. reflexivity. }
    destruct (c =? COMMA)%N.
    { intros H A. apply (IHe _ _ _ _ H). auto. }
    destruct (c =? RBRACK)%N; [|discriminate].
    intros H A. injection H as <- _. cbn [wf]. auto.
  - intros s acc v r. cbn [parse_members].
    destruct (skip_ws s) as [|q r0]; [discriminate|].
    destruct (q =? QUOTE)%N; [|discriminate].
    destruct (parse_chars r0 []) as [[k r1]|]; [|discriminate].
    destruct (skip_ws r1) as [|c r2]; [discriminate|].
    destruct (c =? COLON)%N; [|discriminate].
    destruct (parse_value f r2) as [[x r3]|] eqn:P; [|discriminate].
    apply IHv in P.
    destruct (skip_ws r3) as [|d r4]; [discriminate|].
    destruct (d =? COMMA)%N.
    { intros H A. apply (IHm _ _ _ _ H). apply wf_set; assumption. }
    destruct (d =? RBRACE)%N; [|discriminate].
    intros H A. injection H as <- _. apply wf_set; assumption.
Qed.

Lemma JSON_parse_wf (s : jstring) (v : json) :
  JSON_parse s = Some v -> wf v = true.
Proof.
  unfold JSON_parse.
  destruct (parse_value (S (length s)) s) as [[x r]|] eqn:P; [|discriminate].
  destruct (skip_ws r); [|discriminate].
  intros H. injection H as <-.
  destruct (parse_wf_fuel (S (length s))) as (Hv & _). exact (Hv _ _ _ P).
Qed.

(** The members of an object are read into an object. *)
Lemma parse_members_object (fuel : nat) (s : list N) (acc : object)
  (v : json) (r : list N) :
  parse_members fuel s acc = Some (v, r) -> exists o, v = JObj o.
Proof.
  revert s acc. induction fuel as [|f IH]; intros s acc; [discriminate|].
  cbn [parse_members].
  destruct (skip_ws s) as [|q r0]; [discriminate|].
  destruct (q =? QUOTE)%N; [|discriminate].
  destruct (parse_chars r0 []) as [[k r1]|]; [|discriminate].
  destruct (skip_ws r1) as [|c r2]; [discriminate|].
  destruct (c =? COLON)%N; [|discriminate].
  destruct (parse_value f r2) as [[x r3]|]; [|discriminate].
  destruct (skip_ws r3) as [|d r4]; [discriminate|].
  destruct (d =? COMMA)%N; [apply IH|].
  destruct (d =? RBRACE)%N; [|discriminate].
  intros H. injection H as <- _. eauto.
Qed.

(** A text that begins with an opening brace parses to an object, if it
    parses. *)
Lemma JSON_parse_brace (t : list N) (v : json) :
  JSON_parse (LBRACE :: t) = Some v -> exists o, v = JObj o.
Proof.
  unfold JSON_parse. rewrite parse_value_object.
  destruct (skip_ws t) as [|c' t']; [discriminate|].
  destruct (c' =? RBRACE)%N.
  - destruct (skip_ws t'); [|discriminate].
    intros H. injection H as <-. eauto.
  - destruct (parse_members _ _ _) as [[x r]|] eqn:P; [|discriminate].
    destruct (skip_ws r); [|discriminate].
    intros H. injection H as <-. exact (parse_members_object _ _ _ P).
Qed.

End ParseFacts.

(* ================================================================== *)
(** * Normalising twice *)

Module IdempotenceFacts.

Import Text Wf Reference ObjFacts CoverageFacts BackfillFacts ParseFacts ValueFacts
       RoundTrip.

Lemma upto_last_snoc (c : N) (l : list N) :
  upto_last c (l ++ [c]) = Some (l ++ [c]).
Proof.
  induction l as [|x l IH]; simpl.
  - rewrite N.eqb_refl. reflexivity.
  - rewrite IH. reflexivity.
Qed.

(** The text of an object is its own span between braces. *)
Lemma jsonMatch_object (o : object) :
  jsonMatch (JSON_stringify (JObj o)) = Some (JSON_stringify (JObj o)).
Proof.
  rewrite stringify_object. unfold jsonMatch. cbn [from_first].
  rewrite N.eqb_refl, upto_last_snoc. reflexivity.
Qed.

Lemma jsonMatch_brace (t span : jstring) :
  jsonMatch t = Some span -> exists body, span = LBRACE :: body.
Proof.
  unfold jsonMatch. destruct (from_first LBRACE t) as [after|];
    [|discriminate].
  destruct (upto_last RBRACE after) as [body|]; [|discriminate].
  intros H. injection H as <-. eauto.
Qed.

(** What [extract] returns is a well-formed object. *)
Lemma extract_object (t : jstring) (p : json) :
  extract t = Ok p -> wf p = true /\ exists o, p = JObj o.
Proof.
  unfold extract. destruct (jsonMatch t) as [span|] eqn:M.
  - destruct (JSON_parse span) as [v|] eqn:P; [|discriminate].
    intros H. injection H as <-. split; [exact (JSON_parse_wf _ P)|].
    destruct (jsonMatch_brace _ M) as [body ->].
    exact (JSON_parse_brace _ P).
  - intros H. injection H as <-. split; [reflexivity|].
    eexists. reflexivity.
Qed.

Lemma coverage_dec (word : jstring) (items : list json) (a : qnum) :
  area_of_label word items = Ok a ->
  exists z, coverage a = Dec z 0 /\ (0 <= z <= 100)%Z.
Proof.
  intros H. exists (coverage_reference word items).
  split; [exact (coverage_of_label _ _ H)|apply coverage_reference_range].
Qed.

Lemma wf_percent (z : Z) : (0 <= z <= 100)%Z -> wf (JNum (Dec z 0)) = true.
Proof.
  intros R. cbn [wf wf_num Num.canonical andb].
  apply andb_true_iff. split.
  - apply Z.ltb_lt.
    assert (B : (100 < Num.overflow_bound * Num.pow10 0)%Z)
      by (vm_compute; reflexivity).
    lia.
  - destruct (z =? 0)%Z eqn:E; [reflexivity|]. apply Z.eqb_neq in E.
    cbn [orb]. apply negb_true_iff, Z.leb_gt.
    change (Num.pow10 0) with 1%Z.
    assert (P : (1 < 2 ^ 1075)%Z) by (vm_compute; reflexivity).
    set (p := (2 ^ 1075)%Z) in *. nia.
Qed.

(** The guarded block keeps the object well formed. *)
Lemma derive_wf (o o' : object) (items : list json) :
  derive o items = Ok o' -> wf (JObj o) = true -> wf (JObj o') = true.
Proof.
  unfold derive. intros H W.
  destruct (area_of_label (lit "weed") items) as [wa|] eqn:Aw;
    [|discriminate].
  destruct (area_of_label (lit "crop") items) as [ca|] eqn:Ac;
    [|discriminate].
  cbn [bind] in H. injection H as <-.
  destruct (coverage_dec _ _ Aw) as (zw & -> & Rw).
  destruct (coverage_dec _ _ Ac) as (zc & -> & Rc).
  repeat match goal with
  | |- context [if ?b then _ else _] => destruct b
  end;
  repeat first [ assumption
               | apply wf_set; [|first [apply wf_percent; lia | reflexivity]] ].
Qed.

Lemma backfill_wf (p v : json) :
  backfill p = Ok v -> wf p = true -> wf v = true.
Proof.
  destruct p as [|b|n|s|l|o]; try discriminate;
    try (intros H; injection H as <-; auto).
  intros H W.
  destruct (backfill_object_inv _ H) as [[_ ->]|(its & o' & _ & D & ->)];
    [exact W|exact (@derive_wf _ _ _ D W)].
Qed.

(** The guarded block changes nothing the second time. *)
Lemma derive_again (o o' : object) (items : list json) :
  derive o items = Ok o' -> derive o' items = Ok o'.
Proof.
  intros D. destruct (derive_fields _ _ D)
    as (wa & ca & Aw & Ac & Lw & Lc & Lt & _).
  unfold derive. rewrite Aw, Ac. cbn [bind].
  destruct (coverage_dec _ _ Aw) as (zw & Ew & _).
  destruct (coverage_dec _ _ Ac) as (zc & Ec & _).
  assert (Mw : missing (Obj.lookup WEED_COVERAGE o') = false).
  { rewrite Lw. destruct (missing (Obj.lookup WEED_COVERAGE o)) eqn:M;
      [rewrite Ew; reflexivity|exact M]. }
  rewrite Mw.
  assert (Mc : missing (Obj.lookup HEALTHY_CROP_COVERAGE o') = false).
  { rewrite Lc.
    destruct (missing (Obj.lookup HEALTHY_CROP_COVERAGE o)) eqn:M;
      [rewrite Ec; reflexivity|exact M]. }
  rewrite Mc.
  assert (Mt : nullish (Obj.lookup TOTAL_AREA o') = false).
  { rewrite Lt. destruct (nullish (Obj.lookup TOTAL_AREA o)) eqn:M;
      [reflexivity|exact M]. }
  rewrite Mt. reflexivity.
Qed.

Lemma backfill_again (o : object) (v : json) :
  backfill (JObj o) = Ok v -> backfill v = Ok v.
Proof.
  intros H.
  destruct (backfill_object_inv _ H) as [[_ ->]|(its & o' & Hits & D & ->)];
    [exact H|].
  destruct (derive_fields _ _ D) as (_ & _ & _ & _ & _ & _ & _ & Fr).
  rewrite backfill_object, (Fr ITEMS) by reflexivity.
  rewrite Hits, (derive_again _ _ D). reflexivity.
Qed.

End IdempotenceFacts.

(* ================================================================== *)
(** * The fuel of the reader is enough *)

Module FuelFacts.

Import Text RoundTrip.

Lemma skip_ws_length (s : list N) : (length (skip_ws s) <= length s)%nat.
Proof.
  induction s as [|c s IH]; simpl; [lia|].
  destruct (is_ws c); simpl; lia.
Qed.

Lemma strip_prefix_length (p s r : jstring) :
  strip_prefix p s = Some r -> length s = (length p + length r)%nat.
Proof.
  revert s. induction p as [|x p IH]; intros [|y s]; simpl;
    try discriminate.
  - intros H. injection H as <-. reflexivity.
  - intros H. injection H as <-. reflexivity.
  - destruct (x =? y)%N; [|discriminate]. intros H. rewrite (IH _ H).
    reflexivity.
Qed.

Lemma take_digits_length (s ds r : list N) :
  take_digits s = (ds, r) -> length s = (length ds + length r)%nat.
Proof.
  revert ds r. induction s as [|c s IH]; intros ds r; simpl.
  - intros H. injection H as <- <-. reflexivity.
  - destruct (is_digit c).
    + destruct (take_digits s) as [ds' r'].
      intros H. injection H as <- <-. simpl. rewrite (IH _ _ eq_refl).
      reflexivity.
    + intros H. injection H as <- <-. reflexivity.
Qed.

Lemma parse_frac_length (s fs r : list N) :
  parse_frac s = Some (fs, r) -> (length r <= length s)%nat.
Proof.
  unfold parse_frac. destruct s as [|c s].
  - intros H. injection H as _ <-. lia.
  - destruct (c =? DOT)%N.
    + destruct (take_digits s) as [[|d ds] r'] eqn:T; [discriminate|].
      intros H. injection H as _ <-.
      apply take_digits_length in T. simpl in *. lia.
    + intros H. injection H as _ <-. lia.
Qed.

Lemma parse_exp_length (s : list N) (e : Z) (r : list N) :
  parse_exp s = Some (e, r) -> (length r <= length s)%nat.
Proof.
  unfold parse_exp. destruct s as [|c s].
  - intros H. injection H as _ <-. lia.
  - destruct ((c =? 101)%N || (c =? 69)%N).
    + destruct s as [|g s'].
      * simpl. discriminate.
      * destruct (g =? MINUS)%N.
        { destruct (take_digits s') as [[|d es] rest] eqn:T; [discriminate|].
          intros H. injection H as _ <-.
          apply take_digits_length in T. simpl in *. lia. }
        destruct (g =? PLUS)%N.
        { destruct (take_digits s') as [[|d es] rest] eqn:T; [discriminate|].
          intros H. injection H as _ <-.
          apply take_digits_length in T. simpl in *. lia. }
        destruct (take_digits (g :: s')) as [[|d es] rest] eqn:T;
          [discriminate|].
        intros H. injection H as _ <-.
        apply take_digits_length in T. simpl in *. lia.
    + intros H. injection H as _ <-. lia.
Qed.

Lemma parse_number_length (s : list N) (n : num) (r : list N) :
  parse_number s = Some (n, r) -> (length r < length s)%nat.
Proof.
  unfold parse_number, parse_magnitude.
  assert (Sg : (length (snd (parse_sign s)) <= length s)%nat).
  { unfold parse_sign. destruct s as [|c s]; [simpl; lia|].
    destruct (c =? MINUS)%N; simpl; lia. }
  destruct (parse_sign s) as [negative s1]. simpl in Sg.
  destruct (take_digits s1) as [[|d ip] s2] eqn:T; [discriminate|].
  apply take_digits_length in T.
  destruct ((d =? 0)%N && _); [discriminate|].
  destruct (parse_frac s2) as [[fs s3]|] eqn:Fr; [|discriminate].
  apply parse_frac_length in Fr.
  destruct (parse_exp s3) as [[e s4]|] eqn:Ex; [|discriminate].
  apply parse_exp_length in Ex.
  intros H. injection H as _ <-. simpl in T. lia.
Qed.

Lemma parse_chars_length_bounded (n : nat) (s : list N) (acc k : jstring)
  (r : list N) :
  (length s <= n)%nat -> parse_chars s acc = Some (k, r) ->
  (length r < length s)%nat.
Proof.
  revert s acc. induction n as [|n IH]; intros s acc L.
  - destruct s; [discriminate|simpl in L; lia].
  - destruct s as [|c s]; [discriminate|]. cbn [parse_chars].
    destruct (c =? QUOTE)%N.
    { intros H. injection H as _ <-. simpl. lia. }
    destruct (c =? BACKSLASH)%N.
    { destruct s as [|e s1]; [discriminate|].
      destruct (e =? 117)%N.
      - destruct s1 as [|h1 [|h2 [|h3 [|h4 s2]]]]; try discriminate.
        destruct (hex4 h1 h2 h3 h4); [|discriminate].
        intros H. apply IH in H; simpl in *; lia.
      - destruct (simple_escape e); [|discriminate].
        intros H. apply IH in H; simpl in *; lia. }
    destruct (c <? 32)%N; [discriminate|].
    intros H. apply IH in H; simpl in *; lia.
Qed.

Lemma parse_chars_length (s : list N) (acc k : jstring) (r : list N) :
  parse_chars s acc = Some (k, r) -> (length r < length s)%nat.
Proof. apply (parse_chars_length_bounded (n := length s)). lia. Qed.

(** A successful reading consumes at least one character, and succeeds
    with the same result on any fuel no smaller than the number of
    characters consumed. *)
Lemma parse_fuel_enough (fuel : nat) :
  (forall s v r,
     parse_value fuel s = Some (v, r) ->
     (length r < length s)%nat
     /\ forall g, (length s - length r <= g)%nat ->
                  parse_value g s = Some (v, r))
  /\ (forall s acc v r,
        parse_elements fuel s acc = Some (v, r) ->
        (length r < length s)%nat
        /\ forall g, (length s - length r <= g)%nat ->
                     parse_elements g s acc = Some (v, r))
  /\ (forall s acc v r,
        parse_members fuel s acc = Some (v, r) ->
        (length r < length s)%nat
        /\ forall g, (length s - length r <= g)%nat ->
                     parse_members g s acc = Some (v, r)).
Proof.
  induction fuel as [|f (IHv & IHe & IHm)].
  { repeat split; intros; discriminate. }
  split; [|split].
  - intros s v r. cbn [parse_value].
    pose proof (skip_ws_length s) as Ls.
    destruct (skip_ws s) as [|c t] eqn:Es; [discriminate|].
    cbn [length] in Ls.
    assert (Any : forall res : option (json * list N),
              res = Some (v, r) -> (length r <= length t)%nat ->
              (forall g0, parse_value (S g0) s = res) ->
              (length r < length s)%nat
              /\ forall g, (length s - length r <= g)%nat ->
                           parse_value g s = Some (v, r)).
    { intros res E L All. split; [lia|].
      intros [|g0] G; [lia|]. rewrite All. exact E. }
    destruct (c =? LBRACE)%N eqn:Eb.
    { pose proof (skip_ws_length t) as Lt.
      destruct (skip_ws t) as [|c' t'] eqn:Et; [discriminate|].
      cbn [length] in Lt.
      destruct (c' =? RBRACE)%N eqn:Er.
      - intros H. injection H as <- <-.
        apply (Any (Some (JObj [], t'))); [reflexivity|lia|].
        intros g0. cbn [parse_value]. rewrite Es, Eb, Et, Er. reflexivity.
      - intros H. destruct (IHm _ _ _ _ H) as [Lr Hg].
        cbn [length] in Lr, Hg. split; [lia|].
        intros [|g0] G; [lia|]. cbn [parse_value].
        rewrite Es, Eb, Et, Er. apply Hg. lia. }
    destruct (c =? LBRACK)%N eqn:Ek.
    { pose proof (skip_ws_length t) as Lt.
      destruct (skip_ws t) as [|c' t'] eqn:Et; [discriminate|].
      cbn [length] in Lt.
      destruct (c' =? RBRACK)%N eqn:Er.
      - intros H. injection H as <- <-.
        apply (Any (Some (JArr [], t'))); [reflexivity|lia|].
        intros g0. cbn [parse_value]. rewrite Es, Eb, Ek, Et, Er.
        reflexivity.
      - intros H. destruct (IHe _ _ _ _ H) as [Lr Hg].
        cbn [length] in Lr, Hg. split; [lia|].
        intros [|g0] G; [lia|]. cbn [parse_value].
        rewrite Es, Eb, Ek, Et, Er. apply Hg. lia. }
    destruct (c =? QUOTE)%N eqn:Eq.
    { destruct (parse_chars t []) as [[str t']|] eqn:P; [|discriminate].
      intros H. injection H as <- <-.
      pose proof P as LP. apply parse_chars_length in LP.
      apply (Any (Some (JStr str, t'))); [reflexivity|lia|].
      intros g0. cbn [parse_value]. rewrite Es, Eb, Ek, Eq, P.
      reflexivity. }
    intros H.
    apply (Any _ H).
    + destruct (strip_prefix (lit "true") (c :: t)) as [r'|] eqn:S1.
      { injection H as _ <-. apply strip_prefix_length in S1.
        simpl in S1. lia. }
      destruct (strip_prefix (lit "false") (c :: t)) as [r'|] eqn:S2.
      { injection H as _ <-. apply strip_prefix_length in S2.
        simpl in S2. lia. }
      destruct (strip_prefix (lit "null") (c :: t)) as [r'|] eqn:S3.
      { injection H as _ <-. apply strip_prefix_length in S3.
        simpl in S3. lia. }
      destruct (parse_number (c :: t)) as [[n r']|] eqn:P; [|discriminate].
      injection H as _ <-. apply parse_number_length in P.
      simpl in P. lia.
    + intros g0. cbn [parse_value]. rewrite Es, Eb, Ek, Eq. reflexivity.
  - intros s acc v r. rewrite parse_elements_step.
    destruct (parse_value f s) as [[x t]|] eqn:P; [|discriminate].
    destruct (IHv _ _ _ P) as [Lx Hx].
    pose proof (skip_ws_length t) as Lt.
    destruct (skip_ws t) as [|c t'] eqn:Et; [discriminate|].
    cbn [length] in Lt.
    destruct (c =? COMMA)%N eqn:Ec.
    { intros H. destruct (IHe _ _ _ _ H) as [Lr Hr]. split; [lia|].
      intros [|g0] G; [lia|]. rewrite parse_elements_step.
      rewrite Hx by lia. rewrite Et, Ec. apply Hr. lia. }
    destruct (c =? RBRACK)%N eqn:Er; [|discriminate].
    intros H. injection H as <- <-. split; [lia|].
    intros [|g0] G; [lia|]. rewrite parse_elements_step.
    rewrite Hx by lia. rewrite Et, Ec, Er. reflexivity.
  - intros s acc v r. cbn [parse_members].
    pose proof (skip_ws_length s) as Ls.
    destruct (skip_ws s) as [|q r0] eqn:Es; [discriminate|].
    cbn [length] in Ls.
    destruct (q =? QUOTE)%N eqn:Eq; [|discriminate].
    destruct (parse_chars r0 []) as [[k r1]|] eqn:Pk; [|discriminate].
    pose proof Pk as Lk. apply parse_chars_length in Lk.
    pose proof (skip_ws_length r1) as L1.
    destruct (skip_ws r1) as [|c r2] eqn:E1; [discriminate|].
    cbn [length] in L1.
    destruct (c =? COLON)%N eqn:Ec; [|discriminate].
    destruct (parse_value f r2) as [[x r3]|] eqn:P; [|discriminate].
    destruct (IHv _ _ _ P) as [Lx Hx].
    pose proof (skip_ws_length r3) as L3.
    destruct (skip_ws r3) as [|d r4] eqn:E3; [discriminate|].
    cbn [length] in L3.
    destruct (d =? COMMA)%N eqn:Ed.
    { intros H. destruct (IHm _ _ _ _ H) as [Lr Hr]. split; [lia|].
      intros [|g0] G; [lia|]. cbn [parse_members].
      rewrite Es, Eq, Pk, E1, Ec. rewrite Hx by lia.
      rewrite E3, Ed. apply Hr. lia. }
    destruct (d =? RBRACE)%N eqn:Er; [|discriminate].
    intros H. injection H as <- <-. split; [lia|].
    intros [|g0] G; [lia|]. cbn [parse_members].
    rewrite Es, Eq, Pk, E1, Ec. rewrite Hx by lia.
    rewrite E3, Ed, Er. reflexivity.
Qed.

(** The fuel that [JSON_parse] gives its reader, the length of the text
    and one, is enough: whatever parses with some fuel parses with it. *)
Theorem JSON_parse_fuel (s : jstring) (fuel : nat) (v : json) (r : list N) :
  parse_value fuel s = Some (v, r) ->
  parse_value (S (length s)) s = Some (v, r).
Proof.
  intros H. destruct (parse_fuel_enough fuel) as (Hv & _).
  destruct (Hv _ _ _ H) as [_ G]. apply G. lia.
Qed.

End FuelFacts.
(* ================================================================== *)
(** * The scenarios of the design, evaluated *)

(** The box [100,100,300,300] covers four hundredths of the image: the
    binary64 nearest to 0.04. *)
Example area_of_weed_patch :
  areaOf (Obj.lookup BOX_2D
            [ (BOX_2D, JArr [JNum (Dec 100 0); JNum (Dec 100 0);
                             JNum (Dec 300 0); JNum (Dec 300 0)]) ])
  = Ok (F64.round (4 # 100)).
Proof. vm_compute. reflexivity. Qed.

(** A box whose yMax is below its yMin has no area. *)
Example area_of_degenerate_box :
  areaOf (Some (JArr [JNum (Dec 300 0); JNum (Dec 100 0);
                      JNum (Dec 100 0); JNum (Dec 300 0)]))
  = Ok (QFin 0).
Proof. vm_compute. reflexivity. Qed.

(** A box that is not an array of four elements has no area. *)
Example area_of_short_box :
  areaOf (Some (JArr [JNum (Dec 0 0); JNum (Dec 0 0); JNum (Dec 9 0)]))
  = Ok (QFin 0)
  /\ areaOf (Some (JStr (lit "0,0,9,9"))) = Ok (QFin 0)
  /\ areaOf None = Ok (QFin 0).
Proof. repeat split. Qed.

(** The arithmetic is that of binary64: a third of a thousand by a
    tenth gives 0.00003333000000000001, not 0.00003333. *)
Example area_is_rounded :
  areaOf (Some (JArr [JNum (Dec 0 0); JNum (Dec 0 0);
                      JNum (Dec 3333 1); JNum (Dec 1 1)]))
  = Ok (QFin (1229659959953479 # 36893488147419103232))
  /\ F64.round (3333000000000001 # 100000000000000000000)
     = QFin (1229659959953479 # 36893488147419103232)
  /\ F64.round (3333 # 100000000)
     <> QFin (1229659959953479 # 36893488147419103232).
Proof.
  split; [vm_compute; reflexivity|].
  split; [vm_compute; reflexivity|].
  vm_compute. discriminate.
Qed.

(** A literal too small for binary64 is read as zero. *)
Example tiny_literal_is_zero :
  JSON_parse (text "[1e-400, 0.5e-323, 3e-324, 2e-324]")
  = Some (JArr [JNum (Dec 0 0); JNum (Dec 5 324); JNum (Dec 3 324);
                JNum (Dec 0 0)])
  /\ normalize (text "{'items':[{'label':1e-400}]}")
     = Ok (JObj [ (ITEMS, JArr [JObj [(LABEL, JNum (Dec 0 0))]]);
                  (WEED_COVERAGE, JNum (Dec 0 0));
                  (HEALTHY_CROP_COVERAGE, JNum (Dec 0 0));
                  (TOTAL_AREA, JNum (Dec 100 0)) ]).
Proof. split; vm_compute; reflexivity. Qed.

(** An object converts to ["[object Object]"], which is no number,
    unless it has a property [toString] of its own: then the conversion
    throws, also from inside an array. *)
Example conversions_of_objects :
  Number (Some (JObj [(lit "valueOf", JNum (Dec 1 0))])) = Ok QNaN
  /\ Number (Some Sample.trap) = Throw TypeError
  /\ Number (Some (JArr [JArr [Sample.trap]])) = Throw TypeError
  /\ Number (Some (JArr [JStr (lit "7")])) = Ok (QFin 7)
  /\ Number (Some (JArr [JNull])) = Ok (QFin 0).
Proof. repeat split. Qed.

(** A text that is not JSON at all gives the placeholder result. *)
Example normalize_not_json :
  normalize (text "not json at all")
  = Ok (JObj [ (ITEMS, JArr []);
               (WEED_COVERAGE, JNum (Dec 0 0));
               (HEALTHY_CROP_COVERAGE, JNum (Dec 100 0));
               (RECOMMENDATIONS,
                JArr [JStr (lit "Unable to analyze image details")]);
               (TOTAL_AREA, JNum (Dec 100 0)) ]).
Proof. reflexivity. Qed.

(** Stated coverages are kept, the total area is set to 100, and the
    text around the braces is ignored. *)
Example normalize_stated_coverages :
  normalize
    (text "here is the result: {'weedCoverage':30,'healthyCropCoverage':60,'items':[]} thanks")
  = Ok (JObj [ (WEED_COVERAGE, JNum (Dec 30 0));
               (HEALTHY_CROP_COVERAGE, JNum (Dec 60 0));
               (ITEMS, JArr []);
               (TOTAL_AREA, JNum (Dec 100 0)) ]).
Proof. vm_compute. reflexivity. Qed.

(** A crop over half of the image and a weed over a tenth of it. *)
Example normalize_two_items :
  exists o : object,
    normalize Sample.two_items_text = Ok (JObj o)
    /\ Obj.lookup WEED_COVERAGE o = Some (JNum (Dec 10 0))
    /\ Obj.lookup HEALTHY_CROP_COVERAGE o = Some (JNum (Dec 50 0))
    /\ Obj.lookup TOTAL_AREA o = Some (JNum (Dec 100 0)).
Proof. eexists. split; [vm_compute; reflexivity|]. repeat split. Qed.

(** A [null] item, or a label that is a number, makes the label test
    throw; a box that traps makes the area function throw when the item
    is counted, and is not looked at otherwise. *)
Example normalize_unreadable_items :
  normalize (text "{'items':[null]}") = Throw TypeError
  /\ normalize (text "{'items':[{'label':5}]}") = Throw TypeError
  /\ normalize Sample.trapped_weed_text = Throw TypeError
  /\ exists o : object,
       normalize
         (text "{'items':[{'label':'soil','box_2d':[{'toString':1},0,0,0]}]}")
       = Ok (JObj o).
Proof.
  split; [vm_compute; reflexivity|].
  split; [vm_compute; reflexivity|].
  split; [vm_compute; reflexivity|].
  eexists. vm_compute. reflexivity.
Qed.


(* ================================================================== *)
(** * The area function against its reference definition *)

Import Reference.



(* ================================================================== *)
(** * The life cycle of a record *)

(** The two sample states are reachable. *)
Lemma reachable_one_upload : Server.reachable Sample.one_upload.
Proof.
  eapply Server.steps_cons; [apply Server.steps_refl|].
  apply (Server.step_upload _ true).
Qed.

Lemma reachable_analysed : Server.reachable Sample.analysed.
Proof.
  eapply Server.steps_cons; [apply reachable_one_upload|].
  apply Server.step_finish. simpl. left. reflexivity.
Qed.

(** C8: in every state the server can reach, a record has its analysis
    if and only if its status is [completed]; every transition carries
    out at most one statement on the table; a record found in a terminal
    state after a transition either was there unchanged before it, or
    was [processing] before it and got, by that one statement, either
    the status [completed] together with its raw output and its
    analysis, or the status [failed] and nothing else; and a worker gets
    at most one statement carried out, one of these two. *)
Theorem analysis_iff_completed :
  forall s : server,
    Server.reachable s ->
    (forall r : row, In r (images (db s)) ->
       (Server.has_analysis r = true <-> status r = completed))
    /\ (forall t : server, Server.step s t ->
          (db t = db s \/ exists st : statement, db t = Db.exec st (db s))
          /\ forall r' : row,
               In r' (images (db t)) ->
               Server.terminal (status r') = true ->
               In r' (images (db s))
               \/ exists r : row,
                    In r (images (db s))
                    /\ status r = processing
                    /\ id r' = id r
                    /\ ((status r' = completed
                         /\ Server.has_analysis r' = true
                         /\ analysis_result r' <> None)
                        \/ (status r' = failed
                            /\ Server.same_but_status r r')))
    /\ (forall (w : world) (i : Z),
          Worker.writes w i = []
          \/ (exists raw seg : jstring,
                Worker.writes w i = [UpdateCompleted i raw seg])
          \/ Worker.writes w i = [UpdateFailed i]).
Proof.
  intros s R.
  pose proof (ServerFacts.consistent_reachable R) as Cs.
  split; [|split].
  - intros r Hr. destruct (Cs r Hr) as (A & _). exact A.
  - intros t St. clear R. revert Cs.
    destruct St as [s0 carried_out user name path now|s0 w i Hi|s0 d user i];
      intros Cs.
    + unfold Server.upload. destruct carried_out.
      * split; [right; exists (InsertImage user name path now);
                reflexivity|].
        intros r' Hr' T. simpl in Hr'.
        apply in_app_or in Hr' as [Hr'|[<-|[]]]; [now left|discriminate].
      * split; [left; reflexivity|]. intros r' Hr' _. now left.
    + unfold Server.finish.
      destruct (WorkerFacts.writes_outcome w i) as [|raw v _|].
      * split; [left; reflexivity|]. intros r' Hr' _. now left.
      * split; [right; exists (UpdateCompleted i raw (JSON_stringify v));
                reflexivity|].
        intros r' Hr' _. simpl in Hr'.
        apply in_map_iff in Hr' as (r & <- & Hr).
        destruct (DbFacts.set_completed_fields i raw (JSON_stringify v) r)
          as (Eid & _ & Hit & Hother).
        destruct (Z.eq_dec (id r) i) as [E|NE].
        -- right. exists r. destruct (Hit E) as (Hraw & Hseg & Hst).
           destruct (Cs r Hr) as (_ & P & _).
           repeat split; try assumption.
           ++ apply P. rewrite E. exact Hi.
           ++ left. unfold Server.has_analysis. rewrite Hraw, Hseg.
              repeat split; try assumption; discriminate.
        -- left. rewrite (Hother NE). exact Hr.
      * split; [right; exists (UpdateFailed i); reflexivity|].
        intros r' Hr' _. simpl in Hr'.
        apply in_map_iff in Hr' as (r & <- & Hr).
        destruct (DbFacts.set_failed_frame i r)
          as (H1 & H2 & H3 & H4 & H5 & H6 & H7 & H8).
        destruct (id r =? i)%Z eqn:E.
        -- right. exists r. apply Z.eqb_eq in E.
           destruct (Cs r Hr) as (_ & P & _).
           repeat split; try assumption.
           ++ apply P. rewrite E. exact Hi.
           ++ right. unfold Server.same_but_status.
              repeat split; assumption.
        -- left. unfold Db.set_failed. rewrite E. exact Hr.
    + unfold Server.delete, Routes.delete.
      destruct (Routes.select_ok d);
        [cbn [negb]|split; [left; reflexivity|]; intros r' Hr' _; now left].
      destruct (Db.get i user (db s0));
        [|split; [left; reflexivity|]; intros r' Hr' _; now left].
      destruct (Routes.delete_ok d);
        [|split; [left; reflexivity|]; intros r' Hr' _; now left].
      split; [right; exists (DeleteImage i); reflexivity|].
      intros r' Hr' _. simpl in Hr'. apply filter_In in Hr' as [Hr' _].
      now left.
  - intros w i. destruct (WorkerFacts.writes_outcome w i).
    + left. reflexivity.
    + right. left. eauto.
    + right. right. reflexivity.
Qed.

(** C8 at the state reached by one upload followed by the end of its
    worker on a response that is not JSON. *)
Lemma analysis_iff_completed_witness :
  (forall r : row, In r (images (db Sample.analysed)) ->
     (Server.has_analysis r = true <-> status r = completed))
  /\ (forall t : server, Server.step Sample.analysed t ->
        (db t = db Sample.analysed
         \/ exists st : statement, db t = Db.exec st (db Sample.analysed))
        /\ forall r' : row,
             In r' (images (db t)) ->
             Server.terminal (status r') = true ->
             In r' (images (db Sample.analysed))
             \/ exists r : row,
                  In r (images (db Sample.analysed))
                  /\ status r = processing
                  /\ id r' = id r
                  /\ ((status r' = completed
                       /\ Server.has_analysis r' = true
                       /\ analysis_result r' <> None)
                      \/ (status r' = failed
                          /\ Server.same_but_status r r')))
  /\ (forall (w : world) (i : Z),
        Worker.writes w i = []
        \/ (exists raw seg : jstring,
              Worker.writes w i = [UpdateCompleted i raw seg])
        \/ Worker.writes w i = [UpdateFailed i]).
Proof.
  apply (@analysis_iff_completed Sample.analysed).
  exact reachable_analysed.
Defined.

(** C9: when the database carries out its statements, deleting a
    record of the requesting user answers 200 whatever the state of the
    upload directory (the file may be missing, its removal may be
    refused), and from then on, after any further activity of the
    server, the record is found for no user and no listing contains
    it. *)
Theorem delete_removes_record :
  forall (s : server) (fs : Routes.files) (d : Routes.deletion)
         (user i : Z) (r : row),
    Server.reachable s ->
    Routes.select_ok d = true -> Routes.delete_ok d = true ->
    Db.get i user (db s) = Some r ->
    fst (fst (Routes.delete d user i (db s) fs)) = Json200 tt
    /\ forall t : server,
         Server.steps
           (Server.delete d user i (mkServer (db s) fs (workers s))) t ->
         (forall u : Z, Db.get i u (db t) = None)
         /\ forall (carried_out : bool) (u : Z)
                   (ps : list Routes.processed) (p : Routes.processed),
              Routes.list_images carried_out u (db t) = Json200 ps ->
              In p ps -> id (fst p) <> i.
Proof.
  intros s fs d user i r R Sel Del G.
  split.
  - unfold Routes.delete. rewrite Sel, G, Del. reflexivity.
  - intros t St.
    assert (Gone : Server.gone i
              (Server.delete d user i (mkServer (db s) fs (workers s)))).
    { unfold Server.delete, Routes.delete. simpl. rewrite Sel, G, Del.
      destruct (DbFacts.get_some _ _ _ G) as (Hin & Hid & _).
      destruct (ServerFacts.consistent_reachable R r Hin) as (_ & _ & B).
      split; simpl.
      - intros x Hx. apply filter_In in Hx as [_ Hx].
        apply negb_true_iff, Z.eqb_neq in Hx. exact Hx.
      - lia. }
    pose proof (ServerFacts.gone_steps St Gone) as GoneT.
    split.
    + intros u. apply ServerFacts.get_gone. exact GoneT.
    + intros carried_out u ps p L Hp. destruct GoneT as [NoRow _].
      apply NoRow.
      destruct (ServerFacts.list_images_rows _ _ _ _ L Hp) as [Hin _].
      exact Hin.
Qed.

(** C9 at the state reached by one upload, with an empty upload
    directory and a removal that is refused. *)
Lemma delete_removes_record_witness :
  fst (fst (Routes.delete Sample.refused 7 1 (db Sample.one_upload) []))
  = Json200 tt
  /\ forall t : server,
       Server.steps
         (Server.delete Sample.refused 7 1
            (mkServer (db Sample.one_upload) [] (workers Sample.one_upload)))
         t ->
       (forall u : Z, Db.get 1 u (db t) = None)
       /\ forall (carried_out : bool) (u : Z)
                 (ps : list Routes.processed) (p : Routes.processed),
            Routes.list_images carried_out u (db t) = Json200 ps ->
            In p ps -> id (fst p) <> 1%Z.
Proof.
  apply (@delete_removes_record Sample.one_upload [] Sample.refused 7 1
           (mkRow 1 7 (lit "field.png") (lit "/uploads/image-1.png")
                  None None processing 1000)).
  - exact reachable_one_upload.
  - reflexivity.
  - reflexivity.
  - reflexivity.
Defined.

(** C10: when the worker takes the transition to [failed], the only
    statement it gets carried out is [UPDATE images SET status = 'failed'];
    every row keeps its identifier, owner, names, raw model output,
    analysis and creation time, only the status of the rows of that id
    changes, and the counter of the table is untouched. *)
Theorem failed_write_touches_status_only :
  forall (w : world) (i : Z) (d : database),
    In (UpdateFailed i) (Worker.writes w i) ->
    Worker.writes w i = [UpdateFailed i]
    /\ last_id (Db.exec_all (Worker.writes w i) d) = last_id d
    /\ Forall2
         (fun r r' : row =>
            Server.same_but_status r r'
            /\ status r' = if (id r =? i)%Z then failed else status r)
         (images d) (images (Db.exec_all (Worker.writes w i) d)).
Proof.
  intros w i d Hin.
  assert (E : Worker.writes w i = [UpdateFailed i]).
  { destruct (WorkerFacts.writes_outcome w i) as [|raw v _|].
    - destruct Hin.
    - destruct Hin as [Hin|[]]. discriminate.
    - reflexivity. }
  rewrite E. split; [reflexivity|]. split; [reflexivity|].
  simpl. induction (images d) as [|r l IH]; simpl; constructor; auto.
  destruct (DbFacts.set_failed_frame i r)
    as (H1 & H2 & H3 & H4 & H5 & H6 & H7 & H8).
  unfold Server.same_but_status. repeat split; assumption.
Qed.

(** C10 in a world where the file cannot be read. *)
Lemma failed_write_touches_status_only_witness :
  Worker.writes Sample.unreadable 1 = [UpdateFailed 1]
  /\ last_id (Db.exec_all (Worker.writes Sample.unreadable 1)
                          (db Sample.analysed))
     = last_id (db Sample.analysed)
  /\ Forall2
       (fun r r' : row =>
          Server.same_but_status r r'
          /\ status r' = if (id r =? 1)%Z then failed else status r)
       (images (db Sample.analysed))
       (images (Db.exec_all (Worker.writes Sample.unreadable 1)
                            (db Sample.analysed))).
Proof.
  apply (@failed_write_touches_status_only Sample.unreadable 1
           (db Sample.analysed)).
  simpl. left. reflexivity.
Defined.

(* ================================================================== *)
(** * The normaliser *)

Import BackfillFacts.

(** On a text with a span that parses, [normalize] is [backfill] on the
    parsed payload. *)
Lemma normalize_parsed (t span : jstring) (p : json) :
  jsonMatch t = Some span -> JSON_parse span = Some p ->
  normalize t = backfill p.
Proof.
  intros M P. unfold normalize, extract. rewrite M, P. reflexivity.
Qed.





(** C4, as stated, fails: a weed coverage of 500 stated by the payload is
    stored as 500. *)
Lemma stated_coverage_is_not_clamped :
  exists o : object,
    normalize Sample.oversized_text = Ok (JObj o)
    /\ Obj.lookup WEED_COVERAGE o = Some (JNum (Dec 500 0))
    /\ percentage (Obj.lookup WEED_COVERAGE o) = false.
Proof.
  eexists. split; [vm_compute; reflexivity|]. split; reflexivity.
Qed.

(** C4, amended: for every text whose span parses to an object, a
    coverage that the backfilling step derives (the items are an array
    and the field is absent, null or NaN) is a number between 0 and 100;
    a coverage stated by the payload is kept as it is, whatever its
    magnitude. *)
Theorem derived_coverage_in_range :
  forall (t : jstring) (o o' : object),
    extract t = Ok (JObj o) ->
    normalize t = Ok (JObj o') ->
    (Array_isArray (Obj.lookup ITEMS o) = true ->
     missing (Obj.lookup WEED_COVERAGE o) = true ->
     percentage (Obj.lookup WEED_COVERAGE o') = true)
    /\ (Array_isArray (Obj.lookup ITEMS o) = true ->
        missing (Obj.lookup HEALTHY_CROP_COVERAGE o) = true ->
        percentage (Obj.lookup HEALTHY_CROP_COVERAGE o') = true)
    /\ (missing (Obj.lookup WEED_COVERAGE o) = false ->
        Obj.lookup WEED_COVERAGE o' = Obj.lookup WEED_COVERAGE o)
    /\ (missing (Obj.lookup HEALTHY_CROP_COVERAGE o) = false ->
        Obj.lookup HEALTHY_CROP_COVERAGE o'
        = Obj.lookup HEALTHY_CROP_COVERAGE o).
Proof.
  intros t o o' E N. unfold normalize in N. rewrite E in N. cbn [bind] in N.
  assert (P : forall word its,
            percentage (Some (JNum (Dec (coverage_reference word its) 0)))
            = true).
  { intros word its. pose proof (coverage_reference_range word its) as R.
    unfold percentage. apply andb_true_iff. split.
    - apply Z.leb_le. lia.
    - apply Z.leb_le. change (Num.pow10 0) with 1%Z. lia. }
  destruct (backfill_object_inv _ N) as [[NA Ev]|(its & o1 & Hits & D & Ev)];
    injection Ev as ->.
  - repeat split; intros; try reflexivity; congruence.
  - destruct (derive_fields _ _ D) as (wa & ca & W & Cr & Lw & Lc & _).
    repeat split.
    + intros _ M. rewrite Lw, M, (coverage_of_label _ _ W). apply P.
    + intros _ M. rewrite Lc, M, (coverage_of_label _ _ Cr). apply P.
    + intros M. rewrite Lw, M. reflexivity.
    + intros M. rewrite Lc, M. reflexivity.
Qed.

(** C4 at the text of the "Weed patch" scenario, whose coverages are
    derived. *)
Lemma derived_coverage_in_range_witness :
  (Array_isArray (Obj.lookup ITEMS Sample.weed_patch_payload) = true ->
   missing (Obj.lookup WEED_COVERAGE Sample.weed_patch_payload) = true ->
   percentage
     (Obj.lookup WEED_COVERAGE
        Sample.weed_patch_result) = true)
  /\ (Array_isArray (Obj.lookup ITEMS Sample.weed_patch_payload) = true ->
      missing (Obj.lookup HEALTHY_CROP_COVERAGE Sample.weed_patch_payload)
      = true ->
      percentage
        (Obj.lookup HEALTHY_CROP_COVERAGE
           Sample.weed_patch_result) = true)
  /\ (missing (Obj.lookup WEED_COVERAGE Sample.weed_patch_payload) = false ->
      Obj.lookup WEED_COVERAGE
        Sample.weed_patch_result
      = Obj.lookup WEED_COVERAGE Sample.weed_patch_payload)
  /\ (missing (Obj.lookup HEALTHY_CROP_COVERAGE Sample.weed_patch_payload)
      = false ->
      Obj.lookup HEALTHY_CROP_COVERAGE
        Sample.weed_patch_result
      = Obj.lookup HEALTHY_CROP_COVERAGE Sample.weed_patch_payload).
Proof.
  apply (@derived_coverage_in_range Sample.weed_patch_text
           Sample.weed_patch_payload Sample.weed_patch_result).
  - vm_compute. reflexivity.
  - vm_compute. reflexivity.
Defined.



(** C6, as stated, fails: the payload [{}] is stored as [{}], without
    items, without recommendations and without a total area. *)
Lemma absent_fields_are_not_defaulted :
  exists o : object,
    normalize (text "{}") = Ok (JObj o)
    /\ Obj.lookup ITEMS o = None
    /\ Obj.lookup RECOMMENDATIONS o = None
    /\ Obj.lookup TOTAL_AREA o = None.
Proof.
  exists []. split; [vm_compute; reflexivity|]. repeat split.
Qed.

(** C6, amended: the backfilling step leaves the items and the
    recommendations exactly as parsed, absent when they were absent; the
    total area is set to 100 when it is absent or null and the items are
    an array, and is left as parsed when the items are not an array. *)
Theorem backfill_keeps_items_and_recommendations :
  forall (o : object) (v : json),
    backfill (JObj o) = Ok v ->
    exists o' : object,
      v = JObj o'
      /\ Obj.lookup ITEMS o' = Obj.lookup ITEMS o
      /\ Obj.lookup RECOMMENDATIONS o' = Obj.lookup RECOMMENDATIONS o
      /\ (Array_isArray (Obj.lookup ITEMS o) = true ->
          nullish (Obj.lookup TOTAL_AREA o) = true ->
          Obj.lookup TOTAL_AREA o' = Some (JNum (Dec 100 0)))
      /\ (Array_isArray (Obj.lookup ITEMS o) = false ->
          Obj.lookup TOTAL_AREA o' = Obj.lookup TOTAL_AREA o).
Proof.
  intros o v H.
  destruct (backfill_object_inv _ H) as [[NA ->]|(its & o1 & Hits & D & ->)].
  - exists o. repeat split; try reflexivity. congruence.
  - exists o1. split; [reflexivity|].
    destruct (derive_fields _ _ D) as (wa & ca & _ & _ & _ & _ & Lt & Fr).
    repeat split.
    + apply Fr; reflexivity.
    + apply Fr; reflexivity.
    + intros _ N. rewrite Lt, N. reflexivity.
    + rewrite Hits. discriminate.
Qed.

(** C6 at the payload of the "Weed patch" scenario. *)
Lemma backfill_keeps_items_and_recommendations_witness :
  exists o' : object,
    JObj Sample.weed_patch_result = JObj o'
    /\ Obj.lookup ITEMS o' = Obj.lookup ITEMS Sample.weed_patch_payload
    /\ Obj.lookup RECOMMENDATIONS o'
       = Obj.lookup RECOMMENDATIONS Sample.weed_patch_payload
    /\ (Array_isArray (Obj.lookup ITEMS Sample.weed_patch_payload) = true ->
        nullish (Obj.lookup TOTAL_AREA Sample.weed_patch_payload) = true ->
        Obj.lookup TOTAL_AREA o' = Some (JNum (Dec 100 0)))
    /\ (Array_isArray (Obj.lookup ITEMS Sample.weed_patch_payload) = false ->
        Obj.lookup TOTAL_AREA o'
        = Obj.lookup TOTAL_AREA Sample.weed_patch_payload).
Proof.
  apply (@backfill_keeps_items_and_recommendations Sample.weed_patch_payload
           (JObj Sample.weed_patch_result)).
  vm_compute. reflexivity.
Defined.

(* ================================================================== *)
(** * Responses that are not JSON *)

(** Without a span between braces the worker stores the fallback, with
    a total area of 100, and the record is completed. *)
Lemma no_span_completes (t : jstring) (i : Z) :
  jsonMatch t = None ->
  normalize t
  = Ok (JObj [ (ITEMS, JArr []);
               (WEED_COVERAGE, JNum (Dec 0 0));
               (HEALTHY_CROP_COVERAGE, JNum (Dec 100 0));
               (RECOMMENDATIONS,
                JArr [JStr (lit "Unable to analyze image details")]);
               (TOTAL_AREA, JNum (Dec 100 0)) ])
  /\ exists seg : jstring,
       Worker.analyzeImage (Sample.answering t) i
       = Ok [UpdateCompleted i t seg].
Proof.
  intros M.
  assert (N : normalize t
              = Ok (JObj [ (ITEMS, JArr []);
                           (WEED_COVERAGE, JNum (Dec 0 0));
                           (HEALTHY_CROP_COVERAGE, JNum (Dec 100 0));
                           (RECOMMENDATIONS,
                            JArr [JStr (lit "Unable to analyze image details")]);
                           (TOTAL_AREA, JNum (Dec 100 0)) ])).
  { unfold normalize, extract. rewrite M. reflexivity. }
  split; [exact N|].
  unfold Worker.analyzeImage, Worker.try_block, Sample.answering.
  cbn [readFile generateContent run_completed bind]. rewrite N.
  cbn [bind Worker.db_run]. eexists. reflexivity.
Qed.

(** C1, the case the code misses: whenever the span between braces is
    rejected by [JSON.parse], the exception reaches the handler of the
    worker and the one statement carried out marks the record [failed].
    On the response ["Result: {oops}"] the span [{oops}] is found and is
    rejected whatever the fuel of the reader. *)
Theorem unparsable_span_marks_failed :
  (forall (t span : jstring) (i : Z),
     jsonMatch t = Some span -> JSON_parse span = None ->
     normalize t = Throw SyntaxError
     /\ Worker.analyzeImage (Sample.answering t) i = Ok [UpdateFailed i])
  /\ jsonMatch Sample.unparsable_text = Some (text "{oops}")
  /\ (forall fuel : nat, Text.parse_value fuel (text "{oops}") = None)
  /\ (forall i : Z,
        Worker.analyzeImage (Sample.answering Sample.unparsable_text) i
        = Ok [UpdateFailed i]).
Proof.
  split; [|split; [|split]].
  - intros t span i M P.
    assert (N : normalize t = Throw SyntaxError).
    { unfold normalize, extract. rewrite M, P. reflexivity. }
    split; [exact N|].
    unfold Worker.analyzeImage, Worker.try_block, Sample.answering.
    cbn [readFile generateContent run_completed run_failed bind].
    rewrite N. reflexivity.
  - reflexivity.
  - intros [|[|fuel]]; reflexivity.
  - intros i. reflexivity.
Qed.

(* ================================================================== *)
(** * Normalising the serialised result *)

Import IdempotenceFacts.

(** C7, as stated, fails: the literal [1e999] is read as [Infinity] and
    kept as the weed coverage; [JSON.stringify] writes it [null]; the
    second pass then derives the coverage from the boxes and stores 0. *)
Lemma normalize_not_idempotent_on_overflow :
  normalize Sample.overflowing_text = Ok Sample.overflowing_result
  /\ JSON_stringify Sample.overflowing_result
     = text "{'weedCoverage':null,'items':[],'healthyCropCoverage':0,'totalArea':100}"
  /\ normalize (JSON_stringify Sample.overflowing_result)
     = Ok Sample.overflowing_result_again
  /\ Sample.overflowing_result <> Sample.overflowing_result_again.
Proof.
  split; [vm_compute; reflexivity|].
  split; [vm_compute; reflexivity|].
  split; [vm_compute; reflexivity|].
  discriminate.
Qed.

(** C7, amended: for every text on which the normaliser returns a
    result all of whose numbers are finite, normalising the serialised
    result returns the same result. *)
Theorem normalize_idempotent_on_finite :
  forall (t : jstring) (v : json),
    normalize t = Ok v ->
    Wf.finite v = true ->
    normalize (JSON_stringify v) = Ok v.
Proof.
  intros t v N F. unfold normalize in N.
  destruct (extract t) as [p|] eqn:E; [|discriminate].
  cbn [bind] in N.
  destruct (extract_object _ E) as [Wp [o ->]].
  pose proof (backfill_wf _ N Wp) as Wv.
  pose proof (backfill_again _ N) as Again.
  assert (O : exists o', v = JObj o').
  { destruct (backfill_object_inv _ N) as [[_ ->]|(its & o' & _ & _ & ->)];
      eauto. }
  destruct O as [o' ->].
  unfold normalize, extract.
  rewrite jsonMatch_object, (RoundTrip.parse_stringify _ Wv F).
  exact Again.
Qed.

(** C7 at the text of the "Weed patch" scenario. *)
Lemma normalize_idempotent_on_finite_witness :
  normalize (JSON_stringify (JObj Sample.weed_patch_result))
  = Ok (JObj Sample.weed_patch_result).
Proof.
  apply (@normalize_idempotent_on_finite Sample.weed_patch_text
           (JObj Sample.weed_patch_result)).
  - vm_compute. reflexivity.
  - reflexivity.
Defined.

(* ================================================================== *)
(** * The span between braces *)

Module MatchFacts.

Import Span.

Lemma from_first_app (c : N) (pre rest : jstring) :
  without c pre = true -> from_first c (pre ++ c :: rest) = Some rest.
Proof.
  induction pre as [|x pre IH]; simpl; intros H.
  - rewrite N.eqb_refl. reflexivity.
  - apply andb_true_iff in H as [H1 H2].
    apply negb_true_iff in H1. rewrite H1. auto.
Qed.

Lemma from_first_inv (c : N) (s rest : jstring) :
  from_first c s = Some rest ->
  exists pre, s = pre ++ c :: rest /\ without c pre = true.
Proof.
  revert rest. induction s as [|x s IH]; simpl; intros rest H;
    [discriminate|].
  destruct (x =? c)%N eqn:E.
  - injection H as <-. apply N.eqb_eq in E. subst x.
    exists []. split; reflexivity.
  - destruct (IH _ H) as (pre & -> & W).
    exists (x :: pre). split; [reflexivity|]. simpl. rewrite E. exact W.
Qed.

Lemma from_first_none (c : N) (s : jstring) :
  from_first c s = None -> without c s = true.
Proof.
  induction s as [|x s IH]; simpl; intros H; [reflexivity|].
  destruct (x =? c)%N; [discriminate|]. simpl. auto.
Qed.

Lemma upto_last_none (c : N) (s : jstring) :
  upto_last c s = None -> without c s = true.
Proof.
  induction s as [|x s IH]; simpl; intros H; [reflexivity|].
  destruct (upto_last c s); [discriminate|].
  destruct (x =? c)%N; [discriminate|]. simpl. auto.
Qed.

Lemma upto_last_without (c : N) (s : jstring) :
  without c s = true -> upto_last c s = None.
Proof.
  induction s as [|x s IH]; simpl; intros H; [reflexivity|].
  apply andb_true_iff in H as [H1 H2]. apply negb_true_iff in H1.
  rewrite (IH H2), H1. reflexivity.
Qed.

Lemma upto_last_app (c : N) (mid post : jstring) :
  without c post = true ->
  upto_last c (mid ++ c :: post) = Some (mid ++ [c]).
Proof.
  intros W. induction mid as [|x mid IH]; simpl.
  - rewrite (@upto_last_without _ _ W), N.eqb_refl. reflexivity.
  - rewrite IH. reflexivity.
Qed.

Lemma upto_last_inv (c : N) (s p : jstring) :
  upto_last c s = Some p ->
  exists mid post,
    s = mid ++ c :: post /\ p = mid ++ [c] /\ without c post = true.
Proof.
  revert p. induction s as [|x s IH]; simpl; intros p H; [discriminate|].
  destruct (upto_last c s) as [q|] eqn:U.
  - injection H as <-. destruct (IH _ eq_refl) as (mid & post & -> & -> & W).
    exists (x :: mid), post. repeat split. exact W.
  - destruct (x =? c)%N eqn:E; [|discriminate].
    injection H as <-. apply N.eqb_eq in E. subst x.
    exists [], s. repeat split. apply upto_last_none. exact U.
Qed.

(** A closing brace somewhere: the search from the right finds one. *)
Lemma upto_last_some (c : N) (a b : jstring) :
  exists p, upto_last c (a ++ c :: b) = Some p.
Proof.
  induction a as [|x a IH]; simpl.
  - destruct (upto_last c b); [eauto|]. rewrite N.eqb_refl. eauto.
  - destruct IH as [p ->]. eauto.
Qed.

Lemma jsonMatch_app (pre mid post : jstring) :
  without LBRACE pre = true -> without RBRACE post = true ->
  jsonMatch (pre ++ LBRACE :: mid ++ RBRACE :: post)
  = Some (LBRACE :: mid ++ [RBRACE]).
Proof.
  intros Wp Wq. unfold jsonMatch.
  rewrite (@from_first_app _ _ _ Wp), (@upto_last_app _ _ _ Wq). reflexivity.
Qed.

End MatchFacts.

(** X1: the search for the JSON of a response finds the text from the first
    opening brace to the last closing brace: a text made of a prefix
    without opening brace, a span between braces and a suffix without
    closing brace has that span as its match; every match arises in
    this way; and there is no match exactly when no opening brace of
    the text is followed, anywhere, by a closing brace. *)
Theorem jsonMatch_first_to_last :
  (forall pre mid post : jstring,
     Span.without LBRACE pre = true -> Span.without RBRACE post = true ->
     jsonMatch (pre ++ LBRACE :: mid ++ RBRACE :: post)
     = Some (LBRACE :: mid ++ [RBRACE]))
  /\ (forall t span : jstring,
        jsonMatch t = Some span ->
        exists pre mid post : jstring,
          t = pre ++ span ++ post
          /\ span = LBRACE :: mid ++ [RBRACE]
          /\ Span.without LBRACE pre = true
          /\ Span.without RBRACE post = true)
  /\ (forall t : jstring,
        jsonMatch t = None <->
        (forall a b c : jstring, t <> a ++ LBRACE :: b ++ RBRACE :: c)).
Proof.
  split; [|split].
  - exact MatchFacts.jsonMatch_app.
  - intros t span H. unfold jsonMatch in H.
    destruct (from_first LBRACE t) as [after|] eqn:F; [|discriminate].
    destruct (upto_last RBRACE after) as [body|] eqn:U; [|discriminate].
    injection H as <-.
    destruct (@MatchFacts.from_first_inv _ _ _ F) as (pre & -> & Wp).
    destruct (@MatchFacts.upto_last_inv _ _ _ U) as (mid & post & -> & -> & Wq).
    exists pre, mid, post. repeat split; try assumption.
    simpl. rewrite <- app_assoc. reflexivity.
  - intros t. split.
    + intros H a b c ->. unfold jsonMatch in H.
      destruct (from_first LBRACE (a ++ LBRACE :: b ++ RBRACE :: c))
        as [after|] eqn:F.
      * destruct (@MatchFacts.from_first_inv _ _ _ F) as (pre & E & Wp).
        assert (S : exists u, after = u ++ RBRACE :: c).
        { clear H F. revert a E.
          induction pre as [|x pre IH]; intros [|y a] E; simpl in E.
          - injection E as E. subst after. eauto.
          - injection E as E1 E2. subst y after.
            exists (a ++ LBRACE :: b). rewrite <- app_assoc. reflexivity.
          - injection E as E1 E2. subst x. discriminate Wp.
          - injection E as E1 E2. simpl in Wp.
            apply andb_true_iff in Wp as [_ Wp]. exact (IH Wp _ E2). }
        destruct S as [u ->].
        destruct (MatchFacts.upto_last_some RBRACE u c) as [p P].
        rewrite P in H. discriminate.
      * apply MatchFacts.from_first_none in F. unfold Span.without in F.
        rewrite forallb_app in F. apply andb_true_iff in F as [_ F].
        discriminate F.
    + intros H. destruct (jsonMatch t) as [span|] eqn:M; [|reflexivity].
      exfalso. unfold jsonMatch in M.
      destruct (from_first LBRACE t) as [after|] eqn:F; [|discriminate].
      destruct (upto_last RBRACE after) as [body|] eqn:U; [|discriminate].
      destruct (@MatchFacts.from_first_inv _ _ _ F) as (pre & -> & _).
      destruct (@MatchFacts.upto_last_inv _ _ _ U) as (mid & post & -> & _ & _).
      exact (H pre mid post eq_refl).
Qed.

(** X2: what surrounds the braces is ignored: with a prefix that has no
    opening brace and a suffix that has no closing brace, the
    normalisation of a response is that of its span alone. *)
Theorem normalize_ignores_surrounding_text :
  forall pre mid post : jstring,
    Span.without LBRACE pre = true -> Span.without RBRACE post = true ->
    normalize (pre ++ LBRACE :: mid ++ RBRACE :: post)
    = normalize (LBRACE :: mid ++ [RBRACE]).
Proof.
  intros pre mid post Wp Wq. unfold normalize, extract.
  rewrite (@MatchFacts.jsonMatch_app _ mid _ Wp Wq).
  replace (LBRACE :: mid ++ [RBRACE])
    with ([] ++ LBRACE :: mid ++ RBRACE :: []) at 2 by reflexivity.
  rewrite (@MatchFacts.jsonMatch_app [] mid [] eq_refl eq_refl).
  reflexivity.
Qed.

(** The same on an answer wrapped in a fence of three backquotes. *)
Lemma normalize_ignores_surrounding_text_witness :
  normalize (lit "```json " ++ LBRACE :: text "'items':[]" ++ RBRACE :: lit " ```")
  = normalize (LBRACE :: text "'items':[]" ++ [RBRACE]).
Proof.
  apply (@normalize_ignores_surrounding_text
           (lit "```json ") (text "'items':[]") (lit " ```"));
    reflexivity.
Defined.

(* ================================================================== *)
(** * When the normalisation throws *)

Module ThrowFacts.

Import BackfillFacts.

(** The guarded block throws exactly when an item is not countable, and
    then a [TypeError]. *)
Lemma derive_throws_iff (o : object) (items : list json) (e : error) :
  derive o items = Throw e <->
  e = TypeError /\ forallb countable items = false.
Proof.
  pose proof (derive_countable o items) as D.
  destruct (derive o items) as [o'|e0].
  - rewrite D. split; [discriminate|intros [_ H]; discriminate].
  - destruct D as [-> D]. split.
    + intros H. injection H as <-. split; [reflexivity|exact D].
    + intros [-> _]. reflexivity.
Qed.

End ThrowFacts.

(** X3: the normalisation of a response throws in two cases and no other:
    a [SyntaxError] when the span between braces is not JSON, and a
    [TypeError] when the span parses, its items are an array, and one of
    the items is not countable: it is [null], or its label is neither a
    string nor falsy, or its label contains "weed" or "crop" and its box
    is an array of four elements one of which is an object with a
    property [toString] of its own, or an array holding such an
    object. *)
Theorem normalize_throws :
  forall (t : jstring) (e : error),
    normalize t = Throw e <->
    (e = SyntaxError
     /\ exists span : jstring,
          jsonMatch t = Some span /\ JSON_parse span = None)
    \/ (e = TypeError
        /\ exists (o : object) (its : list json),
             extract t = Ok (JObj o)
             /\ Obj.lookup ITEMS o = Some (JArr its)
             /\ forallb countable its = false).
Proof.
  intros t e. split.
  - unfold normalize. destruct (extract t) as [p|e0] eqn:E; cbn [bind].
    + destruct (extract_object _ E) as [_ [o ->]].
      rewrite backfill_object.
      destruct (Obj.lookup ITEMS o) as [[|b|n|s|its|q]|] eqn:L;
        try discriminate.
      destruct (derive o its) as [o'|e1] eqn:D; cbn [bind];
        [discriminate|].
      intros H. injection H as ->.
      apply ThrowFacts.derive_throws_iff in D as [-> R].
      right. split; [reflexivity|]. exists o, its. auto.
    + intros H. injection H as ->. unfold extract in E.
      destruct (jsonMatch t) as [span|]; [|discriminate].
      destruct (JSON_parse span) eqn:P; [discriminate|].
      injection E as <-. left. split; [reflexivity|]. eauto.
  - intros [[-> (span & M & P)]|[-> (o & its & E & L & R)]].
    + unfold normalize, extract. rewrite M, P. reflexivity.
    + unfold normalize. rewrite E. cbn [bind].
      rewrite backfill_object, L.
      assert (D : derive o its = Throw TypeError)
        by (apply ThrowFacts.derive_throws_iff; auto).
      rewrite D. reflexivity.
Qed.

(* ================================================================== *)
(** * The fields that the backfilling step leaves alone *)

Module KeyFacts.

Import ObjFacts.

Lemma lookup_none_keys (k : jstring) (o : object) :
  Obj.lookup k o = None <-> existsb (Str.eqb k) (Obj.keys o) = false.
Proof.
  induction o as [|[k' v] o IH]; simpl; [tauto|].
  destruct (Str.eqb k k'); simpl; [split; discriminate|exact IH].
Qed.

(** An assignment made when the field fails a test that an absent field
    fails too: the keys are those of before, and the new key last when
    it was not among them. *)
Lemma keys_fill (test : option json -> bool) (k : jstring) (v : json)
  (o : object) :
  test None = true ->
  Obj.keys (if test (Obj.lookup k o) then Obj.set k v o else o)
  = Obj.keys o ++ (if existsb (Str.eqb k) (Obj.keys o) then [] else [k]).
Proof.
  intros T. destruct (existsb (Str.eqb k) (Obj.keys o)) eqn:E.
  - rewrite app_nil_r.
    destruct (test (Obj.lookup k o)); [|reflexivity].
    rewrite keys_set, E. reflexivity.
  - apply lookup_none_keys in E as L. rewrite L, T, keys_set, E.
    reflexivity.
Qed.

Lemma derive_keys (o o' : object) (items : list json) :
  derive o items = Ok o' ->
  Obj.keys o'
  = Obj.keys o
    ++ filter (fun k => negb (existsb (Str.eqb k) (Obj.keys o)))
         [WEED_COVERAGE; HEALTHY_CROP_COVERAGE; TOTAL_AREA].
Proof.
  unfold derive. intros H.
  destruct (area_of_label (lit "weed") items) as [wa|]; [|discriminate].
  destruct (area_of_label (lit "crop") items) as [ca|]; [|discriminate].
  cbn [bind] in H. injection H as <-.
  rewrite (@keys_fill nullish) by reflexivity.
  rewrite (@keys_fill missing) by reflexivity.
  rewrite (@keys_fill missing) by reflexivity.
  rewrite !existsb_app.
  cbn [filter].
  destruct (existsb (Str.eqb WEED_COVERAGE) (Obj.keys o));
    destruct (existsb (Str.eqb HEALTHY_CROP_COVERAGE) (Obj.keys o));
    destruct (existsb (Str.eqb TOTAL_AREA) (Obj.keys o));
    cbn [negb orb existsb app];
    repeat rewrite app_nil_r; repeat rewrite <- app_assoc;
    reflexivity.
Qed.

End KeyFacts.

(** X4: the backfilling step never touches a field other than the two
    coverages and the total area, whatever its name (the zones of the
    older format, for one), and it keeps the order of the keys: when the
    items are an array, those of the three fields that were absent are
    added after all others, in the order weed coverage, crop coverage,
    total area; otherwise the keys are those of before. *)
Theorem backfill_keeps_other_fields :
  forall (o : object) (v : json),
    backfill (JObj o) = Ok v ->
    exists o' : object,
      v = JObj o'
      /\ (forall k : jstring,
            Str.eqb k WEED_COVERAGE = false ->
            Str.eqb k HEALTHY_CROP_COVERAGE = false ->
            Str.eqb k TOTAL_AREA = false ->
            Obj.lookup k o' = Obj.lookup k o)
      /\ Obj.keys o'
         = Obj.keys o
           ++ (if Array_isArray (Obj.lookup ITEMS o)
               then filter
                      (fun k => negb (existsb (Str.eqb k) (Obj.keys o)))
                      [WEED_COVERAGE; HEALTHY_CROP_COVERAGE; TOTAL_AREA]
               else []).
Proof.
  intros o v H.
  destruct (backfill_object_inv _ H) as [[NA ->]|(its & o1 & Hits & D & ->)].
  - exists o. split; [reflexivity|]. split; [reflexivity|].
    rewrite NA, app_nil_r. reflexivity.
  - exists o1. split; [reflexivity|].
    destruct (derive_fields _ _ D) as (_ & _ & _ & _ & _ & _ & _ & Fr).
    split; [exact Fr|].
    rewrite Hits. cbn [Array_isArray]. exact (KeyFacts.derive_keys _ _ D).
Qed.

(** On the payload of the "Weed patch" scenario the three fields are
    added after the items. *)
Lemma backfill_keeps_other_fields_witness :
  exists o' : object,
    JObj Sample.weed_patch_result = JObj o'
    /\ (forall k : jstring,
          Str.eqb k WEED_COVERAGE = false ->
          Str.eqb k HEALTHY_CROP_COVERAGE = false ->
          Str.eqb k TOTAL_AREA = false ->
          Obj.lookup k o' = Obj.lookup k Sample.weed_patch_payload)
    /\ Obj.keys o'
       = Obj.keys Sample.weed_patch_payload
         ++ (if Array_isArray (Obj.lookup ITEMS Sample.weed_patch_payload)
             then filter
                    (fun k =>
                       negb (existsb (Str.eqb k)
                               (Obj.keys Sample.weed_patch_payload)))
                    [WEED_COVERAGE; HEALTHY_CROP_COVERAGE; TOTAL_AREA]
             else []).
Proof.
  apply (@backfill_keeps_other_fields Sample.weed_patch_payload
           (JObj Sample.weed_patch_result)).
  vm_compute. reflexivity.
Defined.

(* ================================================================== *)
(** * A response without JSON *)

(** X5: when the file is read, the model answers and the text of its answer
    is undefined or has no opening brace followed by a closing brace,
    the worker records the answer as a completed analysis: the one
    statement it runs stores the text as it is (the empty text when it
    was undefined) and the placeholder result with a total area of 100;
    only when the database does not carry that statement out does the
    worker fall back on marking the record failed. *)
Theorem response_without_json_completes :
  forall (w : world) (imageId : Z) (response_text : option jstring),
    readFile w = Ok tt ->
    generateContent w = Ok response_text ->
    jsonMatch (match response_text with Some t => t | None => [] end)
    = None ->
    Worker.analyzeImage w imageId
    = if run_completed w
      then Ok [UpdateCompleted imageId
                 (match response_text with Some t => t | None => [] end)
                 (text "{'items':[],'weedCoverage':0,'healthyCropCoverage':100,'recommendations':['Unable to analyze image details'],'totalArea':100}")]
      else Worker.db_run (run_failed w) (UpdateFailed imageId).
Proof.
  intros w imageId response_text R G M.
  unfold Worker.analyzeImage, Worker.try_block.
  rewrite R, G. cbn [bind].
  assert (N : normalize (match response_text with Some t => t | None => [] end)
              = Ok (JObj [ (ITEMS, JArr []);
                           (WEED_COVERAGE, JNum (Dec 0 0));
                           (HEALTHY_CROP_COVERAGE, JNum (Dec 100 0));
                           (RECOMMENDATIONS,
                            JArr [JStr (lit "Unable to analyze image details")]);
                           (TOTAL_AREA, JNum (Dec 100 0)) ])).
  { unfold normalize, extract. rewrite M. reflexivity. }
  rewrite N. cbn [bind].
  destruct (run_completed w); reflexivity.
Qed.

(** The model answers without any text. *)
Lemma response_without_json_completes_witness :
  Worker.analyzeImage (mkWorld (Ok tt) (Ok None) true true) 1
  = Ok [UpdateCompleted 1 []
          (text "{'items':[],'weedCoverage':0,'healthyCropCoverage':100,'recommendations':['Unable to analyze image details'],'totalArea':100}")].
Proof.
  apply (@response_without_json_completes
           (mkWorld (Ok tt) (Ok None) true true) 1 None);
    reflexivity.
Defined.

(* ================================================================== *)
(** * The life of a record, continued *)

Module LifeFacts.

Import Server Lifecycle WorkerFacts DbFacts ServerFacts.

(** With the failure handler's statement carried out, a worker always
    gets one statement carried out. *)
Lemma writes_some (w : world) (i : Z) :
  run_failed w = true ->
  (exists raw v, normalize raw = Ok v
                 /\ Worker.writes w i = [UpdateCompleted i raw (JSON_stringify v)])
  \/ Worker.writes w i = [UpdateFailed i].
Proof.
  intros F.
  unfold Worker.writes, Worker.analyzeImage, Worker.try_block, Worker.db_run.
  rewrite F.
  destruct (readFile w) as [[]|e]; simpl; [|right; reflexivity].
  destruct (generateContent w) as [t|e]; simpl; [|right; reflexivity].
  set (raw := match t with Some t0 => t0 | None => [] end).
  destruct (normalize raw) as [v|e] eqn:N; simpl; [|right; reflexivity].
  destruct (run_completed w); [left; eauto|right; reflexivity].
Qed.

Lemma map_id_set_completed (i : Z) (raw seg : jstring) (l : list row) :
  map id (map (Db.set_completed i raw seg) l) = map id l.
Proof.
  rewrite map_map. apply map_ext. intros r.
  destruct (set_completed_fields i raw seg r) as (E & _). exact E.
Qed.

Lemma map_id_set_failed (i : Z) (l : list row) :
  map id (map (Db.set_failed i) l) = map id l.
Proof.
  rewrite map_map. apply map_ext. intros r.
  destruct (set_failed_frame i r) as (E & _). exact E.
Qed.

(** What a worker does to the table: the rows keep their place, their
    id and their owner; the rows of another id are untouched; the
    counter is untouched. *)
Lemma finish_frame (w : world) (i : Z) (s : server) :
  Forall2 (fun r r' : row =>
             id r' = id r /\ user_id r' = user_id r
             /\ (id r <> i -> r' = r))
          (images (db s)) (images (db (finish w i s)))
  /\ last_id (db (finish w i s)) = last_id (db s).
Proof.
  unfold finish.
  destruct (writes_outcome w i) as [|raw v _|]; simpl.
  - split; [|reflexivity].
    induction (images (db s)); constructor; auto.
  - split; [|reflexivity].
    induction (images (db s)) as [|r l IH]; simpl; constructor; auto.
    destruct (set_completed_fields i raw (JSON_stringify v) r)
      as (E1 & E2 & _ & E4). auto.
  - split; [|reflexivity].
    induction (images (db s)) as [|r l IH]; simpl; constructor; auto.
    destruct (set_failed_frame i r) as (E1 & E2 & _).
    repeat split; auto. intros NE. unfold Db.set_failed.
    apply Z.eqb_neq in NE. rewrite NE. reflexivity.
Qed.

Lemma finish_ids (w : world) (i : Z) (s : server) :
  map id (images (db (finish w i s))) = map id (images (db s)).
Proof.
  destruct (finish_frame w i s) as [F _].
  induction F as [|r r' l l' (E & _) _ IH]; simpl; congruence.
Qed.

(** A row after the worker comes from a row before it. *)
Lemma finish_row (w : world) (i : Z) (s : server) (r' : row) :
  In r' (images (db (finish w i s))) ->
  exists r, In r (images (db s)) /\ id r' = id r
            /\ (id r <> i -> r' = r).
Proof.
  destruct (finish_frame w i s) as [F _]. revert r'.
  induction F as [|r0 r0' l l' (E & _ & K) _ IH]; simpl; intros r' H.
  - destruct H.
  - destruct H as [<-|H].
    + exists r0. auto.
    + destruct (IH r' H) as (r & Hr & P). exists r. auto.
Qed.

(** Rows that are kept keep distinct ids. *)
Lemma ids_of_kept_rows (keep : row -> bool) (rows : list row) :
  NoDup (map id rows) -> NoDup (map id (filter keep rows)).
Proof.
  intros N. induction rows as [|r rows IH]; simpl; [constructor|].
  inversion N as [|x xs Fresh Rest]; subst.
  destruct (keep r); simpl; [|exact (IH Rest)].
  constructor; [|exact (IH Rest)].
  intros Hin. apply Fresh. apply in_map_iff in Hin as (r0 & E & Hr0).
  apply filter_In in Hr0 as [Hr0 _]. rewrite <- E. apply in_map. exact Hr0.
Qed.

Lemma NoDup_id_eq (l : list row) (a b : row) :
  NoDup (map id l) -> In a l -> In b l -> id a = id b -> a = b.
Proof.
  induction l as [|x l IH]; simpl; intros H Ha Hb E; [destruct Ha|].
  inversion H as [|y ys Hn Hd]; subst.
  destruct Ha as [<-|Ha]; destruct Hb as [<-|Hb]; auto.
  - exfalso. apply Hn. rewrite E. apply in_map. exact Hb.
  - exfalso. apply Hn. rewrite <- E. apply in_map. exact Ha.
Qed.

Lemma numbered_initial : numbered initial.
Proof. repeat split; try constructor. simpl. lia. Qed.

Lemma numbered_upload (s : server) (carried_out : bool) (user : Z)
  (name path : jstring) (now : Z) :
  numbered s -> numbered (upload carried_out user name path now s).
Proof.
  intros (N & R & W & L). unfold upload.
  destruct carried_out; [|exact (conj N (conj R (conj W L)))].
  unfold numbered. simpl. rewrite Forall_forall in R, W.
  split; [|split; [|split]].
  - rewrite map_app. simpl.
    apply (Permutation_NoDup
             (l := (last_id (db s) + 1)%Z :: map id (images (db s)))).
    + apply Permutation_cons_append.
    + constructor; [|exact N].
      intros Hin. apply in_map_iff in Hin as (r & E & Hr).
      specialize (R r Hr). lia.
  - apply Forall_forall. intros r Hr.
    apply in_app_or in Hr as [Hr|[<-|[]]].
    + specialize (R r Hr). lia.
    + simpl. lia.
  - apply Forall_forall. intros j [<-|Hj].
    + lia.
    + specialize (W j Hj). lia.
  - lia.
Qed.

Lemma numbered_finish (s : server) (w : world) (i : Z) :
  numbered s -> numbered (finish w i s).
Proof.
  intros (N & R & W & L).
  destruct (finish_frame w i s) as [F E].
  unfold numbered. rewrite finish_ids, E.
  split; [exact N|]. split; [|split; [|exact L]].
  - apply Forall_forall. intros r' Hr'.
    destruct (finish_row _ _ _ _ Hr') as (r & Hr & Eid & _).
    rewrite Forall_forall in R. rewrite Eid. exact (R r Hr).
  - unfold finish. simpl. apply Forall_forall. intros j Hj.
    apply filter_In in Hj as [Hj _].
    rewrite Forall_forall in W. exact (W j Hj).
Qed.

Lemma numbered_delete (s : server) (d : Routes.deletion) (user i : Z) :
  numbered s -> numbered (delete d user i s).
Proof.
  intros (N & R & W & L). unfold delete, Routes.delete.
  destruct (Routes.select_ok d); [|exact (conj N (conj R (conj W L)))].
  cbn [negb].
  destruct (Db.get i user (db s)) as [image|];
    [|exact (conj N (conj R (conj W L)))].
  destruct (Routes.delete_ok d); [|exact (conj N (conj R (conj W L)))].
  unfold numbered. simpl.
  split; [apply ids_of_kept_rows; exact N|].
  split; [|split; assumption].
  apply Forall_forall. intros r Hr. apply filter_In in Hr as [Hr _].
  rewrite Forall_forall in R. exact (R r Hr).
Qed.

Lemma numbered_step (s t : server) : step s t -> numbered s -> numbered t.
Proof.
  intros [s0 carried_out user name path now|s0 w i Hi|s0 d user i].
  - apply numbered_upload.
  - apply numbered_finish.
  - apply numbered_delete.
Qed.

Lemma numbered_steps (s t : server) :
  steps s t -> numbered s -> numbered t.
Proof.
  induction 1 as [|s t u _ IH Hstep]; intros C; [exact C|].
  eapply numbered_step; eauto.
Qed.

Lemma numbered_reachable (s : server) : reachable s -> numbered s.
Proof. intros R. exact (numbered_steps R numbered_initial). Qed.

(** The counter never decreases. *)
Lemma last_id_step (s t : server) :
  step s t -> (last_id (db s) <= last_id (db t))%Z.
Proof.
  intros [s0 carried_out user name path now|s0 w i Hi|s0 d user i].
  - unfold upload. destruct carried_out; simpl; lia.
  - destruct (finish_frame w i s0) as [_ E]. lia.
  - unfold delete, Routes.delete.
    destruct (Routes.select_ok d); [|simpl; lia]. cbn [negb].
    destruct (Db.get i user (db s0)); [|simpl; lia].
    destruct (Routes.delete_ok d); simpl; lia.
Qed.

(** A result of the normalisation is a well-formed object. *)
Lemma normalize_object (t : jstring) (v : json) :
  normalize t = Ok v -> Wf.wf v = true /\ exists o, v = JObj o.
Proof.
  unfold normalize. intros N.
  destruct (extract t) as [p|] eqn:E; [|discriminate]. cbn [bind] in N.
  destruct (extract_object _ E) as [Wp [o ->]].
  split; [exact (backfill_wf _ N Wp)|].
  destruct (backfill_object_inv _ N) as [[_ ->]|(its & o' & _ & _ & ->)];
    eauto.
Qed.

Lemma documented_initial : documented initial.
Proof. constructor. Qed.

Lemma documented_upload (s : server) (carried_out : bool) (user : Z)
  (name path : jstring) (now : Z) :
  documented s -> documented (upload carried_out user name path now s).
Proof.
  intros D. unfold upload. destruct carried_out; [|exact D].
  unfold documented. simpl. apply Forall_app. split; [exact D|].
  constructor; [|constructor].
  split; [exact I|discriminate].
Qed.

Lemma documented_finish (s : server) (w : world) (i : Z) :
  documented s -> documented (finish w i s).
Proof.
  intros D. unfold documented, finish in *.
  rewrite Forall_forall in D. apply Forall_forall.
  destruct (writes_outcome w i) as [|raw v N|]; simpl; intros r' Hr'.
  - exact (D r' Hr').
  - apply in_map_iff in Hr' as (r & <- & Hr).
    destruct (D r Hr) as [A P].
    unfold Db.set_completed. destruct (id r =? i)%Z; [|auto].
    split; [|discriminate].
    destruct (normalize_object _ N) as [_ [o ->]].
    unfold Readback.analysed_from_raw. simpl. exists raw, o. auto.
  - apply in_map_iff in Hr' as (r & <- & Hr).
    destruct (D r Hr) as [A P].
    unfold Db.set_failed. destruct (id r =? i)%Z; [|auto].
    split; [exact A|discriminate].
Qed.

Lemma documented_delete (s : server) (d : Routes.deletion) (user i : Z) :
  documented s -> documented (delete d user i s).
Proof.
  intros D. unfold delete, Routes.delete.
  destruct (Routes.select_ok d); [|exact D]. cbn [negb].
  destruct (Db.get i user (db s)) as [image|]; [|exact D].
  destruct (Routes.delete_ok d); [|exact D].
  unfold documented in *. simpl. rewrite Forall_forall in D.
  apply Forall_forall. intros r Hr. apply filter_In in Hr as [Hr _].
  exact (D r Hr).
Qed.

Lemma documented_step (s t : server) :
  step s t -> documented s -> documented t.
Proof.
  intros [s0 carried_out user name path now|s0 w i Hi|s0 d user i].
  - apply documented_upload.
  - apply documented_finish.
  - apply documented_delete.
Qed.

Lemma documented_steps (s t : server) :
  steps s t -> documented s -> documented t.
Proof.
  induction 1 as [|s t u _ IH Hstep]; intros C; [exact C|].
  eapply documented_step; eauto.
Qed.

Lemma documented_reachable (s : server) : reachable s -> documented s.
Proof. intros R. exact (documented_steps R documented_initial). Qed.

(** A row in a terminal state is not the row of a worker in flight, so
    no transition changes it; it can only be deleted. *)
Lemma terminal_kept_step (s t : server) (r : row) :
  consistent s -> numbered s -> step s t ->
  Server.terminal (status r) = true ->
  (id r <= last_id (db s))%Z ->
  (forall r0, In r0 (images (db s)) -> id r0 = id r -> r0 = r) ->
  forall r', In r' (images (db t)) -> id r' = id r -> r' = r.
Proof.
  intros C (_ & _ & _ & _) St T B Q.
  destruct St as [s0 carried_out user name path now|s0 w i Hi|s0 d user i];
    intros r' Hr' E.
  - unfold upload in Hr'. destruct carried_out; [|exact (Q r' Hr' E)].
    simpl in Hr'. apply in_app_or in Hr' as [Hr'|[<-|[]]];
      [exact (Q r' Hr' E)|].
    simpl in E. lia.
  - destruct (finish_row _ _ _ _ Hr') as (r0 & Hr0 & Eid & K).
    assert (E0 : r0 = r) by (apply Q; [exact Hr0|congruence]).
    subst r0. apply K. intros Ei.
    destruct (C r Hr0) as (_ & P & _).
    rewrite <- Ei in Hi. specialize (P Hi).
    rewrite P in T. discriminate.
  - unfold delete, Routes.delete in Hr'.
    destruct (Routes.select_ok d); [|exact (Q r' Hr' E)].
    cbn [negb] in Hr'.
    destruct (Db.get i user (db s0)); [|exact (Q r' Hr' E)].
    destruct (Routes.delete_ok d); [|exact (Q r' Hr' E)].
    simpl in Hr'. apply filter_In in Hr' as [Hr' _]. exact (Q r' Hr' E).
Qed.

End LifeFacts.

(* ================================================================== *)
(** * Reading a stored analysis back *)

Module ReadbackFacts.

Import Wf Readback ValueFacts.

Lemma stringify_read_back (v : json) :
  JSON_stringify (read_back v) = JSON_stringify v.
Proof.
  induction v as [|b|n|s|l IH|o IH] using json_induction;
    try reflexivity.
  - destruct n; reflexivity.
  - cbn [read_back]. rewrite !stringify_array. do 2 f_equal.
    induction IH as [|x l Hx _ IHl]; [reflexivity|].
    cbn [map elements_text]. rewrite Hx.
    destruct l as [|y l]; [reflexivity|].
    cbn [map] in *. rewrite IHl. reflexivity.
  - cbn [read_back]. rewrite !stringify_object. do 2 f_equal.
    induction IH as [|[k x] o Hx _ IHo]; [reflexivity|].
    cbn [map members_text fst snd] in *. rewrite Hx.
    destruct o as [|[k' y] o]; [reflexivity|].
    cbn [map] in *. rewrite IHo. reflexivity.
Qed.

Lemma wf_read_back (v : json) : wf v = true -> wf (read_back v) = true.
Proof.
  induction v as [|b|n|s|l IH|o IH] using json_induction;
    try (intros; reflexivity).
  - destruct n; auto.
  - cbn [read_back wf].
    induction IH as [|x l Hx _ IHl]; [reflexivity|].
    cbn [map forallb]. intros W. apply andb_true_iff in W as [W1 W2].
    rewrite (Hx W1), (IHl W2). reflexivity.
  - cbn [read_back wf]. intros W. apply andb_true_iff in W as [W1 W2].
    assert (K : map fst (map (fun kv => (fst kv, read_back (snd kv))) o)
                = map fst o)
      by (rewrite map_map; apply map_ext; reflexivity).
    rewrite K, W1. cbn [andb].
    clear W1 K. revert W2.
    induction IH as [|[k x] o Hx _ IHo]; [reflexivity|].
    cbn [map forallb fst snd] in *. intros W2.
    apply andb_true_iff in W2 as [A B].
    rewrite (Hx A), (IHo B). reflexivity.
Qed.

Lemma finite_read_back (v : json) : finite (read_back v) = true.
Proof.
  induction v as [|b|n|s|l IH|o IH] using json_induction;
    try reflexivity.
  - destruct n; reflexivity.
  - cbn [read_back finite].
    induction IH as [|x l Hx _ IHl]; [reflexivity|].
    cbn [map forallb]. rewrite Hx, IHl. reflexivity.
  - cbn [read_back finite].
    induction IH as [|[k x] o Hx _ IHo]; [reflexivity|].
    cbn [map forallb fst snd] in *. rewrite Hx, IHo. reflexivity.
Qed.

Lemma read_back_finite (v : json) : finite v = true -> read_back v = v.
Proof.
  induction v as [|b|n|s|l IH|o IH] using json_induction;
    try (intros; reflexivity).
  - destruct n; [reflexivity|discriminate..].
  - cbn [read_back finite]. intros F. f_equal. revert F.
    induction IH as [|x l Hx _ IHl]; [reflexivity|].
    cbn [map forallb]. intros F. apply andb_true_iff in F as [A B].
    rewrite (Hx A), (IHl B). reflexivity.
  - cbn [read_back finite]. intros F. f_equal. revert F.
    induction IH as [|[k x] o Hx _ IHo]; [reflexivity|].
    cbn [map forallb fst snd] in *. intros F.
    apply andb_true_iff in F as [A B].
    rewrite (Hx A), (IHo B). reflexivity.
Qed.

(** [JSON.parse(JSON.stringify(v))] for any well-formed value. *)
Lemma parse_stringify_read_back (v : json) :
  wf v = true -> JSON_parse (JSON_stringify v) = Some (read_back v).
Proof.
  intros W. rewrite <- stringify_read_back.
  apply RoundTrip.parse_stringify;
    [apply wf_read_back; exact W|apply finite_read_back].
Qed.

(** The element of a listing for a row that carries the analysis of its
    raw output. *)
Lemma process_analysed (r : row) (raw : jstring) (o : object) :
  normalize raw = Ok (JObj o) ->
  segmentation_data r = Some (JSON_stringify (JObj o)) ->
  Routes.process r = Ok (r, Some (read_back (JObj o))).
Proof.
  intros N S. unfold Routes.process. rewrite S.
  destruct (LifeFacts.normalize_object _ N) as [W _].
  pose proof (parse_stringify_read_back _ W) as P.
  rewrite stringify_object in *.
  cbn [app] in *. rewrite P. reflexivity.
Qed.

Lemma process_documented (r : row) :
  Readback.analysed_from_raw r ->
  exists p, Routes.process r = Ok (r, p).
Proof.
  unfold Readback.analysed_from_raw.
  destruct (segmentation_data r) as [seg|] eqn:S.
  - intros (raw & o & _ & N & ->).
    rewrite (@process_analysed r raw o N S). eauto.
  - intros _. unfold Routes.process. rewrite S. eauto.
Qed.

Lemma process_all_documented (l : list row) :
  Forall Readback.analysed_from_raw l ->
  exists ps, Routes.process_all l = Ok ps.
Proof.
  induction 1 as [|r l Hr _ [ps IH]]; simpl; [eauto|].
  destruct (@process_documented r Hr) as [p ->]. rewrite IH.
  cbn [bind]. eauto.
Qed.

End ReadbackFacts.

(* ================================================================== *)
(** * Workers, records and what the routes serve *)

(** X6: provided that the calls which the worker awaits settle, the
    reading of the file, the call of the model and its statement, the
    worker ends as [Worker.analyzeImage] tells, and brings its record to
    an end when the statement of its failure handler is carried out: it
    gets exactly one statement carried out, after it every record of its
    id is [completed] or [failed], and it is no longer in flight.  When
    the reading of the file never settles, or the call of the model after
    it, the worker never ends: it carries out no statement, and no
    transition of the server stands for it.  And a worker that never ends
    has met a call that never settles. *)
Theorem worker_ends_in_terminal_state :
  forall (s : server) (w : world) (i : Z),
    run_failed w = true ->
    Pending.analyzeImage (Pending.settling w) i
    = Some (Worker.analyzeImage w i)
    /\ Forall (fun r' : row =>
                 id r' = i -> Server.terminal (status r') = true)
              (images (db (Server.finish w i s)))
    /\ length (Worker.writes w i) = 1%nat
    /\ existsb (Z.eqb i) (workers (Server.finish w i s)) = false
    /\ (forall c : Pending.calls,
          Pending.reading c = Pending.Never
          \/ (Pending.reading c = Pending.Settles (Ok tt)
              /\ Pending.generating c = Pending.Never) ->
          Pending.analyzeImage c i = None)
    /\ (forall c : Pending.calls,
          Pending.analyzeImage c i = None ->
          Pending.reading c = Pending.Never
          \/ Pending.generating c = Pending.Never
          \/ Pending.completing c = Pending.Never
          \/ Pending.failing c = Pending.Never).
Proof.
  intros s w i F. split; [|split; [|split; [|split; [|split]]]].
  - unfold Pending.analyzeImage, Pending.settling, Pending.handler,
      Worker.analyzeImage, Worker.try_block, Pending.run.
    cbn [Pending.reading Pending.generating Pending.completing
         Pending.failing Pending.await].
    rewrite F. cbn [Worker.db_run].
    destruct (readFile w) as [[]|e]; cbn [bind]; [|reflexivity].
    destruct (generateContent w) as [response_text|e]; cbn [bind];
      [|reflexivity].
    destruct (normalize _) as [v|e]; cbn [bind]; [|reflexivity].
    destruct (run_completed w); reflexivity.
  - apply Forall_forall. intros r' Hr' E. unfold Server.finish in Hr'.
    destruct (LifeFacts.writes_some w i F) as [(raw & v & _ & W)|W];
      rewrite W in Hr'; simpl in Hr';
      apply in_map_iff in Hr' as (r & <- & Hr).
    + destruct (DbFacts.set_completed_fields i raw (JSON_stringify v) r)
        as (Eid & _ & Hit & _).
      rewrite Eid in E. destruct (Hit E) as (_ & _ & ->). reflexivity.
    + destruct (DbFacts.set_failed_frame i r)
        as (Eid & _ & _ & _ & _ & _ & _ & Est).
      rewrite Eid in E. rewrite Est. apply Z.eqb_eq in E. rewrite E.
      reflexivity.
  - destruct (LifeFacts.writes_some w i F) as [(raw & v & _ & ->)| ->];
      reflexivity.
  - unfold Server.finish. simpl.
    induction (workers s) as [|j l IH]; simpl; [reflexivity|].
    destruct (j =? i)%Z eqn:E; simpl; [exact IH|].
    rewrite Z.eqb_sym, E. exact IH.
  - intros c [R|[R G]]; unfold Pending.analyzeImage; rewrite R;
      [reflexivity|]. cbn [Pending.await]. rewrite G. reflexivity.
  - intros c. unfold Pending.analyzeImage, Pending.handler.
    destruct (Pending.reading c) as [[[]|e]|]; cbn [Pending.await];
      [| |auto];
      (destruct (Pending.failing c) as [run|]; cbn [Pending.await];
       [|auto 6]).
    + destruct (Pending.generating c) as [[response_text|e]|];
        cbn [Pending.await]; [|discriminate|auto].
      destruct (normalize _); [|discriminate].
      destruct (Pending.completing c) as [[[]|e]|]; cbn [Pending.await];
        [discriminate|discriminate|auto 6].
    + discriminate.
Qed.

(** The worker of the one upload, in a world where the file cannot be
    read. *)
Lemma worker_ends_in_terminal_state_witness :
  Pending.analyzeImage (Pending.settling Sample.unreadable) 1
  = Some (Worker.analyzeImage Sample.unreadable 1)
  /\ Forall (fun r' : row =>
               id r' = 1%Z -> Server.terminal (status r') = true)
            (images (db (Server.finish Sample.unreadable 1
                           Sample.one_upload)))
  /\ length (Worker.writes Sample.unreadable 1) = 1%nat
  /\ existsb (Z.eqb 1)
       (workers (Server.finish Sample.unreadable 1 Sample.one_upload))
     = false
  /\ (forall c : Pending.calls,
        Pending.reading c = Pending.Never
        \/ (Pending.reading c = Pending.Settles (Ok tt)
            /\ Pending.generating c = Pending.Never) ->
        Pending.analyzeImage c 1 = None)
  /\ (forall c : Pending.calls,
        Pending.analyzeImage c 1 = None ->
        Pending.reading c = Pending.Never
        \/ Pending.generating c = Pending.Never
        \/ Pending.completing c = Pending.Never
        \/ Pending.failing c = Pending.Never).
Proof.
  apply (@worker_ends_in_terminal_state Sample.one_upload
           Sample.unreadable 1).
  reflexivity.
Defined.

(** X7: a worker touches the records of its own id and nothing else: the
    table keeps its rows in their places; every row keeps its id, its
    owner, its names and its creation time; a row of another id is left
    exactly as it was; the counter of the table and the upload directory
    are untouched. *)
Theorem worker_touches_only_its_record :
  forall (s : server) (w : world) (i : Z),
    Forall2 (fun r r' : row =>
               id r' = id r /\ user_id r' = user_id r
               /\ filename r' = filename r
               /\ original_path r' = original_path r
               /\ created_at r' = created_at r
               /\ (id r <> i -> r' = r))
            (images (db s)) (images (db (Server.finish w i s)))
    /\ last_id (db (Server.finish w i s)) = last_id (db s)
    /\ uploads (Server.finish w i s) = uploads s.
Proof.
  intros s w i. unfold Server.finish.
  destruct (WorkerFacts.writes_outcome w i) as [|raw v _|]; simpl;
    (split; [|split; reflexivity]);
    induction (images (db s)) as [|r l IH]; simpl; constructor; auto.
  - repeat split; auto.
  - unfold Db.set_completed. destruct (id r =? i)%Z eqn:E; simpl;
      repeat split; auto.
    intros NE. apply Z.eqb_eq in E. contradiction.
  - unfold Db.set_failed. destruct (id r =? i)%Z eqn:E; simpl;
      repeat split; auto.
    intros NE. apply Z.eqb_eq in E. contradiction.
Qed.

(** X8: in every state the server can reach, no two records have the same
    id, and the ids of the records and of the workers in flight lie
    between 1 and the counter of the table. *)
Theorem record_ids_are_unique :
  forall s : server,
    Server.reachable s ->
    NoDup (map id (images (db s)))
    /\ Forall (fun r : row => (1 <= id r <= last_id (db s))%Z)
              (images (db s))
    /\ Forall (fun j : Z => (1 <= j <= last_id (db s))%Z) (workers s).
Proof.
  intros s R.
  destruct (LifeFacts.numbered_reachable R) as (N & B & W & _). auto.
Qed.

Lemma record_ids_are_unique_witness :
  NoDup (map id (images (db Sample.analysed)))
  /\ Forall (fun r : row => (1 <= id r <= last_id (db Sample.analysed))%Z)
            (images (db Sample.analysed))
  /\ Forall (fun j : Z => (1 <= j <= last_id (db Sample.analysed))%Z)
            (workers Sample.analysed).
Proof.
  apply (@record_ids_are_unique Sample.analysed).
  exact reachable_analysed.
Defined.

Lemma steps_trans (s t u : server) :
  Server.steps s t -> Server.steps t u -> Server.steps s u.
Proof.
  intros A B. induction B as [|t u v _ IH St]; [exact A|].
  exact (Server.steps_cons (IH A) St).
Qed.

Lemma reachable_second_upload : Server.reachable Scenes.second_upload.
Proof.
  eapply Server.steps_cons; [apply reachable_analysed|].
  apply (Server.step_upload _ true).
Qed.

(** X9: once a record is [completed] or [failed] nothing changes it any
    more: after any further uploads, worker terminations and deletions,
    a record of that id, if there still is one, is the very same
    record, with the same status, raw output and analysis. *)
Theorem final_results_never_change :
  forall (s t : server) (r : row),
    Server.reachable s -> Server.steps s t ->
    In r (images (db s)) -> Server.terminal (status r) = true ->
    Forall (fun r' : row => id r' = id r -> r' = r) (images (db t)).
Proof.
  intros s t r R St Hr T.
  assert (G : Server.reachable t
              /\ (id r <= last_id (db t))%Z
              /\ forall r', In r' (images (db t)) -> id r' = id r -> r' = r).
  { induction St as [|s t u St IH Hstep].
    - split; [exact R|].
      destruct (LifeFacts.numbered_reachable R) as (N & B & _).
      rewrite Forall_forall in B. split; [apply (B r Hr)|].
      intros r' Hr' E. exact (LifeFacts.NoDup_id_eq _ _ _ N Hr' Hr E).
    - destruct (IH R Hr) as (Rt & Bt & Qt).
      split; [exact (Server.steps_cons Rt Hstep)|].
      split; [pose proof (LifeFacts.last_id_step Hstep); lia|].
      exact (LifeFacts.terminal_kept_step
               (ServerFacts.consistent_reachable Rt)
               (LifeFacts.numbered_reachable Rt) Hstep T Bt Qt). }
  apply Forall_forall. apply G.
Qed.

(** The record of the analysed upload, after a second upload. *)
Lemma final_results_never_change_witness :
  Forall (fun r' : row => id r' = id Scenes.analysed_row ->
                          r' = Scenes.analysed_row)
         (images (db Scenes.second_upload)).
Proof.
  apply (@final_results_never_change Sample.analysed Scenes.second_upload
           Scenes.analysed_row).
  - exact reachable_analysed.
  - eapply Server.steps_cons; [apply Server.steps_refl|].
    apply (Server.step_upload _ true).
  - left. vm_compute. reflexivity.
  - reflexivity.
Defined.

(** X10: no record is ever [pending], the default of the column: a record
    is inserted as [processing] and then only set to [completed] or
    [failed]. *)
Theorem status_is_never_pending :
  forall s : server,
    Server.reachable s ->
    Forall (fun r : row => status r <> pending) (images (db s)).
Proof.
  intros s R. pose proof (LifeFacts.documented_reachable R) as D.
  unfold Lifecycle.documented in D.
  apply Forall_forall. intros r Hr. rewrite Forall_forall in D.
  exact (proj2 (D r Hr)).
Qed.

Lemma status_is_never_pending_witness :
  Forall (fun r : row => status r <> pending)
         (images (db Scenes.second_upload)).
Proof.
  apply (@status_is_never_pending Scenes.second_upload).
  exact reachable_second_upload.
Defined.

(** X11: what the routes serve for a completed record is the normalisation
    of the raw model output stored in the same record: the record holds
    a raw output, the normalisation of that output is an object, the
    analysis stored is the text of that object, and the listing returns
    the object read back from it, that is the object itself when all
    its numbers are finite, and otherwise the object with [null] in the
    place of the numbers that are not. *)
Theorem served_analysis_is_normalized_output :
  forall (s : server) (r : row),
    Server.reachable s -> In r (images (db s)) -> status r = completed ->
    exists (raw : jstring) (o : object),
      analysis_result r = Some raw
      /\ normalize raw = Ok (JObj o)
      /\ segmentation_data r = Some (JSON_stringify (JObj o))
      /\ Routes.process r = Ok (r, Some (Readback.read_back (JObj o)))
      /\ (Wf.finite (JObj o) = true ->
          Readback.read_back (JObj o) = JObj o).
Proof.
  intros s r R Hr C.
  pose proof (LifeFacts.documented_reachable R) as D.
  unfold Lifecycle.documented in D. rewrite Forall_forall in D.
  destruct (D r Hr) as [A _].
  destruct (ServerFacts.consistent_reachable R r Hr) as (H & _).
  apply H in C. unfold Server.has_analysis in C.
  unfold Readback.analysed_from_raw in A.
  destruct (segmentation_data r) as [seg|] eqn:S; [|discriminate].
  destruct A as (raw & o & Eraw & N & ->).
  exists raw, o. repeat split; try assumption.
  - exact (@ReadbackFacts.process_analysed r raw o N S).
  - apply ReadbackFacts.read_back_finite.
Qed.

Lemma served_analysis_is_normalized_output_witness :
  exists (raw : jstring) (o : object),
    analysis_result Scenes.analysed_row = Some raw
    /\ normalize raw = Ok (JObj o)
    /\ segmentation_data Scenes.analysed_row
       = Some (JSON_stringify (JObj o))
    /\ Routes.process Scenes.analysed_row
       = Ok (Scenes.analysed_row, Some (Readback.read_back (JObj o)))
    /\ (Wf.finite (JObj o) = true ->
        Readback.read_back (JObj o) = JObj o).
Proof.
  apply (@served_analysis_is_normalized_output Sample.analysed
           Scenes.analysed_row).
  - exact reachable_analysed.
  - left. vm_compute. reflexivity.
  - reflexivity.
Defined.

(** X12: the routes that read the table never fail on a stored analysis:
    in every state the server can reach, and for every user, the
    listing answers 200 with one element for each row that the query
    returns, and the route of a single image answers 200 or 404, as
    long as the database carries out the query. *)
Theorem stored_analyses_always_parse :
  forall (s : server) (user : Z),
    Server.reachable s ->
    (exists ps : list Routes.processed,
       Routes.list_images true user (db s) = Json200 ps
       /\ map fst ps = Db.all_of user (db s))
    /\ (forall i : Z,
          Detail.get_image true user i (db s) = Error404
          \/ exists p : Routes.processed,
               Detail.get_image true user i (db s) = Json200 p).
Proof.
  intros s user R.
  pose proof (LifeFacts.documented_reachable R) as D.
  unfold Lifecycle.documented in D. rewrite Forall_forall in D.
  split.
  - assert (F : Forall Readback.analysed_from_raw (Db.all_of user (db s))).
    { apply Forall_forall. intros r Hr. apply DbFacts.in_all_of in Hr as [Hr _].
      exact (proj1 (D r Hr)). }
    destruct (ReadbackFacts.process_all_documented F) as [ps P].
    exists ps. unfold Routes.list_images. cbn [negb]. rewrite P.
    split; [reflexivity|]. exact (ServerFacts.process_all_rows _ P).
  - intros i. unfold Detail.get_image. cbn [negb].
    destruct (Db.get i user (db s)) as [image|] eqn:G; [|left; reflexivity].
    right. destruct (DbFacts.get_some _ _ _ G) as (Hin & _).
    destruct (@ReadbackFacts.process_documented image (proj1 (D image Hin)))
      as [p ->].
    eauto.
Qed.

Lemma stored_analyses_always_parse_witness :
  (exists ps : list Routes.processed,
     Routes.list_images true 7 (db Scenes.second_upload) = Json200 ps
     /\ map fst ps = Db.all_of 7 (db Scenes.second_upload))
  /\ (forall i : Z,
        Detail.get_image true 7 i (db Scenes.second_upload) = Error404
        \/ exists p : Routes.processed,
             Detail.get_image true 7 i (db Scenes.second_upload)
             = Json200 p).
Proof.
  apply (@stored_analyses_always_parse Scenes.second_upload 7).
  exact reachable_second_upload.
Defined.

(* ================================================================== *)
(** * The routes that read and delete *)

Module ListingFacts.

Import Db Lifecycle.

Lemma insert_desc_perm (r : row) (l : list row) :
  Permutation (insert_desc r l) (r :: l).
Proof.
  induction l as [|x l IH]; simpl; [reflexivity|].
  destruct (created_at x <=? created_at r)%Z; [reflexivity|].
  rewrite IH. apply perm_swap.
Qed.

Lemma insert_desc_sorted (r : row) (l : list row) :
  StronglySorted newer_first l ->
  StronglySorted newer_first (insert_desc r l).
Proof.
  induction 1 as [|x l S IH F]; simpl.
  - constructor; constructor.
  - destruct (created_at x <=? created_at r)%Z eqn:E.
    + apply Z.leb_le in E. constructor; [constructor; assumption|].
      constructor; [unfold newer_first; lia|].
      rewrite Forall_forall in *. intros y Hy.
      specialize (F y Hy). unfold newer_first in *. lia.
    + apply Z.leb_gt in E. constructor; [exact IH|].
      rewrite Forall_forall in *. intros y Hy.
      apply DbFacts.in_insert_desc in Hy as [->|Hy];
        [unfold newer_first; lia|exact (F y Hy)].
Qed.

Lemma all_of_perm (user : Z) (d : database) :
  Permutation (all_of user d)
              (filter (fun r => (user_id r =? user)%Z) (images d)).
Proof.
  unfold all_of.
  induction (filter (fun r => (user_id r =? user)%Z) (images d))
    as [|x l IH]; simpl; [reflexivity|].
  rewrite insert_desc_perm. constructor. exact IH.
Qed.

Lemma all_of_sorted (user : Z) (d : database) :
  StronglySorted newer_first (all_of user d).
Proof.
  unfold all_of.
  induction (filter (fun r => (user_id r =? user)%Z) (images d))
    as [|x l IH]; simpl; [constructor|].
  apply insert_desc_sorted. exact IH.
Qed.

(** Inserting before rows none of which is newer puts the row first. *)
Lemma insert_desc_first (r : row) (l : list row) :
  Forall (fun y => (created_at y <= created_at r)%Z) l ->
  insert_desc r l = r :: l.
Proof.
  intros F. destruct l as [|x l]; [reflexivity|].
  inversion F as [|y ys Hy _]; subst. simpl.
  apply Z.leb_le in Hy. rewrite Hy. reflexivity.
Qed.

Lemma filter_insert_desc (q : row -> bool) (r : row) (l : list row) :
  StronglySorted newer_first l ->
  filter q (insert_desc r l)
  = if q r then insert_desc r (filter q l) else filter q l.
Proof.
  induction 1 as [|x l S IH F]; simpl.
  - destruct (q r); reflexivity.
  - destruct (created_at x <=? created_at r)%Z eqn:E; simpl.
    + destruct (q r) eqn:Qr; [|reflexivity].
      destruct (q x) eqn:Qx; simpl; [rewrite E; reflexivity|].
      symmetry. apply insert_desc_first.
      apply Z.leb_le in E. rewrite Forall_forall in *.
      intros y Hy. apply filter_In in Hy as [Hy _].
      specialize (F y Hy). unfold newer_first in F. lia.
    + rewrite IH. destruct (q r), (q x); simpl; try rewrite E; reflexivity.
Qed.

Lemma filter_swap (A : Type) (p q : A -> bool) (l : list A) :
  filter p (filter q l) = filter q (filter p l).
Proof.
  induction l as [|a l IH]; simpl; [reflexivity|].
  destruct (p a) eqn:P, (q a) eqn:Q; simpl;
    rewrite ?P, ?Q, IH; reflexivity.
Qed.

(** The query after a [DELETE] returns the rows of before without the
    rows of the deleted id, in the same order. *)
Lemma all_of_delete (user i : Z) (d : database) :
  all_of user (exec (DeleteImage i) d)
  = filter (fun r => negb (id r =? i)%Z) (all_of user d).
Proof.
  unfold all_of. simpl. rewrite filter_swap.
  induction (filter (fun r => (user_id r =? user)%Z) (images d))
    as [|x l IH]; simpl; [reflexivity|].
  rewrite filter_insert_desc.
  - destruct (negb (id x =? i)%Z); simpl; rewrite IH; reflexivity.
  - clear IH. induction l as [|y l IHl]; simpl; [constructor|].
    apply insert_desc_sorted. exact IHl.
Qed.

Lemma process_fst (r : row) (p : Routes.processed) :
  Routes.process r = Ok p -> fst p = r.
Proof.
  unfold Routes.process.
  destruct (segmentation_data r) as [[|c t]|];
    try (intros H; injection H as <-; reflexivity).
  destruct (JSON_parse (c :: t));
    [intros H; injection H as <-; reflexivity|discriminate].
Qed.

Lemma process_all_filter (q : row -> bool) (l : list row)
  (ps : list Routes.processed) :
  Routes.process_all l = Ok ps ->
  Routes.process_all (filter q l) = Ok (filter (fun p => q (fst p)) ps).
Proof.
  revert ps. induction l as [|r l IH]; simpl; intros ps H.
  - injection H as <-. reflexivity.
  - destruct (Routes.process r) as [p|] eqn:P; [|discriminate].
    cbn [bind] in H.
    destruct (Routes.process_all l) as [qs|]; [|discriminate].
    cbn [bind] in H. injection H as <-.
    simpl. rewrite (process_fst _ P).
    destruct (q r); simpl; [rewrite P|]; rewrite (IH qs eq_refl);
      reflexivity.
Qed.

End ListingFacts.

(** X13: the listing returns the rows of the requesting user, all of them
    and no other, the most recently created first. *)
Theorem listing_is_the_users_rows_newest_first :
  forall (carried_out : bool) (user : Z) (d : database)
         (ps : list Routes.processed),
    Routes.list_images carried_out user d = Json200 ps ->
    Permutation (map fst ps)
                (filter (fun r => (user_id r =? user)%Z) (images d))
    /\ StronglySorted Lifecycle.newer_first (map fst ps).
Proof.
  intros carried_out user d ps H. unfold Routes.list_images in H.
  destruct carried_out; [|discriminate]. cbn [negb] in H.
  destruct (Routes.process_all (Db.all_of user d)) as [qs|] eqn:E;
    [|discriminate].
  injection H as ->. rewrite (ServerFacts.process_all_rows _ E).
  split; [apply ListingFacts.all_of_perm|apply ListingFacts.all_of_sorted].
Qed.

(** The listing of the user who has uploaded two images. *)
Lemma listing_is_the_users_rows_newest_first_witness :
  Permutation (map fst Scenes.listing)
              (filter (fun r => (user_id r =? 7)%Z)
                      (images (db Scenes.second_upload)))
  /\ StronglySorted Lifecycle.newer_first (map fst Scenes.listing).
Proof.
  apply (@listing_is_the_users_rows_newest_first true 7
           (db Scenes.second_upload) Scenes.listing).
  vm_compute. reflexivity.
Defined.

(** X14: the image of one user is out of the reach of every other: in every
    state the server can reach, the route of a single image answers 404
    to another user, the deletion asked by another user changes neither
    the table nor the upload directory and does not answer 200, whatever
    it meets, and the listing of another user does not contain the
    image. *)
Theorem images_of_others_are_out_of_reach :
  forall (s : server) (r : row) (user : Z) (d : Routes.deletion)
         (fs : Routes.files),
    Server.reachable s -> In r (images (db s)) -> user_id r <> user ->
    Detail.get_image true user (id r) (db s) = Error404
    /\ snd (fst (Routes.delete d user (id r) (db s) fs)) = db s
    /\ snd (Routes.delete d user (id r) (db s) fs) = fs
    /\ fst (fst (Routes.delete d user (id r) (db s) fs)) <> Json200 tt
    /\ (forall (carried_out : bool) (ps : list Routes.processed),
          Routes.list_images carried_out user (db s) = Json200 ps ->
          ~ In r (map fst ps)).
Proof.
  intros s r user d fs R Hr NE.
  assert (G : Db.get (id r) user (db s) = None).
  { destruct (Db.get (id r) user (db s)) as [r0|] eqn:G; [|reflexivity].
    destruct (DbFacts.get_some _ _ _ G) as (H0 & E0 & U0).
    destruct (LifeFacts.numbered_reachable R) as (N & _).
    rewrite (LifeFacts.NoDup_id_eq _ _ _ N H0 Hr E0) in U0.
    contradiction. }
  split; [|split; [|split; [|split]]].
  - unfold Detail.get_image. cbn [negb]. rewrite G. reflexivity.
  - unfold Routes.delete. rewrite G. destruct (Routes.select_ok d);
      reflexivity.
  - unfold Routes.delete. rewrite G. destruct (Routes.select_ok d);
      reflexivity.
  - unfold Routes.delete. rewrite G. destruct (Routes.select_ok d);
      discriminate.
  - intros carried_out ps L Hin. apply in_map_iff in Hin as (p & <- & Hp).
    destruct (ServerFacts.list_images_rows _ _ _ _ L Hp) as [_ U].
    contradiction.
Qed.

(** The analysed image of user 7, asked for by user 8. *)
Lemma images_of_others_are_out_of_reach_witness :
  Detail.get_image true 8 (id Scenes.analysed_row) (db Sample.analysed)
  = Error404
  /\ snd (fst (Routes.delete Sample.refused 8 (id Scenes.analysed_row)
                 (db Sample.analysed) []))
     = db Sample.analysed
  /\ snd (Routes.delete Sample.refused 8 (id Scenes.analysed_row)
            (db Sample.analysed) [])
     = []
  /\ fst (fst (Routes.delete Sample.refused 8 (id Scenes.analysed_row)
                 (db Sample.analysed) []))
     <> Json200 tt
  /\ (forall (carried_out : bool) (ps : list Routes.processed),
        Routes.list_images carried_out 8 (db Sample.analysed) = Json200 ps ->
        ~ In Scenes.analysed_row (map fst ps)).
Proof.
  apply (@images_of_others_are_out_of_reach Sample.analysed
           Scenes.analysed_row 8 Sample.refused []).
  - exact reachable_analysed.
  - left. vm_compute. reflexivity.
  - discriminate.
Defined.

(** X15: a deletion that is answered 200 removes the one record found and
    nothing else: the other records stay as they were and in their
    order, the counter of the table is untouched, no file is added,
    every file but the one of the record stays, and the file of the
    record is gone when the system lets it be removed. *)
Theorem delete_removes_one_record_and_its_file :
  forall (s : server) (d : Routes.deletion) (user i : Z)
         (fs : Routes.files) (image : row),
    Server.reachable s ->
    Routes.select_ok d = true -> Routes.delete_ok d = true ->
    Db.get i user (db s) = Some image ->
    (exists before after : list row,
       images (db s) = before ++ image :: after
       /\ images (snd (fst (Routes.delete d user i (db s) fs)))
          = before ++ after)
    /\ last_id (snd (fst (Routes.delete d user i (db s) fs)))
       = last_id (db s)
    /\ (forall f : jstring,
          In f (snd (Routes.delete d user i (db s) fs)) -> In f fs)
    /\ (forall f : jstring,
          In f fs -> f <> original_path image ->
          In f (snd (Routes.delete d user i (db s) fs)))
    /\ (Routes.unlink_permitted d = true ->
        ~ In (original_path image)
             (snd (Routes.delete d user i (db s) fs))).
Proof.
  intros s d user i fs image R Sel Del G.
  unfold Routes.delete. rewrite Sel, G, Del. cbn [negb fst snd].
  destruct (DbFacts.get_some _ _ _ G) as (Hin & Eid & _).
  destruct (LifeFacts.numbered_reachable R) as (N & _).
  split; [|split; [reflexivity|]].
  - apply in_split in Hin as (before & after & E).
    exists before, after. split; [exact E|].
    simpl. rewrite E in N |- *.
    rewrite map_app in N. simpl in N.
    apply NoDup_remove_2 in N.
    rewrite filter_app. simpl. rewrite Eid, Z.eqb_refl. simpl.
    assert (K : forall l, ~ In i (map id l) ->
                filter (fun r => negb (id r =? i)%Z) l = l).
    { induction l as [|x l IH]; simpl; intros H; [reflexivity|].
      destruct (id x =? i)%Z eqn:E1.
      - apply Z.eqb_eq in E1. exfalso. apply H. left. exact E1.
      - simpl. rewrite IH; [reflexivity|]. intros H1. apply H. right.
        exact H1. }
    rewrite Eid in N.
    rewrite !K; [reflexivity| |];
      intros H; apply N; apply in_or_app; [right|left]; exact H.
  - unfold Routes.unlink.
    destruct (Routes.exists_file (original_path image) fs
              && Routes.unlink_permitted d) eqn:U.
    + repeat split.
      * intros f Hf. apply filter_In in Hf as [Hf _]. exact Hf.
      * intros f Hf NE. apply filter_In. split; [exact Hf|].
        apply negb_true_iff.
        destruct (Str.eqb (original_path image) f) eqn:E1; [|reflexivity].
        apply ObjFacts.eqb_eq in E1. congruence.
      * intros _ Hf. apply filter_In in Hf as [_ Hf].
        rewrite ObjFacts.eqb_refl in Hf. discriminate.
    + repeat split; auto.
      intros P Hf. rewrite P, andb_true_r in U.
      unfold Routes.exists_file in U.
      assert (X : existsb (Str.eqb (original_path image)) fs = true).
      { apply existsb_exists. exists (original_path image).
        split; [exact Hf|apply ObjFacts.eqb_refl]. }
      congruence.
Qed.

(** The owner deletes the first of two images; its file is there and
    may be removed. *)
Lemma delete_removes_one_record_and_its_file_witness :
  (exists before after : list row,
     images (db Scenes.second_upload)
     = before ++ Scenes.analysed_row :: after
     /\ images (snd (fst (Routes.delete (Routes.mkDeletion true true true)
                            7 1 (db Scenes.second_upload)
                            (uploads Scenes.second_upload))))
        = before ++ after)
  /\ last_id (snd (fst (Routes.delete (Routes.mkDeletion true true true)
                          7 1 (db Scenes.second_upload)
                          (uploads Scenes.second_upload))))
     = last_id (db Scenes.second_upload)
  /\ (forall f : jstring,
        In f (snd (Routes.delete (Routes.mkDeletion true true true)
                     7 1 (db Scenes.second_upload)
                     (uploads Scenes.second_upload))) ->
        In f (uploads Scenes.second_upload))
  /\ (forall f : jstring,
        In f (uploads Scenes.second_upload) ->
        f <> original_path Scenes.analysed_row ->
        In f (snd (Routes.delete (Routes.mkDeletion true true true)
                     7 1 (db Scenes.second_upload)
                     (uploads Scenes.second_upload))))
  /\ (Routes.unlink_permitted (Routes.mkDeletion true true true) = true ->
      ~ In (original_path Scenes.analysed_row)
           (snd (Routes.delete (Routes.mkDeletion true true true)
                   7 1 (db Scenes.second_upload)
                   (uploads Scenes.second_upload)))).
Proof.
  apply (@delete_removes_one_record_and_its_file Scenes.second_upload
           (Routes.mkDeletion true true true) 7 1
           (uploads Scenes.second_upload) Scenes.analysed_row).
  - exact reachable_second_upload.
  - reflexivity.
  - reflexivity.
  - vm_compute. reflexivity.
Defined.

(** X16: the list that the dashboard shows after a deletion, without asking
    the server again, is the list that the server would return: the
    listing of the table after the [DELETE] is the listing of before
    without the elements of the deleted id, in the same order. *)
Theorem dashboard_list_after_delete_is_the_listing :
  forall (user i : Z) (d : database) (ps : list Routes.processed),
    Routes.list_images true user d = Json200 ps ->
    Routes.list_images true user (Db.exec (DeleteImage i) d)
    = Json200 (Dashboard.handleDelete i ps).
Proof.
  intros user i d ps H. unfold Routes.list_images in *. cbn [negb] in *.
  destruct (Routes.process_all (Db.all_of user d)) as [qs|] eqn:E;
    [|discriminate].
  injection H as ->. rewrite ListingFacts.all_of_delete.
  rewrite (ListingFacts.process_all_filter
             (fun r => negb (id r =? i)%Z) _ E).
  reflexivity.
Qed.

(** The user of the two images deletes the first. *)
Lemma dashboard_list_after_delete_is_the_listing_witness :
  Routes.list_images true 7 (Db.exec (DeleteImage 1) (db Scenes.second_upload))
  = Json200 (Dashboard.handleDelete 1 Scenes.listing).
Proof.
  apply (@dashboard_list_after_delete_is_the_listing 7 1
           (db Scenes.second_upload) Scenes.listing).
  vm_compute. reflexivity.
Defined.

(* ================================================================== *)
(** * The upload route *)

Module UploadFacts.

(** The column [filename] of a row, which holds the original name. *)
Local Abbreviation row_filename := filename.

Import Upload.

Lemma server_eta (s : server) : mkServer (db s) (uploads s) (workers s) = s.
Proof. destruct s. reflexivity. Qed.

(** Files whose [INSERT] is never attempted only leave their stored
    file behind. *)
Lemma upload_each_stopped (user : Z) (files : list (file * insertion))
  (d : database) (ups : Routes.files) (ws : list Z) :
  upload_each user (reached files false) (mkServer d ups ws)
  = mkServer d (rev (map (fun fi => path (fst fi)) files) ++ ups) ws.
Proof.
  revert ups. induction files as [|[f ins] rest IH]; intros ups;
    [reflexivity|].
  cbn [reached upload_each andb map rev fst]. unfold Server.upload.
  cbn [db uploads workers]. rewrite IH, <- app_assoc. reflexivity.
Qed.

Lemma insert_each_state (user : Z) (files : list (file * insertion))
  (d : database) (ups : Routes.files) (ws : list Z) :
  snd (insert_each user files
         (mkServer d (rev (map (fun fi => path (fst fi)) files) ++ ups) ws))
  = upload_each user (reached files true) (mkServer d ups ws).
Proof.
  revert d ups ws. induction files as [|[f ins] rest IH]; intros d ups ws;
    [reflexivity|].
  cbn [insert_each reached upload_each andb map rev fst].
  destruct (carried_out ins) eqn:C.
  - cbn [db uploads workers]. rewrite <- app_assoc. cbn [app].
    specialize (IH (Db.exec (InsertImage user (originalname f) (path f)
                               (now ins)) d)
                   (path f :: ups)
                   (last_id (Db.exec (InsertImage user (originalname f)
                                        (path f) (now ins)) d) :: ws)).
    destruct (insert_each user rest _) as [r s'] eqn:E.
    cbn [snd] in *. rewrite IH. unfold Server.upload.
    cbn [db uploads workers]. reflexivity.
  - cbn [snd]. unfold Server.upload at 1. cbn [db uploads workers].
    rewrite upload_each_stopped, <- app_assoc. reflexivity.
Qed.

Lemma upload_each_steps (user : Z) (files : list (file * bool * Z))
  (s : server) : Server.steps s (upload_each user files s).
Proof.
  revert s. induction files as [|[[f done] time] rest IH]; intros s.
  - apply Server.steps_refl.
  - cbn [upload_each].
    refine (steps_trans _ (IH _)).
    eapply Server.steps_cons; [apply Server.steps_refl|].
    apply Server.step_upload.
Qed.

Lemma insert_each_reply (user : Z) (files : list (file * insertion))
  (s : server) :
  (forallb (fun fi => carried_out (snd fi)) files = true ->
   exists l, fst (insert_each user files s) = Ok l)
  /\ (forallb (fun fi => carried_out (snd fi)) files = false ->
      fst (insert_each user files s) = Throw IOError).
Proof.
  revert s. induction files as [|[f ins] rest IH]; intros s.
  - split; [intros _; exists []; reflexivity|discriminate].
  - cbn [insert_each forallb snd]. destruct (carried_out ins); cbn [andb].
    + match goal with
      | |- context [insert_each user rest ?s0] =>
          destruct (IH s0) as [A B];
          destruct (insert_each user rest s0) as [r s'] eqn:E
      end.
      cbn [fst] in *. split.
      * intros H. destruct (A H) as [l ->]. cbn [bind]. eauto.
      * intros H. rewrite (B H). reflexivity.
    + split; [discriminate|reflexivity].
Qed.

(** The rows and the elements of the response for files whose
    [INSERT]s are all carried out. *)
Lemma insert_each_all (user : Z) (files : list (file * insertion))
  (s : server) :
  forallb (fun fi => carried_out (snd fi)) files = true ->
  exists (entries : list Entry.t) (rows : list row),
    insert_each user files s
    = (Ok entries,
       mkServer (mkDb (images (db s) ++ rows)
                      (last_id (db s) + Z.of_nat (length files)))
                (uploads s)
                (rev (map id rows) ++ workers s))
    /\ map id rows
       = map (fun k => (last_id (db s) + Z.of_nat k)%Z)
             (seq 1 (length files))
    /\ map Entry.id entries = map id rows
    /\ Forall2 (fun fi r =>
                  user_id r = user
                  /\ row_filename r = originalname (fst fi)
                  /\ original_path r = path (fst fi)
                  /\ created_at r = now (snd fi)
                  /\ status r = processing
                  /\ analysis_result r = None
                  /\ segmentation_data r = None)
               files rows
    /\ Forall2 (fun fi e =>
                  Entry.filename e = filename (fst fi)
                  /\ Entry.originalName e = originalname (fst fi)
                  /\ Entry.path e = lit "/uploads/" ++ filename (fst fi))
               files entries.
Proof.
  revert s. induction files as [|[f ins] rest IH]; intros s H.
  - exists [], []. cbn [insert_each length Z.of_nat map rev app seq].
    rewrite app_nil_r, Z.add_0_r.
    destruct s as [[im li] ups ws]. cbn [db images last_id uploads workers].
    repeat split; constructor.
  - cbn [forallb snd] in H. apply andb_true_iff in H as [C H].
    cbn [insert_each]. rewrite C.
    match goal with
    | |- context [insert_each user rest ?s0] =>
        destruct (IH s0 H) as (entries & rows & E & Ids & Eids & R & N)
    end.
    rewrite E. clear E. cbn [db images last_id uploads workers Db.exec] in *.
    cbn [bind].
    exists (Entry.mk (last_id (db s) + 1) (filename f) (originalname f)
                     (lit "/uploads/" ++ filename f) :: entries),
           (mkRow (last_id (db s) + 1) user (originalname f) (path f)
                  None None processing (now ins) :: rows).
    split; [|split; [|split; [|split]]].
    + f_equal. f_equal.
      * f_equal; [rewrite <- app_assoc; reflexivity|].
        cbn [length]. lia.
      * cbn [map rev id]. rewrite <- app_assoc. reflexivity.
    + cbn [map id length seq]. f_equal; try lia.
      rewrite Ids, <- (seq_shift (length rest) 1), map_map.
      apply map_ext. intros k. lia.
    + cbn [map Entry.id id]. f_equal. exact Eids.
    + constructor; [|exact R]. repeat split.
    + constructor; [|exact N]. repeat split.
Qed.

End UploadFacts.

(** X17: the upload route behaves as a run of single uploads of the
    transition system, in which every file up to the first [INSERT]
    that throws gets its row and its worker, and every later file only
    leaves its stored file behind: nothing is rolled back.  The state
    after the route is therefore one the server can reach from the
    state before it.  The route answers 400 exactly when there is no
    file, and 500 exactly when an [INSERT] is not carried out. *)
Theorem upload_route_is_a_run_of_uploads :
  forall (user : Z) (files : list (Upload.file * Upload.insertion))
         (s : server),
    snd (Upload.upload_images user files s)
    = Upload.upload_each user (Upload.reached files true) s
    /\ Server.steps s (snd (Upload.upload_images user files s))
    /\ (fst (Upload.upload_images user files s) = Upload.NoFiles
        <-> files = [])
    /\ (fst (Upload.upload_images user files s) = Upload.Failed
        <-> forallb (fun fi => Upload.carried_out (snd fi)) files = false).
Proof.
  intros user files s.
  assert (E : snd (Upload.upload_images user files s)
              = Upload.upload_each user (Upload.reached files true) s).
  { unfold Upload.upload_images. destruct files as [|fi rest].
    - cbn [map rev app snd Upload.reached Upload.upload_each].
      apply UploadFacts.server_eta.
    - pose proof (UploadFacts.insert_each_state user (fi :: rest)
                    (db s) (uploads s) (workers s)) as K.
      rewrite UploadFacts.server_eta in K.
      destruct (Upload.insert_each user (fi :: rest) _) as [[l|e] s'];
        exact K. }
  split; [exact E|]. split; [rewrite E; apply UploadFacts.upload_each_steps|].
  unfold Upload.upload_images. destruct files as [|fi rest].
  - cbn [fst]. split; split; try reflexivity; discriminate.
  - match goal with
    | |- context [Upload.insert_each user (fi :: rest) ?s0] =>
        destruct (UploadFacts.insert_each_reply user (fi :: rest) s0)
          as [A B];
        destruct (Upload.insert_each user (fi :: rest) s0) as [r s'] eqn:I
    end.
    cbn [fst] in *.
    destruct (forallb (fun fi0 => Upload.carried_out (snd fi0)) (fi :: rest)).
    + destruct (A eq_refl) as [l ->]. cbn [fst].
      split; split; discriminate.
    + rewrite (B eq_refl). cbn [fst].
      split; split; try reflexivity; discriminate.
Qed.

(** X18: when every [INSERT] of a request with files is carried out, and
    no other statement runs in between, the route answers 200 with one
    element for each file, in the order of the files; the table gets one
    row for each file after the rows it had, with the ids that follow
    the counter, the owner, the names and the time of the file, the
    status [processing] and neither raw output nor analysis; the ids of
    the response are the ids of these rows; and one worker is in flight
    for each of them. *)
Theorem upload_route_inserts_every_file :
  forall (user : Z) (files : list (Upload.file * Upload.insertion))
         (s : server),
    files <> [] ->
    forallb (fun fi => Upload.carried_out (snd fi)) files = true ->
    exists (entries : list Upload.Entry.t) (rows : list row),
      Upload.upload_images user files s
      = (Upload.Images entries,
         mkServer
           (mkDb (images (db s) ++ rows)
                 (last_id (db s) + Z.of_nat (length files)))
           (rev (map (fun fi => Upload.path (fst fi)) files) ++ uploads s)
           (rev (map id rows) ++ workers s))
      /\ map id rows
         = map (fun k => (last_id (db s) + Z.of_nat k)%Z)
               (seq 1 (length files))
      /\ map Upload.Entry.id entries = map id rows
      /\ Forall2 (fun fi r =>
                    user_id r = user
                    /\ filename r = Upload.originalname (fst fi)
                    /\ original_path r = Upload.path (fst fi)
                    /\ created_at r = Upload.now (snd fi)
                    /\ status r = processing
                    /\ analysis_result r = None
                    /\ segmentation_data r = None)
                 files rows
      /\ Forall2 (fun fi e =>
                    Upload.Entry.filename e = Upload.filename (fst fi)
                    /\ Upload.Entry.originalName e
                       = Upload.originalname (fst fi)
                    /\ Upload.Entry.path e
                       = lit "/uploads/" ++ Upload.filename (fst fi))
                 files entries.
Proof.
  intros user files s NE H.
  destruct (UploadFacts.insert_each_all user files
              (mkServer (db s)
                 (rev (map (fun fi => Upload.path (fst fi)) files)
                  ++ uploads s)
                 (workers s)) H)
    as (entries & rows & E & Ids & Eids & R & N).
  exists entries, rows. split; [|auto].
  unfold Upload.upload_images. destruct files as [|fi rest];
    [contradiction|].
  rewrite E. reflexivity.
Qed.

(** Two files uploaded in one request by the user of the two images. *)
Lemma upload_route_inserts_every_file_witness :
  exists (entries : list Upload.Entry.t) (rows : list row),
    Upload.upload_images 7 Scenes.two_files Scenes.second_upload
    = (Upload.Images entries,
       mkServer
         (mkDb (images (db Scenes.second_upload) ++ rows)
               (last_id (db Scenes.second_upload)
                + Z.of_nat (length Scenes.two_files)))
         (rev (map (fun fi => Upload.path (fst fi)) Scenes.two_files)
          ++ uploads Scenes.second_upload)
         (rev (map id rows) ++ workers Scenes.second_upload))
    /\ map id rows
       = map (fun k => (last_id (db Scenes.second_upload) + Z.of_nat k)%Z)
             (seq 1 (length Scenes.two_files))
    /\ map Upload.Entry.id entries = map id rows
    /\ Forall2 (fun fi r =>
                  user_id r = 7%Z
                  /\ filename r = Upload.originalname (fst fi)
                  /\ original_path r = Upload.path (fst fi)
                  /\ created_at r = Upload.now (snd fi)
                  /\ status r = processing
                  /\ analysis_result r = None
                  /\ segmentation_data r = None)
               Scenes.two_files rows
    /\ Forall2 (fun fi e =>
                  Upload.Entry.filename e = Upload.filename (fst fi)
                  /\ Upload.Entry.originalName e
                     = Upload.originalname (fst fi)
                  /\ Upload.Entry.path e
                     = lit "/uploads/" ++ Upload.filename (fst fi))
               Scenes.two_files entries.
Proof.
  apply (@upload_route_inserts_every_file 7 Scenes.two_files
           Scenes.second_upload).
  - discriminate.
  - reflexivity.
Defined.

(* ================================================================== *)
(** * Registration, login and the token *)

Module AuthFacts.

Import Auth Span.

Lemma split_without (s : jstring) :
  without SPACE s = true -> split SPACE s = [s].
Proof.
  induction s as [|c s IH]; simpl; intros H; [reflexivity|].
  apply andb_true_iff in H as [H1 H2]. apply negb_true_iff in H1.
  rewrite H1, (IH H2). reflexivity.
Qed.

Lemma split_app (a b : jstring) :
  without SPACE a = true ->
  split SPACE (a ++ SPACE :: b) = a :: split SPACE b.
Proof.
  induction a as [|c a IH]; simpl; intros H.
  - reflexivity.
  - apply andb_true_iff in H as [H1 H2]. apply negb_true_iff in H1.
    rewrite H1, (IH H2). reflexivity.
Qed.

Lemma split_cons (s : jstring) :
  exists p ps, split SPACE s = p :: ps.
Proof.
  induction s as [|c s (p & ps & IH)]; simpl; [eauto|].
  destruct (c =? SPACE)%N; [eauto|]. rewrite IH. eauto.
Qed.

(** What the pieces of a string say about it. *)
Lemma split_inv (s p : jstring) (ps : list jstring) :
  split SPACE s = p :: ps ->
  without SPACE p = true
  /\ match ps with
     | [] => s = p
     | _ :: _ => exists r, s = p ++ SPACE :: r /\ split SPACE r = ps
     end.
Proof.
  revert p ps. induction s as [|c s IH]; simpl; intros p ps H.
  - injection H as <- <-. split; reflexivity.
  - destruct (c =? SPACE)%N eqn:E.
    + injection H as <- <-. split; [reflexivity|].
      apply N.eqb_eq in E. subst c.
      destruct (split_cons s) as (q & qs & S). rewrite S.
      exists s. split; [reflexivity|exact S].
    + destruct (split_cons s) as (q & qs & S). rewrite S in H.
      injection H as <- <-. destruct (IH q qs S) as [W K].
      split; [simpl; rewrite E; exact W|].
      destruct qs as [|q' qs]; [congruence|].
      destruct K as (r & -> & Sr). exists r. split; [reflexivity|exact Sr].
Qed.

Lemma find_app (A : Type) (p : A -> bool) (l m : list A) :
  find p (l ++ m)
  = match find p l with
    | Some x => Some x
    | None => find p m
    end.
Proof.
  induction l as [|x l IH]; simpl; [reflexivity|].
  destruct (p x); [reflexivity|exact IH].
Qed.

Lemma find_none_existsb (A : Type) (p : A -> bool) (l : list A) :
  existsb p l = false -> find p l = None.
Proof.
  induction l as [|x l IH]; simpl; [reflexivity|].
  destruct (p x); [discriminate|exact IH].
Qed.

(** A registration that is answered 201 appends one row; any other
    answer leaves the table as it was. *)
Lemma register_inv (w : registration) (b : body) (t : users_table) :
  (fst (register w b t) = Registered
   /\ exists h : jstring,
        hashed w = Done h
        /\ blank (body_username b) = false
        /\ blank (body_email b) = false
        /\ blank (body_password b) = false
        /\ existsb (fun r => Str.eqb (username r) (value_of (body_username b)))
                   (users t) = false
        /\ existsb (fun r => Str.eqb (email r) (value_of (body_email b)))
                   (users t) = false
        /\ snd (register w b t)
           = mkUsers (users t
                      ++ [mkUser (last_user t + 1)
                                 (value_of (body_username b))
                                 (value_of (body_email b)) h
                                 (registered_at w)])
                     (last_user t + 1))
  \/ (fst (register w b t) <> Registered /\ snd (register w b t) = t).
Proof.
  unfold register, register_catch.
  destruct (blank (body_username b)); cbn [orb];
    [right; split; [discriminate|reflexivity]|].
  destruct (blank (body_email b)); cbn [orb];
    [right; split; [discriminate|reflexivity]|].
  destruct (blank (body_password b)); cbn [orb];
    [right; split; [discriminate|reflexivity]|].
  destruct (hashed w) as [h|m].
  2:{ right. destruct (includes m (lit "UNIQUE"));
        split; try discriminate; reflexivity. }
  destruct (run_error w) as [m|].
  { right. destruct (includes m (lit "UNIQUE"));
      split; try discriminate; reflexivity. }
  unfold insert_user.
  destruct (existsb (fun r => Str.eqb (username r) (value_of (body_username b)))
                    (users t)).
  { right. split; [discriminate|reflexivity]. }
  destruct (existsb (fun r => Str.eqb (email r) (value_of (body_email b)))
                    (users t)).
  { right. split; [discriminate|reflexivity]. }
  left. split; [reflexivity|]. exists h. repeat split.
Qed.

(** Registrations only append rows. *)
Lemma registrations_append (t t' : users_table) :
  registrations t t' -> exists more, users t' = users t ++ more.
Proof.
  induction 1 as [t|t t' w b _ [more IH]].
  - exists []. rewrite app_nil_r. reflexivity.
  - destruct (register_inv w b t') as [(_ & h & _ & _ & _ & _ & _ & _ & ->)|[_ ->]].
    + simpl. rewrite IH, <- app_assoc. eauto.
    + eauto.
Qed.

End AuthFacts.

Module AuthInvariants.

Import Auth AuthFacts.

Lemma not_in_names (f : user -> jstring) (x : jstring) (l : list user) :
  existsb (fun r => Str.eqb (f r) x) l = false -> ~ In x (map f l).
Proof.
  intros H Hin. apply in_map_iff in Hin as (r & E & Hr).
  assert (X : existsb (fun r => Str.eqb (f r) x) l = true).
  { apply existsb_exists. exists r. split; [exact Hr|].
    rewrite E. apply ObjFacts.eqb_refl. }
  congruence.
Qed.

Lemma in_names (f : user -> jstring) (x : jstring) (l : list user)
  (u : user) :
  In u l -> f u = x -> existsb (fun r => Str.eqb (f r) x) l = true.
Proof.
  intros Hu E. apply existsb_exists. exists u. split; [exact Hu|].
  rewrite E. apply ObjFacts.eqb_refl.
Qed.

Lemma NoDup_snoc (A : Type) (l : list A) (a : A) :
  NoDup l -> ~ In a l -> NoDup (l ++ [a]).
Proof.
  intros N H. apply (Permutation_NoDup (l := a :: l)).
  - apply Permutation_cons_append.
  - constructor; assumption.
Qed.

Lemma unique_register (w : registration) (b : body) (t : users_table) :
  unique t -> unique (snd (register w b t)).
Proof.
  intros (Nu & Ne & Ni & B & L).
  destruct (register_inv w b t)
    as [(_ & h & _ & _ & _ & _ & Eu & Ee & ->)|[_ ->]];
    [|exact (conj Nu (conj Ne (conj Ni (conj B L))))].
  unfold unique. cbn [users last_user]. rewrite !map_app. cbn [map].
  cbn [username email id].
  split; [apply NoDup_snoc; [exact Nu|exact (not_in_names _ _ _ Eu)]|].
  split; [apply NoDup_snoc; [exact Ne|exact (not_in_names _ _ _ Ee)]|].
  rewrite Forall_forall in B.
  split; [|split; [|lia]].
  - apply NoDup_snoc; [exact Ni|].
    intros Hin. apply in_map_iff in Hin as (r & E & Hr).
    specialize (B r Hr). lia.
  - apply Forall_forall. intros r Hr.
    apply in_app_or in Hr as [Hr|[<-|[]]].
    + specialize (B r Hr). lia.
    + cbn [id]. lia.
Qed.

Lemma unique_registered (t : users_table) : registered t -> unique t.
Proof.
  unfold registered.
  assert (G : forall t0 t1, registrations t0 t1 -> unique t0 -> unique t1).
  { induction 1 as [t0|t0 t1 w b _ IH]; intros U; [exact U|].
    apply unique_register. exact (IH U). }
  intros R. apply (G _ _ R).
  repeat split; try constructor. simpl. lia.
Qed.

(** The second word of a header that has one. *)
Lemma second_word (scheme token : jstring) (rest : option jstring) :
  Span.without SPACE scheme = true ->
  Span.without SPACE token = true ->
  nth_error
    (split SPACE
       (scheme ++ SPACE :: token
        ++ match rest with
           | Some r => SPACE :: r
           | None => []
           end)) 1
  = Some token.
Proof.
  intros Ws Wt. rewrite (@split_app scheme _ Ws). cbn [nth_error].
  destruct rest as [r|].
  - rewrite (@split_app token _ Wt). reflexivity.
  - rewrite app_nil_r, (@split_without token Wt). reflexivity.
Qed.

Lemma verifyToken_second_word (A : Type) (verify : jstring -> option A)
  (scheme token : jstring) (rest : option jstring) :
  Span.without SPACE scheme = true ->
  Span.without SPACE token = true ->
  verifyToken verify
    (Some (scheme ++ SPACE :: token
           ++ match rest with
              | Some r => SPACE :: r
              | None => []
              end))
  = match token with
    | [] => NoTokenProvided
    | _ :: _ =>
        match verify token with
        | Some decoded => Next decoded
        | None => InvalidToken
        end
    end.
Proof.
  intros Ws Wt. unfold verifyToken.
  rewrite (@second_word scheme token rest Ws Wt).
  destruct token; reflexivity.
Qed.

End AuthInvariants.

(** X19: the middleware takes as the token what stands between the first
    and the second space of the [Authorization] header, whatever word
    comes first: without header, or with a header that has no space, it
    answers that no token was provided; with a header made of a first
    word, a space, a second word and then nothing or a space and
    anything, it answers that no token was provided when the second
    word is empty, and otherwise calls [next] with what [jwt.verify]
    returns for the second word, or answers that the token is invalid
    when [jwt.verify] throws.  It calls [next] in no other case. *)
Theorem verifyToken_reads_the_second_word :
  forall (A : Type) (verify : jstring -> option A),
    Auth.verifyToken verify None = Auth.NoTokenProvided
    /\ (forall header : jstring,
          Span.without Auth.SPACE header = true ->
          Auth.verifyToken verify (Some header) = Auth.NoTokenProvided)
    /\ (forall (scheme token : jstring) (rest : option jstring),
          Span.without Auth.SPACE scheme = true ->
          Span.without Auth.SPACE token = true ->
          Auth.verifyToken verify
            (Some (scheme ++ Auth.SPACE :: token
                   ++ match rest with
                      | Some r => Auth.SPACE :: r
                      | None => []
                      end))
          = match token with
            | [] => Auth.NoTokenProvided
            | _ :: _ =>
                match verify token with
                | Some decoded => Auth.Next decoded
                | None => Auth.InvalidToken
                end
            end)
    /\ (forall (header : option jstring) (decoded : A),
          Auth.verifyToken verify header = Auth.Next decoded ->
          exists (scheme token : jstring) (rest : option jstring),
            header
            = Some (scheme ++ Auth.SPACE :: token
                    ++ match rest with
                       | Some r => Auth.SPACE :: r
                       | None => []
                       end)
            /\ Span.without Auth.SPACE scheme = true
            /\ Span.without Auth.SPACE token = true
            /\ token <> []
            /\ verify token = Some decoded).
Proof.
  intros A verify.
  split; [reflexivity|]. split; [|split].
  - intros header W. unfold Auth.verifyToken.
    rewrite (@AuthFacts.split_without header W). reflexivity.
  - intros scheme token rest Ws Wt.
    exact (@AuthInvariants.verifyToken_second_word A verify scheme token
             rest Ws Wt).
  - intros header decoded H. unfold Auth.verifyToken in H.
    destruct header as [header|]; [|discriminate].
    destruct (AuthFacts.split_cons header) as (p & ps & S).
    rewrite S in H. cbn [nth_error] in H.
    destruct ps as [|token ps']; [discriminate|]. cbn [nth_error] in H.
    destruct token as [|c token]; [discriminate|].
    cbn [Auth.blank Auth.value_of] in H.
    destruct (verify (c :: token)) as [u|] eqn:V; [|discriminate].
    injection H as ->.
    destruct (@AuthFacts.split_inv _ _ _ S) as [Wp (r & -> & Sr)].
    destruct (@AuthFacts.split_inv _ _ _ Sr) as [Wt K].
    exists p, (c :: token).
    destruct ps' as [|q qs].
    + exists None. subst r. rewrite app_nil_r.
      repeat split; try assumption. discriminate.
    + destruct K as (r' & -> & _). exists (Some r').
      repeat split; try assumption. discriminate.
Qed.

(** X20: a user who has registered can log in and is then recognised: after
    a registration answered 201, and after any further requests for
    registration, a login with the same email and password is answered
    200 with the token that [jwt.sign] returns for the id, the email and
    the name of the row inserted, as long as [bcrypt.compare] accepts
    the password for the hash stored and the query is carried out; and
    when that token has no space and [jwt.verify] returns its payload, a
    request that carries it after the word Bearer passes the middleware
    with that payload as its user. *)
Theorem registered_user_can_log_in :
  forall (t t' : Auth.users_table) (w : Auth.registration)
         (wa : Auth.authentication) (b : Auth.body) (h token : jstring),
    fst (Auth.register w b t) = Auth.Registered ->
    Auth.registrations (snd (Auth.register w b t)) t' ->
    Auth.hashed w = Auth.Done h ->
    Auth.get_error wa = None ->
    Auth.compare wa (Auth.value_of (Auth.body_password b)) h
    = Auth.Done true ->
    Auth.sign wa (Auth.mkClaims (Auth.last_user t + 1)
                    (Auth.value_of (Auth.body_email b))
                    (Auth.value_of (Auth.body_username b)))
    = Auth.Done token ->
    Auth.login wa b t'
    = Auth.LoggedIn token
        (Auth.mkClaims (Auth.last_user t + 1)
           (Auth.value_of (Auth.body_email b))
           (Auth.value_of (Auth.body_username b)))
    /\ (forall verify : jstring -> option Auth.claims,
          Span.without Auth.SPACE token = true -> token <> [] ->
          verify token
          = Some (Auth.mkClaims (Auth.last_user t + 1)
                    (Auth.value_of (Auth.body_email b))
                    (Auth.value_of (Auth.body_username b))) ->
          Auth.verifyToken verify (Some (lit "Bearer " ++ token))
          = Auth.Next
              (Auth.mkClaims (Auth.last_user t + 1)
                 (Auth.value_of (Auth.body_email b))
                 (Auth.value_of (Auth.body_username b)))).
Proof.
  intros t t' w wa b h token Reg Later Hh Get Cmp Sign.
  destruct (AuthFacts.register_inv w b t)
    as [(_ & h' & Hh' & Bu & Be & Bp & Eu & Ee & Et)|[NR _]];
    [|contradiction].
  rewrite Hh in Hh'. injection Hh' as <-.
  destruct (@AuthFacts.registrations_append _ _ Later) as [more Em].
  rewrite Et in Em. cbn [Auth.users] in Em.
  split.
  - unfold Auth.login, Auth.by_email. rewrite Be, Bp, Get. cbn [orb].
    rewrite Em, <- app_assoc, AuthFacts.find_app.
    rewrite (@AuthFacts.find_none_existsb _ _ _ Ee).
    cbn [app find Auth.email]. rewrite ObjFacts.eqb_refl.
    cbn [Auth.password Auth.id Auth.email Auth.username].
    rewrite Cmp, Sign. reflexivity.
  - intros verify W NE V.
    pose proof (@AuthInvariants.verifyToken_second_word Auth.claims verify
                  (lit "Bearer") token None eq_refl W) as E.
    rewrite app_nil_r in E.
    replace (lit "Bearer " ++ token)
      with (lit "Bearer" ++ Auth.SPACE :: token) by reflexivity.
    rewrite E, V. destruct token; [contradiction|reflexivity].
Qed.

(** The registration and the login of the sample user. *)
Lemma registered_user_can_log_in_witness :
  Auth.login Scenes.accepting Scenes.ada
    (snd (Auth.register Scenes.hashing Scenes.ada Auth.no_users))
  = Auth.LoggedIn (lit "header.payload.signature")
      (Auth.mkClaims (Auth.last_user Auth.no_users + 1)
         (Auth.value_of (Auth.body_email Scenes.ada))
         (Auth.value_of (Auth.body_username Scenes.ada)))
  /\ (forall verify : jstring -> option Auth.claims,
        Span.without Auth.SPACE (lit "header.payload.signature") = true ->
        lit "header.payload.signature" <> [] ->
        verify (lit "header.payload.signature")
        = Some (Auth.mkClaims (Auth.last_user Auth.no_users + 1)
                  (Auth.value_of (Auth.body_email Scenes.ada))
                  (Auth.value_of (Auth.body_username Scenes.ada))) ->
        Auth.verifyToken verify
          (Some (lit "Bearer " ++ lit "header.payload.signature"))
        = Auth.Next
            (Auth.mkClaims (Auth.last_user Auth.no_users + 1)
               (Auth.value_of (Auth.body_email Scenes.ada))
               (Auth.value_of (Auth.body_username Scenes.ada)))).
Proof.
  apply (@registered_user_can_log_in Auth.no_users
           (snd (Auth.register Scenes.hashing Scenes.ada Auth.no_users))
           Scenes.hashing Scenes.accepting Scenes.ada
           (lit "$2a$10$hash") (lit "header.payload.signature")).
  - reflexivity.
  - apply Auth.registrations_none.
  - reflexivity.
  - reflexivity.
  - reflexivity.
  - reflexivity.
Defined.

(** X21: the table of users keeps the constraints of its schema through
    every sequence of requests for registration: no user name, no email
    and no id occurs twice.  A request that is not answered 201 leaves
    the table as it was; and a request whose user name or email is that
    of a user of the table is never answered 201: it is answered 400,
    as already existing, whenever its three fields are given, the
    password is hashed and the database meets no other failure. *)
Theorem registration_keeps_users_unique :
  forall t : Auth.users_table,
    Auth.registered t ->
    NoDup (map Auth.username (Auth.users t))
    /\ NoDup (map Auth.email (Auth.users t))
    /\ NoDup (map Auth.id (Auth.users t))
    /\ (forall (w : Auth.registration) (b : Auth.body),
          fst (Auth.register w b t) <> Auth.Registered ->
          snd (Auth.register w b t) = t)
    /\ (forall (w : Auth.registration) (b : Auth.body) (u : Auth.user),
          In u (Auth.users t) ->
          Auth.username u = Auth.value_of (Auth.body_username b)
          \/ Auth.email u = Auth.value_of (Auth.body_email b) ->
          fst (Auth.register w b t) <> Auth.Registered
          /\ (Auth.blank (Auth.body_username b) = false ->
              Auth.blank (Auth.body_email b) = false ->
              Auth.blank (Auth.body_password b) = false ->
              (exists h : jstring, Auth.hashed w = Auth.Done h) ->
              Auth.run_error w = None ->
              fst (Auth.register w b t) = Auth.AlreadyExists)).
Proof.
  intros t R.
  destruct (AuthInvariants.unique_registered R) as (Nu & Ne & Ni & _).
  split; [exact Nu|]. split; [exact Ne|]. split; [exact Ni|]. split.
  - intros w b NR.
    destruct (AuthFacts.register_inv w b t) as [(Reg & _)|[_ E]];
      [contradiction|exact E].
  - intros w b u Hu D.
    assert (X : existsb (fun r => Str.eqb (Auth.username r)
                                    (Auth.value_of (Auth.body_username b)))
                        (Auth.users t) = true
                \/ existsb (fun r => Str.eqb (Auth.email r)
                                       (Auth.value_of (Auth.body_email b)))
                           (Auth.users t) = true).
    { destruct D as [D|D]; [left|right];
        exact (AuthInvariants.in_names _ _ _ Hu D). }
    split.
    + destruct (AuthFacts.register_inv w b t)
        as [(_ & h & _ & _ & _ & _ & Eu & Ee & _)|[NR _]]; [|exact NR].
      destruct X as [X|X]; congruence.
    + intros Bu Be Bp [h Hh] Run.
      unfold Auth.register. rewrite Bu, Be, Bp, Hh, Run. cbn [orb].
      unfold Auth.insert_user.
      destruct (existsb (fun r => Str.eqb (Auth.username r)
                                    (Auth.value_of (Auth.body_username b)))
                        (Auth.users t)); [reflexivity|].
      destruct X as [X|X]; [discriminate|]. rewrite X. reflexivity.
Qed.

(** The table after the registration of the sample user. *)
Lemma registration_keeps_users_unique_witness :
  NoDup (map Auth.username
           (Auth.users (snd (Auth.register Scenes.hashing Scenes.ada
                               Auth.no_users))))
  /\ NoDup (map Auth.email
              (Auth.users (snd (Auth.register Scenes.hashing Scenes.ada
                                  Auth.no_users))))
  /\ NoDup (map Auth.id
              (Auth.users (snd (Auth.register Scenes.hashing Scenes.ada
                                  Auth.no_users))))
  /\ (forall (w : Auth.registration) (b : Auth.body),
        fst (Auth.register w b
               (snd (Auth.register Scenes.hashing Scenes.ada Auth.no_users)))
        <> Auth.Registered ->
        snd (Auth.register w b
               (snd (Auth.register Scenes.hashing Scenes.ada Auth.no_users)))
        = snd (Auth.register Scenes.hashing Scenes.ada Auth.no_users))
  /\ (forall (w : Auth.registration) (b : Auth.body) (u : Auth.user),
        In u (Auth.users (snd (Auth.register Scenes.hashing Scenes.ada
                                 Auth.no_users))) ->
        Auth.username u = Auth.value_of (Auth.body_username b)
        \/ Auth.email u = Auth.value_of (Auth.body_email b) ->
        fst (Auth.register w b
               (snd (Auth.register Scenes.hashing Scenes.ada Auth.no_users)))
        <> Auth.Registered
        /\ (Auth.blank (Auth.body_username b) = false ->
            Auth.blank (Auth.body_email b) = false ->
            Auth.blank (Auth.body_password b) = false ->
            (exists h : jstring, Auth.hashed w = Auth.Done h) ->
            Auth.run_error w = None ->
            fst (Auth.register w b
                   (snd (Auth.register Scenes.hashing Scenes.ada
                           Auth.no_users)))
            = Auth.AlreadyExists)).
Proof.
  apply (@registration_keeps_users_unique
           (snd (Auth.register Scenes.hashing Scenes.ada Auth.no_users))).
  apply Auth.registrations_more. apply Auth.registrations_none.
Defined.

(** X22: a login is answered 200 only for a row of the table that has the
    email of the request and a hash for which [bcrypt.compare] accepts
    the password of the request; the user of the answer and the payload
    of the token are the id, the email and the name of that row, and the
    token is what [jwt.sign] returns for them. *)
Theorem login_needs_the_accepted_password :
  forall (wa : Auth.authentication) (b : Auth.body) (t : Auth.users_table)
         (token : jstring) (c : Auth.claims),
    Auth.login wa b t = Auth.LoggedIn token c ->
    exists u : Auth.user,
      In u (Auth.users t)
      /\ Auth.email u = Auth.value_of (Auth.body_email b)
      /\ Auth.compare wa (Auth.value_of (Auth.body_password b))
                      (Auth.password u)
         = Auth.Done true
      /\ c = Auth.mkClaims (Auth.id u) (Auth.email u) (Auth.username u)
      /\ Auth.sign wa c = Auth.Done token.
Proof.
  intros wa b t token c H. unfold Auth.login in H.
  destruct (Auth.blank (Auth.body_email b) || Auth.blank (Auth.body_password b));
    [discriminate|].
  destruct (Auth.get_error wa); [discriminate|].
  destruct (Auth.by_email (Auth.value_of (Auth.body_email b)) t) as [u|] eqn:G;
    [|discriminate].
  destruct (Auth.compare wa (Auth.value_of (Auth.body_password b))
                         (Auth.password u)) as [[|]|] eqn:Cm;
    try discriminate.
  destruct (Auth.sign wa _) as [tok|] eqn:Sg; [|discriminate].
  injection H as <- <-.
  unfold Auth.by_email in G. apply find_some in G as [Hin E].
  apply ObjFacts.eqb_eq in E.
  exists u. repeat split; assumption.
Qed.

Lemma login_needs_the_accepted_password_witness :
  exists u : Auth.user,
    In u (Auth.users (snd (Auth.register Scenes.hashing Scenes.ada
                             Auth.no_users)))
    /\ Auth.email u = Auth.value_of (Auth.body_email Scenes.ada)
    /\ Auth.compare Scenes.accepting
         (Auth.value_of (Auth.body_password Scenes.ada)) (Auth.password u)
       = Auth.Done true
    /\ Auth.mkClaims 1 (lit "ada@example.org") (lit "ada")
       = Auth.mkClaims (Auth.id u) (Auth.email u) (Auth.username u)
    /\ Auth.sign Scenes.accepting
         (Auth.mkClaims 1 (lit "ada@example.org") (lit "ada"))
       = Auth.Done (lit "header.payload.signature").
Proof.
  apply (@login_needs_the_accepted_password Scenes.accepting Scenes.ada
           (snd (Auth.register Scenes.hashing Scenes.ada Auth.no_users))
           (lit "header.payload.signature")
           (Auth.mkClaims 1 (lit "ada@example.org") (lit "ada"))).
  reflexivity.
Defined.

(* ================================================================== *)
(** * The boxes drawn over the image *)

Module CanvasFacts.

Import Num NumFacts Canvas.





(** An item whose label can be tested gets a colour. *)
Lemma color_of_total (item : json) :
  label_readable item = true -> exists c, color_of item = Ok c.
Proof.
  intros R. unfold color_of.
  destruct (CoverageFacts.label_includes_total (lit "weed") item R) as [w ->].
  destruct (CoverageFacts.label_includes_total (lit "crop") item R) as [c ->].
  destruct (CoverageFacts.label_includes_total (lit "soil") item R) as [s ->].
  cbn [bind]. destruct w; [eauto|]. destruct c; [eauto|]. eauto.
Qed.

Lemma scaled_total (b : json) (size : qnum) :
  Reference.traps b = false -> exists n, scaled b size = Ok n.
Proof.
  intros T. unfold scaled. rewrite (CoercionFacts.coerced_ok _ T).
  cbn [bind]. eauto.
Qed.

(** The label over the box is written for an item whose label can be
    tested and whose confidence does not trap. *)
Lemma caption_total (o : object) :
  label_readable (JObj o) = true ->
  match Obj.lookup CONFIDENCE o with
  | Some c => Reference.traps c
  | None => false
  end = false ->
  exists t, caption (JObj o) = Ok t.
Proof.
  unfold caption, label_readable. cbn [member bind]. intros R T.
  assert (N : exists name,
            match Obj.lookup LABEL o with
            | Some l => if truthy (Obj.lookup LABEL o) then ToString l
                        else Ok (lit "item")
            | None => Ok (lit "item")
            end = Ok name).
  { destruct (Obj.lookup LABEL o) as [l|]; [|eauto].
    destruct l as [|b|n|t|l|p];
      match goal with
      | |- context [truthy ?v] => destruct (truthy v)
      end; try discriminate R; eexists; reflexivity. }
  destruct N as [name ->]. cbn [bind].
  destruct (Obj.lookup CONFIDENCE o) as [c|]; [|cbn [truthy bind]; eauto].
  destruct (truthy (Some c)); cbn [bind]; [|eauto].
  rewrite (CoercionFacts.coerced_ok _ T). cbn [bind]. eauto.
Qed.

Lemma paint_item_total (w h : qnum) (item : json) :
  label_readable item = true -> drawable item = true ->
  exists d, paint_item w h item = Ok d.
Proof.
  intros R D. unfold paint_item, draw_item.
  destruct item as [|b|n|t|l|o]; try discriminate R;
    try (eexists; reflexivity).
  unfold drawable in D. cbn [Reference.bounding_box] in D.
  cbn [member bind].
  destruct (Obj.lookup BOX_2D o)
    as [[| | | |[|b0 [|b1 [|b2 [|b3 [|b4 l]]]]]|]|];
    try (eexists; reflexivity).
  apply andb_true_iff in D as [D1 D2].
  apply negb_true_iff in D1, D2. cbn [existsb] in D1.
  apply orb_false_iff in D1 as [T0 D1].
  apply orb_false_iff in D1 as [T1 D1].
  apply orb_false_iff in D1 as [T2 D1].
  apply orb_false_iff in D1 as [T3 _].
  destruct (@scaled_total b0 h T0) as [y0 ->].
  destruct (@scaled_total b1 w T1) as [x0 ->].
  destruct (@scaled_total b2 h T2) as [y1 ->].
  destruct (@scaled_total b3 w T3) as [x1 ->].
  cbn [bind].
  destruct (color_of_total (JObj o) R) as [c ->]. cbn [bind].
  destruct (caption_total o R D2) as [t ->]. cbn [bind]. eauto.
Qed.

Lemma draw_each_total (w h : qnum) (items : list json) :
  forallb label_readable items = true ->
  forallb drawable items = true ->
  exists painted, draw_each w h items = Ok painted.
Proof.
  induction items as [|it r IH]; simpl; intros H D; [eauto|].
  apply andb_true_iff in H as [H1 H2].
  apply andb_true_iff in D as [D1 D2].
  destruct (paint_item_total w h it H1 D1) as [d ->].
  destruct (IH H2 D2) as [ds ->]. cbn [bind]. eauto.
Qed.

(** The items of a payload on which the guarded block returns can all
    be tested for their label. *)
Lemma countable_readable (items : list json) :
  forallb Reference.countable items = true ->
  forallb label_readable items = true.
Proof.
  induction items as [|it r IH]; simpl; [reflexivity|].
  intros H. apply andb_true_iff in H as [H1 H2].
  rewrite (IH H2). unfold Reference.countable in H1.
  apply andb_true_iff in H1 as [-> _]. reflexivity.
Qed.

End CanvasFacts.



(** X25: the page draws without exception every analysis that the
    worker has stored, whose numbers are all finite, and whose items are
    all drawable: an item is drawable when it has no box of four
    elements, or when neither an element of its box nor its confidence
    is an object with a property [toString] of its own, or an array
    holding one.  The client then reads back the analysis itself, every
    item of it has passed the label test of the worker, and the loop
    over the items reaches its end, whatever the size of the image. *)
Theorem stored_items_are_drawn_without_exception :
  forall (raw : jstring) (o : object) (w h : qnum),
    normalize raw = Ok (JObj o) -> Wf.finite (JObj o) = true ->
    (forall its : list json,
       Obj.lookup ITEMS o = Some (JArr its) ->
       forallb Canvas.drawable its = true) ->
    Readback.read_back (JObj o) = JObj o
    /\ exists painted : list (Canvas.rect * Canvas.color * (jstring * num)),
         Canvas.draw_items w h (Readback.read_back (JObj o)) = Ok painted.
Proof.
  intros raw o' w h N F Dr.
  rewrite (ReadbackFacts.read_back_finite _ F). split; [reflexivity|].
  unfold normalize in N.
  destruct (extract raw) as [p|] eqn:E; [|discriminate]. cbn [bind] in N.
  destruct (extract_object _ E) as [_ [o ->]].
  destruct (backfill_object_inv _ N) as [[NA Ev]|(its & o1 & Hits & D & Ev)];
    injection Ev as ->.
  - unfold Canvas.draw_items. cbn [truthy member bind].
    destruct (Obj.lookup ITEMS o) as [[| | | |l|]|]; try discriminate;
      eexists; reflexivity.
  - destruct (derive_fields _ _ D) as (_ & _ & _ & _ & _ & _ & _ & Fr).
    unfold Canvas.draw_items. cbn [truthy member bind].
    assert (L : Obj.lookup ITEMS o1 = Some (JArr its)).
    { rewrite (Fr ITEMS) by reflexivity. exact Hits. }
    rewrite L.
    apply CanvasFacts.draw_each_total; [|exact (Dr its L)].
    apply CanvasFacts.countable_readable.
    pose proof (derive_countable o its) as Cn. rewrite D in Cn. exact Cn.
Qed.

Lemma stored_items_are_drawn_without_exception_witness :
  Readback.read_back (JObj Sample.weed_patch_result)
  = JObj Sample.weed_patch_result
  /\ exists painted : list (Canvas.rect * Canvas.color * (jstring * num)),
       Canvas.draw_items (QFin 640) (QFin 480)
         (Readback.read_back (JObj Sample.weed_patch_result))
       = Ok painted.
Proof.
  apply (@stored_items_are_drawn_without_exception Sample.weed_patch_text
           Sample.weed_patch_result (QFin 640) (QFin 480)).
  - vm_compute. reflexivity.
  - reflexivity.
  - intros its H. injection H as <-. reflexivity.
Defined.

(** Two cases left out above.  An item that is a number too large to be
    held: the worker stores the analysis, the client reads [null] in the
    place of the item, and the drawing throws.  And an item that is not
    drawable: the worker, which looks at the boxes of weeds and crops
    only and never at a confidence, stores the analysis, and the drawing
    throws on the confidence. *)
Example items_that_are_not_drawn :
  (exists v : json,
     normalize (text "{'items':[1e999]}") = Ok v
     /\ Wf.finite v = false
     /\ Canvas.draw_items (QFin 640) (QFin 480) (Readback.read_back v)
        = Throw TypeError)
  /\ (exists v : json,
        normalize
          (text "{'items':[{'label':'soil','confidence':{'toString':1},'box_2d':[0,0,10,10]}]}")
        = Ok v
        /\ Wf.finite v = true
        /\ Canvas.draw_items (QFin 640) (QFin 480) (Readback.read_back v)
           = Throw TypeError).
Proof.
  split; eexists; (split; [vm_compute; reflexivity|]); split;
    vm_compute; reflexivity.
Qed.

(* ================================================================== *)
(** * Fetching what has been uploaded *)

Module FetchFacts.

(** The query for one image finds the row of that id and owner, which
    is the only row of that id. *)
Lemma get_row (s : server) (r : row) :
  Lifecycle.numbered s -> In r (images (db s)) ->
  Db.get (id r) (user_id r) (db s) = Some r.
Proof.
  intros (N & _) Hr. unfold Db.get.
  destruct (find (fun r0 => (id r0 =? id r)%Z && (user_id r0 =? user_id r)%Z)
                 (images (db s))) as [r0|] eqn:F.
  - apply find_some in F as [H0 E]. apply andb_true_iff in E as [E _].
    apply Z.eqb_eq in E.
    rewrite (LifeFacts.NoDup_id_eq _ _ _ N H0 Hr E). reflexivity.
  - exfalso. apply (find_none _ _ F) in Hr.
    rewrite !Z.eqb_refl in Hr. discriminate.
Qed.

(** The elements of the response against the rows inserted. *)
Lemma entries_rows (user : Z) (files : list (Upload.file * Upload.insertion))
  (entries : list Upload.Entry.t) (rows : list row) :
  map Upload.Entry.id entries = map id rows ->
  Forall2 (fun fi r =>
             user_id r = user
             /\ filename r = Upload.originalname (fst fi)
             /\ original_path r = Upload.path (fst fi)
             /\ created_at r = Upload.now (snd fi)
             /\ status r = processing
             /\ analysis_result r = None
             /\ segmentation_data r = None)
          files rows ->
  Forall2 (fun fi e =>
             Upload.Entry.filename e = Upload.filename (fst fi)
             /\ Upload.Entry.originalName e = Upload.originalname (fst fi)
             /\ Upload.Entry.path e
                = lit "/uploads/" ++ Upload.filename (fst fi))
          files entries ->
  Forall2 (fun e r =>
             Upload.Entry.id e = id r
             /\ Upload.Entry.originalName e = filename r
             /\ user_id r = user
             /\ status r = processing
             /\ segmentation_data r = None)
          entries rows.
Proof.
  intros Ids R. revert entries Ids.
  induction R as [|fi r files rows (U & Fn & _ & _ & St & _ & Sg) _ IH];
    intros entries Ids E.
  - inversion E; subst. constructor.
  - inversion E as [|fi' e files' entries' (_ & On & _) E']; subst.
    simpl in Ids. injection Ids as Id1 Ids.
    constructor; [|exact (IH _ Ids E')].
    repeat split; try assumption. congruence.
Qed.

(** The names and the owner that the two updates leave alone. *)
Lemma set_completed_names (i : Z) (raw seg : jstring) (r : row) :
  id (Db.set_completed i raw seg r) = id r
  /\ user_id (Db.set_completed i raw seg r) = user_id r
  /\ filename (Db.set_completed i raw seg r) = filename r.
Proof.
  unfold Db.set_completed. destruct (id r =? i)%Z; repeat split.
Qed.

(** A record keeps its id, its owner and its name as long as it is in
    the table, whatever the server does. *)
Lemma row_kept (s t : server) (r : row) :
  Server.steps s t -> Lifecycle.numbered s -> In r (images (db s)) ->
  Lifecycle.numbered t
  /\ (id r <= last_id (db t))%Z
  /\ forall r' : row,
       In r' (images (db t)) -> id r' = id r ->
       user_id r' = user_id r /\ filename r' = filename r.
Proof.
  intros St Nm Hr. induction St as [s|s t u St IH Step].
  - split; [exact Nm|]. split.
    + destruct Nm as (_ & B & _). rewrite Forall_forall in B.
      destruct (B r Hr). lia.
    + intros r' Hr' E. destruct Nm as (N & _).
      rewrite (LifeFacts.NoDup_id_eq _ _ _ N Hr' Hr E). split; reflexivity.
  - destruct (IH Nm Hr) as (Nt & Bt & Kt).
    split; [exact (LifeFacts.numbered_step Step Nt)|].
    split; [pose proof (LifeFacts.last_id_step Step); lia|].
    destruct Step as [t carried_out user name path now|t w i Hi|t d user i].
    + unfold Server.upload. destruct carried_out; [|exact Kt].
      cbn [db Db.exec images]. intros r' Hr' E.
      apply in_app_or in Hr' as [Hr'|[<-|[]]]; [exact (Kt r' Hr' E)|].
      cbn [id] in E. lia.
    + unfold Server.finish. cbn [db]. intros r' Hr' E.
      destruct (WorkerFacts.writes_outcome w i) as [|raw v _|];
        cbn [Db.exec_all fold_left Db.exec images] in Hr'.
      * exact (Kt r' Hr' E).
      * apply in_map_iff in Hr' as (r0 & <- & Hr0).
        destruct (set_completed_names i raw (JSON_stringify v) r0)
          as (Ei & Eu & Ef).
        rewrite Ei in E. rewrite Eu, Ef. exact (Kt r0 Hr0 E).
      * apply in_map_iff in Hr' as (r0 & <- & Hr0).
        destruct (DbFacts.set_failed_frame i r0) as (Ei & Eu & Ef & _).
        rewrite Ei in E. rewrite Eu, Ef. exact (Kt r0 Hr0 E).
    + unfold Server.delete, Routes.delete.
      destruct (Routes.select_ok d); cbn [negb]; [|exact Kt].
      destruct (Db.get i user (db t)); [|exact Kt].
      destruct (Routes.delete_ok d); [|exact Kt].
      cbn [db Db.exec images]. intros r' Hr' E.
      apply filter_In in Hr' as [Hr' _]. exact (Kt r' Hr' E).
Qed.

End FetchFacts.

(** X26: an uploaded image can be fetched under the id that the upload
    has returned.  The route being taken as one step (no worker ends and
    no other statement runs before it answers): when it answers 200 in a
    state the server can reach, then for every element of the answer the
    route of a single image, asked by the same user for the id of the
    element, answers at once 200 with a record that has the original
    name of the element, the status [processing] and no analysis yet.
    And later, whatever the server has done in between (workers ending,
    further uploads, deletions), the same request answers 404 or answers
    200 with a record of that id and of that original name, whose status
    is not [pending]. *)
Theorem uploaded_images_can_be_fetched :
  forall (user : Z) (files : list (Upload.file * Upload.insertion))
         (s s' : server) (entries : list Upload.Entry.t),
    Server.reachable s ->
    Upload.upload_images user files s = (Upload.Images entries, s') ->
    Forall (fun e =>
              exists r : row,
                Detail.get_image true user (Upload.Entry.id e) (db s')
                = Json200 (r, None)
                /\ filename r = Upload.Entry.originalName e
                /\ status r = processing)
           entries
    /\ forall t : server,
         Server.steps s' t ->
         Forall (fun e =>
                   Detail.get_image true user (Upload.Entry.id e) (db t)
                   = Error404
                   \/ exists p : Routes.processed,
                        Detail.get_image true user (Upload.Entry.id e) (db t)
                        = Json200 p
                        /\ id (fst p) = Upload.Entry.id e
                        /\ filename (fst p) = Upload.Entry.originalName e
                        /\ status (fst p) <> pending)
                entries.
Proof.
  intros user files s s' entries R U.
  assert (R' : Server.reachable s').
  { pose proof (UploadFacts.insert_each_state user files (db s) (uploads s)
                  (workers s)) as K.
    rewrite UploadFacts.server_eta in K.
    assert (E : s' = Upload.upload_each user (Upload.reached files true) s).
    { unfold Upload.upload_images in U. destruct files as [|fi rest].
      - discriminate.
      - destruct (Upload.insert_each user (fi :: rest) _) as [[l|e] s0];
          [|discriminate].
        injection U as _ <-. exact K. }
    rewrite E. exact (steps_trans R (UploadFacts.upload_each_steps _ _ _)). }
  assert (A : forallb (fun fi => Upload.carried_out (snd fi)) files = true
              /\ files <> []).
  { unfold Upload.upload_images in U. destruct files as [|fi rest];
      [discriminate|]. split; [|discriminate].
    match type of U with
    | context [Upload.insert_each user (fi :: rest) ?s0] =>
        destruct (UploadFacts.insert_each_reply user (fi :: rest) s0)
          as [_ B];
        destruct (Upload.insert_each user (fi :: rest) s0) as [r s1]
    end.
    cbn [fst] in B.
    destruct (forallb (fun fi0 => Upload.carried_out (snd fi0)) (fi :: rest));
      [reflexivity|].
    rewrite (B eq_refl) in U. discriminate. }
  destruct A as [A NE].
  destruct (UploadFacts.insert_each_all user files
              (mkServer (db s)
                 (rev (map (fun fi => Upload.path (fst fi)) files)
                  ++ uploads s)
                 (workers s)) A)
    as (entries0 & rows & E & _ & Eids & Rw & En).
  assert (U0 : Upload.upload_images user files s
               = (Upload.Images entries0,
                  mkServer
                    (mkDb (images (db s) ++ rows)
                          (last_id (db s) + Z.of_nat (length files)))
                    (rev (map (fun fi => Upload.path (fst fi)) files)
                     ++ uploads s)
                    (rev (map id rows) ++ workers s))).
  { unfold Upload.upload_images. destruct files as [|fi rest];
      [contradiction|]. rewrite E. reflexivity. }
  rewrite U0 in U. injection U as <- <-.
  pose proof (FetchFacts.entries_rows Eids Rw En) as P.
  pose proof (LifeFacts.numbered_reachable R') as Nm.
  assert (X : forall e, In e entries0 ->
              exists r, In r rows
                        /\ Upload.Entry.id e = id r
                        /\ Upload.Entry.originalName e = filename r
                        /\ user_id r = user
                        /\ status r = processing
                        /\ segmentation_data r = None).
  { clear - P. intros e He.
    induction P as [|e0 r0 es rs H _ IH]; [destruct He|].
    destruct He as [<-|He].
    - exists r0. split; [left; reflexivity|exact H].
    - destruct (IH He) as (r & Hr & Q). exists r. split; [right|]; assumption. }
  split.
  - apply Forall_forall. intros e He.
    destruct (X e He) as (r & Hr & Eid & On & Ur & St & Sg).
    exists r. unfold Detail.get_image. cbn [negb]. rewrite Eid, <- Ur.
    rewrite (@FetchFacts.get_row _ r Nm).
    + unfold Routes.process. rewrite Sg. repeat split; congruence.
    + cbn [db images]. apply in_or_app. right. exact Hr.
  - intros t St. apply Forall_forall. intros e He.
    destruct (X e He) as (r & Hr & Eid & On & Ur & _ & _).
    assert (Hin : In r (images (db (mkServer
                     (mkDb (images (db s) ++ rows)
                           (last_id (db s) + Z.of_nat (length files)))
                     (rev (map (fun fi => Upload.path (fst fi)) files)
                      ++ uploads s)
                     (rev (map id rows) ++ workers s))))).
    { cbn [db images]. apply in_or_app. right. exact Hr. }
    destruct (@FetchFacts.row_kept _ _ _ St Nm Hin) as (_ & _ & K).
    pose proof (LifeFacts.documented_steps St
                  (LifeFacts.documented_reachable R')) as Dt.
    unfold Detail.get_image. cbn [negb].
    destruct (Db.get (Upload.Entry.id e) user (db t)) as [r'|] eqn:G;
      [|left; reflexivity].
    right. destruct (DbFacts.get_some _ _ _ G) as (Hr' & Ei & _).
    unfold Lifecycle.documented in Dt. rewrite Forall_forall in Dt.
    destruct (Dt r' Hr') as [An Np].
    destruct (@ReadbackFacts.process_documented r' An) as [p ->].
    exists (r', p). split; [reflexivity|]. cbn [fst].
    destruct (K r' Hr' ltac:(congruence)) as [_ Kf].
    repeat split; congruence.
Qed.


(** The two files uploaded by the user of the two images. *)
Lemma uploaded_images_can_be_fetched_witness :
  Forall (fun e =>
            exists r : row,
              Detail.get_image true 7 (Upload.Entry.id e)
                (db (snd (Upload.upload_images 7 Scenes.two_files
                            Scenes.second_upload)))
              = Json200 (r, None)
              /\ filename r = Upload.Entry.originalName e
              /\ status r = processing)
         (match fst (Upload.upload_images 7 Scenes.two_files
                       Scenes.second_upload) with
          | Upload.Images entries => entries
          | _ => []
          end)
  /\ forall t : server,
       Server.steps (snd (Upload.upload_images 7 Scenes.two_files
                            Scenes.second_upload)) t ->
       Forall (fun e =>
                 Detail.get_image true 7 (Upload.Entry.id e) (db t)
                 = Error404
                 \/ exists p : Routes.processed,
                      Detail.get_image true 7 (Upload.Entry.id e) (db t)
                      = Json200 p
                      /\ id (fst p) = Upload.Entry.id e
                      /\ filename (fst p) = Upload.Entry.originalName e
                      /\ status (fst p) <> pending)
              (match fst (Upload.upload_images 7 Scenes.two_files
                            Scenes.second_upload) with
               | Upload.Images entries => entries
               | _ => []
               end).
Proof.
  apply (@uploaded_images_can_be_fetched 7 Scenes.two_files
           Scenes.second_upload
           (snd (Upload.upload_images 7 Scenes.two_files
                   Scenes.second_upload))).
  - exact reachable_second_upload.
  - vm_compute. reflexivity.
Defined.
